(** * Tiendaweb: the polling/dispatch engine of the shop front-end

    A shallow embedding of the message-ingestion core of the repository
    (checkout.js: [parseProductCommand], [processUpdates],
    [fetchPrimaryUpdates], [fetchAuxiliaryUpdates],
    [scheduleNextPrimaryPoll], [scheduleNextAuxiliaryPoll]; ui.js:
    [addMessageToChat], [updateProductCard], [saveProductData],
    [loadProductData], [deleteProduct], [renumberProducts]; storage.js:
    [saveChatHistory]; chat-actions.js: [clearChat]) together with the
    properties its specification states about it.

    Around the engine the development also covers the handlers that stop
    and force the poll loops (checkout.js: [stopPrimaryPolling],
    [stopAuxiliaryPolling], [stopAllPolling], [ptrRefreshAction]), the
    shopping cart, the customer order counts and the API settings
    (storage.js), the mobile number check of the forms, the roulette
    button, the currency switch (ui.js) and the pull-to-refresh gesture
    (pull-to-refresh.js), with properties read off that code.

    Modelling conventions.
    - A JavaScript string is a [string] of 7-bit characters; [trim], the
      class of white space and [toUpperCase] are the ASCII ones.
    - A value that may be [null]/[undefined] is an [option]; JavaScript
      truthiness of such a string is [truthy] (absent and empty are falsy).
    - Numbers read by [parseFloat] are exact rationals in lowest terms
      (binary rounding of doubles is not modelled); integers are [Z]/[N].
    - [localStorage] is a reliable store, seen through the three shapes of
      value the program keeps in it: raw text items, product records under
      [product_data_<id>] and chat histories.  Key families are disjoint and
      [JSON.parse (JSON.stringify v) = v] on these shapes, so the handlers
      for corrupt or missing storage never run.
    - The page has its [.product-grid]; the grid is the list of its cards in
      document order, a card being its id, name, description and image (the
      price label and the quantity widgets are rendering only).
    - A chat history is always an array, so [Array.isArray] holds.
    - What the dispatcher shows (ticker, notification, roulette button) and
      what it hands to [logSystemMessage] is kept as a list of events; the
      bare [console] output is not.
    - The answers of the network ([getUpdates], [getFile]) are inputs.  The
      refresh of the connection indicator and of the bot identity inside the
      fetch functions changes none of the state modelled here and is left
      out; an exception raised in the middle of a batch is not modelled. *)

From Stdlib Require Import ZArith QArith_base Qreduction Ascii.
From stdpp Require Import base strings list gmap pretty sorting.

Close Scope Q_scope.
Local Open Scope Z_scope.
Local Open Scope stdpp_scope.

(** ** JavaScript string primitives *)

Module Js.

Definition truthy (o : option string) : bool :=
  match o with
  | Some s => negb (bool_decide (s = ""))
  | None => false
  end.

(** [a || b] on possibly absent strings. *)
Definition orElse (a b : option string) : option string :=
  if truthy a then a else b.

(** [x || null]. *)
Definition orNull (a : option string) : option string := orElse a None.

Definition isDigit (c : ascii) : bool :=
  let n := nat_of_ascii c in (48 <=? n)%nat && (n <=? 57)%nat.

(** The ASCII members of the class [\s], which is also what [trim] strips. *)
Definition isWhiteSpace (c : ascii) : bool :=
  match c with
  | "009" | "010" | "011" | "012" | "013" | " " => true
  | _ => false
  end%char.

Definition toUpperChar (c : ascii) : ascii :=
  let n := nat_of_ascii c in
  if (97 <=? n)%nat && (n <=? 122)%nat then ascii_of_nat (n - 32) else c.

Fixpoint toUpperCase (s : string) : string :=
  match s with
  | EmptyString => EmptyString
  | String c s' => String (toUpperChar c) (toUpperCase s')
  end.

Definition isEmpty (s : string) : bool :=
  match s with EmptyString => true | _ => false end.

Definition startsWith (s prefix : string) : bool := String.prefix prefix s.

(** [s.substring(n)]. *)
Fixpoint substringFrom (n : nat) (s : string) : string :=
  match n, s with
  | O, _ => s
  | S n', String _ s' => substringFrom n' s'
  | S _, EmptyString => EmptyString
  end.

Fixpoint trimStart (s : string) : string :=
  match s with
  | EmptyString => EmptyString
  | String c s' => if isWhiteSpace c then trimStart s' else s
  end.

Fixpoint trimEnd (s : string) : string :=
  match s with
  | EmptyString => EmptyString
  | String c s' =>
      let r := trimEnd s' in
      if isWhiteSpace c && isEmpty r then EmptyString else String c r
  end.

Definition trim (s : string) : string := trimEnd (trimStart s).

(** [s.split(sep)] for a one-character separator. *)
Fixpoint split (sep : ascii) (s : string) : list string :=
  match s with
  | EmptyString => [EmptyString]
  | String c s' =>
      if bool_decide (c = sep) then EmptyString :: split sep s'
      else match split sep s' with
           | p :: ps => String c p :: ps
           | [] => [String c EmptyString]
           end
  end.

(** [a.slice(1, -1)]. *)
Definition slice1m1 {A} (l : list A) : list A := removelast (tail l).

Fixpoint allChars (p : ascii -> bool) (s : string) : bool :=
  match s with
  | EmptyString => true
  | String c s' => p c && allChars p s'
  end.

(** [/^\d+$/.test(s)]. *)
Definition allDigits (s : string) : bool := negb (isEmpty s) && allChars isDigit s.

(** [/^[0-9\s-]+$/.test(s)]. *)
Definition isCardChar (c : ascii) : bool :=
  isDigit c || isWhiteSpace c || bool_decide (c = "-"%char).
Definition cardNumberLike (s : string) : bool :=
  negb (isEmpty s) && allChars isCardChar s.

Definition digitValue (c : ascii) : N := N.of_nat (nat_of_ascii c - 48).

Fixpoint digitsValueFrom (acc : N) (s : string) : N :=
  match s with
  | EmptyString => acc
  | String c s' => digitsValueFrom (10 * acc + digitValue c)%N s'
  end.

(** [parseInt(s, 10)] on a string of digits. *)
Definition parseInt (s : string) : N := digitsValueFrom 0%N s.

(** The longest prefix of [s] whose characters satisfy [p], and the rest. *)
Fixpoint span (p : ascii -> bool) (s : string) : string * string :=
  match s with
  | EmptyString => (EmptyString, EmptyString)
  | String c s' =>
      if p c then let '(a, b) := span p s' in (String c a, b)
      else (EmptyString, s)
  end.

End Js.

(** ** The product command grammar (checkout.js, [parseProductCommand]) *)

Inductive Currency := CUP | MLC.

Global Instance Currency_eq_dec : EqDecision Currency.
Proof. solve_decision. Defined.

(** One match of [priceRegex] (one or more digits, an optional comma or dot,
    any digits: group 1; any white space; CUP or MLC: group 2; flags g and
    i): group 1, group 2 in upper case, and the number of characters the
    whole match covers. *)
Record PriceMatch := {
  numberText : string;
  currency : Currency;
  matchLength : nat
}.

Definition takeSeparator (s : string) : string * string :=
  match s with
  | String c s' =>
      if bool_decide (c = ","%char) || bool_decide (c = "."%char)
      then (String c EmptyString, s') else (EmptyString, s)
  | EmptyString => (EmptyString, EmptyString)
  end.

(** [(CUP|MLC)] under the [i] flag, at the head of [s]. *)
Definition currencyAt (s : string) : option Currency :=
  match s with
  | String a (String b (String c _)) =>
      let w := Js.toUpperCase (String a (String b (String c EmptyString))) in
      if bool_decide (w = "CUP") then Some CUP
      else if bool_decide (w = "MLC") then Some MLC
      else None
  | _ => None
  end.

(** The regular expression anchored at the head of [s].  Every quantifier is
    greedy and each one is followed by a character class disjoint from its
    own, so backtracking never finds a match the greedy reading misses. *)
Definition matchPriceAt (s : string) : option PriceMatch :=
  let '(d1, r1) := Js.span Js.isDigit s in
  if Js.isEmpty d1 then None else
  let '(sep, r2) := takeSeparator r1 in
  let '(d2, r3) := Js.span Js.isDigit r2 in
  let '(ws, r4) := Js.span Js.isWhiteSpace r3 in
  match currencyAt r4 with
  | Some cur =>
      Some {| numberText := d1 +:+ sep +:+ d2;
              currency := cur;
              matchLength := String.length d1 + String.length sep +
                             String.length d2 + String.length ws + 3 |}
  | None => None
  end.

(** The [while ((match = priceRegex.exec(priceString)) !== null)] loop: the
    successive leftmost matches, each search resuming at [lastIndex], i.e.
    after [skip] more characters. *)
Fixpoint execFrom (skip : nat) (s : string) : list PriceMatch :=
  match s with
  | EmptyString => []
  | String _ s' =>
      match skip with
      | S k => execFrom k s'
      | O =>
          match matchPriceAt s with
          | Some m => m :: execFrom (matchLength m - 1) s'
          | None => execFrom 0 s'
          end
      end
  end.

Definition execAll (priceString : string) : list PriceMatch :=
  execFrom 0 priceString.

(** [s.replace(',', '.')]: the first comma only. *)
Fixpoint replaceComma (s : string) : string :=
  match s with
  | EmptyString => EmptyString
  | String c s' =>
      if bool_decide (c = ","%char) then String "."%char s'
      else String c (replaceComma s')
  end.

(** [parseFloat] on an unsigned decimal literal; [None] is [NaN]. *)
Definition parseFloat (s : string) : option Q :=
  let '(d1, r1) := Js.span Js.isDigit s in
  let d2 := match r1 with
            | String "." r2 => fst (Js.span Js.isDigit r2)
            | _ => EmptyString
            end in
  if Js.isEmpty d1 && Js.isEmpty d2 then None
  else Some (Qred (Z.of_N (Js.digitsValueFrom 0%N (d1 +:+ d2))
                   # Z.to_pos (10 ^ Z.of_nat (String.length d2)))).

Record ProductCommand := {
  cmdId : string;
  cmdName : string;
  cmdDescription : string;
  cmdPriceCUP : option Q;
  cmdPriceMLC : option Q
}.

(** The body of the price loop: one match updates the pair
    [(priceCUP, priceMLC)]. *)
Definition recordPrice (acc : option Q * option Q) (m : PriceMatch)
  : option Q * option Q :=
  match parseFloat (replaceComma (numberText m)) with
  | Some priceValue =>
      match currency m with
      | CUP => (Some priceValue, snd acc)
      | MLC => (fst acc, Some priceValue)
      end
  | None => acc
  end.

Definition trimmedParts (text : string) : list string :=
  List.filter (fun part => negb (Js.isEmpty part))
    (map Js.trim (Js.slice1m1 (Js.split "*" text))).

Definition priceStringOf (text : string) : string := nth 4 (trimmedParts text) "".

Definition parseProductCommand (text : string) : option ProductCommand :=
  if negb (Js.startsWith text "*DULCES*") then None else
  let tp := trimmedParts text in
  if (length tp <? 5)%nat
     || negb (bool_decide (Js.toUpperCase (nth 0 tp "") = "DULCES"))
  then None else
  let id := nth 1 tp "" in
  let name := nth 2 tp "" in
  let description := nth 3 tp "" in
  let priceString := nth 4 tp "" in
  if negb (Js.allDigits id) then None else
  let '(priceCUP, priceMLC) :=
    fold_left recordPrice (execAll priceString) (None, None) in
  match priceCUP, priceMLC with
  | None, None => None
  | _, _ => Some {| cmdId := id; cmdName := name; cmdDescription := description;
                    cmdPriceCUP := priceCUP; cmdPriceMLC := priceMLC |}
  end.

(** ** Data model *)

Inductive EntryType := Sent | Received | System | Error.

Global Instance EntryType_eq_dec : EqDecision EntryType.
Proof. solve_decision. Defined.

Record ChatEntry := {
  entryText : option string;
  entryType : EntryType;
  entrySender : string;
  entryTimestamp : Z;
  entryImageUrl : option string
}.

Global Instance ChatEntry_eq_dec : EqDecision ChatEntry.
Proof. solve_decision. Defined.

(** The record kept under [product_data_<id>]. *)
Record ProductData := {
  name : string;
  description : string;
  priceCUP : option Q;
  priceMLC : option Q;
  imageUrl : option string
}.

(** [localStorage]: text items by key, product records by product id (the
    key is [product_data_] followed by the id), chat histories by key. *)
Record Storage := {
  items : gmap string string;
  productData : gmap string ProductData;
  histories : gmap string (list ChatEntry)
}.

Definition emptyStorage : Storage :=
  {| items := ∅; productData := ∅; histories := ∅ |}.

Definition withItems (f : gmap string string -> gmap string string)
  (ls : Storage) : Storage :=
  {| items := f (items ls); productData := productData ls;
     histories := histories ls |}.

Definition withProductData
  (f : gmap string ProductData -> gmap string ProductData)
  (ls : Storage) : Storage :=
  {| items := items ls; productData := f (productData ls);
     histories := histories ls |}.

Definition withHistories
  (f : gmap string (list ChatEntry) -> gmap string (list ChatEntry))
  (ls : Storage) : Storage :=
  {| items := items ls; productData := productData ls;
     histories := f (histories ls) |}.

(** A [.product-card] of the grid: its [data-product-id], the text of its
    [h3] and [p], and the [src] of its image when it shows one. *)
Record Card := {
  cardId : string;
  cardName : string;
  cardDescription : string;
  cardImage : option string
}.

(** ** Chat history (storage.js, ui.js, chat-actions.js) *)

Definition maxStoredMessages : nat := 200.

(** [saveChatHistory(key, history, logCallback)].  The result pairs the
    array [history] as the call leaves it with the store: [slice] copies, so
    the array itself is never trimmed. *)
Definition saveChatHistory (key : string) (history : list ChatEntry)
  (ls : Storage) : list ChatEntry * Storage :=
  let historyToSave :=
    if (maxStoredMessages <? length history)%nat
    then drop (length history - maxStoredMessages) history
    else history in
  (history, withHistories (insert key historyToSave) ls).

(** [addMessageToChat(text, type, sender, timestamp, imageUrl, save,
    chatHistory, storageKey)]: [push] mutates the caller's array, so the
    array after the call is part of the result. *)
Definition addMessageToChat (text : option string) (type : EntryType)
  (sender : string) (timestamp : Z) (imageUrl : option string) (save : bool)
  (chatHistory : list ChatEntry) (storageKey : string) (ls : Storage)
  : list ChatEntry * Storage :=
  if save && negb (bool_decide (type = System))
     && negb (bool_decide (type = Error)) && negb (Js.isEmpty storageKey)
  then
    let isDuplicate :=
      match last chatHistory with
      | Some lastMessage =>
          bool_decide (entryTimestamp lastMessage = timestamp)
          && bool_decide (entrySender lastMessage = sender)
          && bool_decide (entryType lastMessage = type)
          && bool_decide (entryText lastMessage = Js.orNull text)
          && bool_decide (entryImageUrl lastMessage = Js.orNull imageUrl)
      | None => false
      end in
    if negb isDuplicate then
      saveChatHistory storageKey
        (chatHistory ++ [{| entryText := Js.orNull text;
                            entryType := type;
                            entrySender := sender;
                            entryTimestamp := timestamp;
                            entryImageUrl := Js.orNull imageUrl |}])
        ls
    else (chatHistory, ls)
  else (chatHistory, ls).

(** ** Product cards and records (ui.js) *)

(** [parseInt(s, 10)] of a card id; [None] is [NaN]. *)
Definition parseIntOpt (s : string) : option N :=
  let '(d, _) := Js.span Js.isDigit s in
  if Js.isEmpty d then None else Some (Js.parseInt d).

Definition ltNumber (a b : option N) : bool :=
  match a, b with
  | Some x, Some y => (x <? y)%N
  | _, _ => false
  end.

Definition hasCard (productId : string) (grid : list Card) : bool :=
  existsb (fun c => bool_decide (cardId c = productId)) grid.

(** [updateImageContainer]: an [img] only for a truthy URL. *)
Definition shownImage (url : option string) : option string := Js.orNull url.

Definition createProductCardElement (productId : string) (d : ProductData)
  : Card :=
  {| cardId := productId; cardName := name d;
     cardDescription := description d; cardImage := shownImage (imageUrl d) |}.

(** Insert before the first card with a larger numeric id, else append. *)
Fixpoint insertCard (newId : option N) (card : Card) (grid : list Card)
  : list Card :=
  match grid with
  | [] => [card]
  | existingCard :: rest =>
      if ltNumber newId (parseIntOpt (cardId existingCard))
      then card :: existingCard :: rest
      else existingCard :: insertCard newId card rest
  end.

(** Rewrite the first card carrying [productId] (what [querySelector]
    returns). *)
Fixpoint refreshCard (productId : string) (d : ProductData) (grid : list Card)
  : list Card :=
  match grid with
  | [] => []
  | c :: rest =>
      if bool_decide (cardId c = productId)
      then {| cardId := cardId c; cardName := name d;
              cardDescription := description d;
              cardImage := shownImage (imageUrl d) |} :: rest
      else c :: refreshCard productId d rest
  end.

Definition updateProductCard (productId : string) (d : ProductData)
  (grid : list Card) : list Card :=
  if hasCard productId grid then refreshCard productId d grid
  else insertCard (parseIntOpt productId)
         (createProductCardElement productId d) grid.

Definition saveProductData (productId : string) (d : ProductData)
  (ls : Storage) : Storage :=
  if Js.isEmpty productId then ls
  else withProductData (insert productId d) ls.

Definition loadProductData (productId : string) (ls : Storage)
  : option ProductData :=
  productData ls !! productId.

(** One entry of the [updates] array of [renumberProducts]. *)
Record Renumbering := {
  oldId : string;
  newId : string;
  oldData : ProductData
}.

(** The record rebuilt from the card when the store has none. *)
Definition scrapedData (c : Card) : ProductData :=
  {| name := cardName c; description := cardDescription c;
     priceCUP := None; priceMLC := None; imageUrl := cardImage c |}.

(** Phase 1 of [renumberProducts], cards taken from position [index] on:
    the migrations to perform and the cards with their new ids. *)
Fixpoint renumberCards (ls : Storage) (index : nat) (cards : list Card)
  : list Renumbering * list Card :=
  match cards with
  | [] => ([], [])
  | card :: rest =>
      let '(updates, cards') := renumberCards ls (S index) rest in
      let new := pretty (index + 1)%nat in
      if bool_decide (cardId card = new) then (updates, card :: cards')
      else
        let data := match loadProductData (cardId card) ls with
                    | Some d => d
                    | None => scrapedData card
                    end in
        ({| oldId := cardId card; newId := new; oldData := data |} :: updates,
         {| cardId := new; cardName := cardName card;
            cardDescription := cardDescription card;
            cardImage := cardImage card |} :: cards')
  end.

(** Phase 2: drop the old keys that no migration writes, then write. *)
Definition migrate (updates : list Renumbering)
  (store : gmap string ProductData) : gmap string ProductData :=
  let itemsToSave : gmap string ProductData :=
    fold_left (fun m u => <[newId u := oldData u]> m) updates ∅ in
  let removed :=
    fold_left (fun m u => match itemsToSave !! oldId u with
                          | Some _ => m
                          | None => delete (oldId u) m
                          end) updates store in
  fold_left (fun m u => <[newId u := oldData u]> m) updates removed.

Definition renumberProducts (ls : Storage) (grid : list Card)
  : Storage * list Card :=
  match grid with
  | [] => (ls, grid)
  | _ =>
      let '(updates, cards') := renumberCards ls 0 grid in
      match updates with
      | [] => (ls, cards')
      | _ => (withProductData (migrate updates) ls, cards')
      end
  end.

(** Remove the first card carrying [productId]. *)
Fixpoint removeCard (productId : string) (grid : list Card) : list Card :=
  match grid with
  | [] => []
  | c :: rest =>
      if bool_decide (cardId c = productId) then rest
      else c :: removeCard productId rest
  end.

Definition deleteProduct (productIdToDelete : string) (ls : Storage)
  (grid : list Card) : Storage * list Card :=
  if hasCard productIdToDelete grid then
    renumberProducts (withProductData (delete productIdToDelete) ls)
      (removeCard productIdToDelete grid)
  else
    match productData ls !! productIdToDelete with
    | Some _ =>
        renumberProducts (withProductData (delete productIdToDelete) ls) grid
    | None => (ls, grid)
    end.

(** ** Telegram updates *)

Record PhotoSize := { file_id : string }.

Record Message := {
  fromFirstName : option string;
  fromUsername : option string;
  chatId : string;                 (* message.chat.id.toString() *)
  date : Z;
  messageText : option string;
  caption : option string;
  photo : option (list PhotoSize)
}.

Record Update := {
  update_id : Z;
  message : option Message
}.

Inductive BotType := Primary | Auxiliary.

Global Instance BotType_eq_dec : EqDecision BotType.
Proof. solve_decision. Defined.

(** ** What the dispatcher shows and logs *)

Inductive LogType := Info | Warn | Err | Sys.

(** The messages handed to [logCallback], by template. *)
Inductive LogMessage :=
  | ChatHistoryRemoved
  | HistoryClearedBy (senderName : string)
  | TickerUpdatedBy (senderName tickerText : string)
  | NotificationShownBy (senderName notificationText : string)
  | EmptyNotificationFrom (senderName : string)
  | RouletteShownBy (senderName attempts : string) (winHour : N) (code : string)
  | InvalidWinHour (senderName : string) (winHour : N) (text : string)
  | InvalidRouletteFormat (senderName text : string)
  | CardUpdatedBy (senderName : string)
  | InvalidCardFormat (senderName : string)
  | CardRemovedBy (senderName : string)
  | ProductDeletedBy (productId senderName : string)
  | InvalidDeleteCommand (senderName text : string)
  | ProductImageUnavailable (productId : string)
  | ProductUpdatedBy (productId senderName prodName : string)
      (cup mlc : option Q)
  | ReceivedImageUnavailable (caption : option string)
  | UpdatesLoopError.

Inductive Event :=
  | UpdateTickerDisplay (tickerText : string)
  | ShowNotification (notificationText : string)
  | ShowRouletteButton (attempts : string) (winHour : N) (code : string)
  | LogSystemMessage (msg : LogMessage) (type : LogType) (sender : string).

Definition isWarning (e : Event) : bool :=
  match e with
  | LogSystemMessage _ Warn _ => true
  | _ => false
  end.

(** ** Application state *)

Record State := {
  localStorage : Storage;
  productGrid : list Card;
  chatHistory : list ChatEntry;
  lastPrimaryUpdateId : Z;
  lastAuxiliaryUpdateId : Z;
  events : list Event              (* oldest first *)
}.

Definition initialState : State :=
  {| localStorage := emptyStorage; productGrid := []; chatHistory := [];
     lastPrimaryUpdateId := 0; lastAuxiliaryUpdateId := 0; events := [] |}.

Definition setLastUpdateId (botType : BotType) (n : Z) (st : State) : State :=
  match botType with
  | Primary =>
      {| localStorage := localStorage st; productGrid := productGrid st;
         chatHistory := chatHistory st; lastPrimaryUpdateId := n;
         lastAuxiliaryUpdateId := lastAuxiliaryUpdateId st;
         events := events st |}
  | Auxiliary =>
      {| localStorage := localStorage st; productGrid := productGrid st;
         chatHistory := chatHistory st;
         lastPrimaryUpdateId := lastPrimaryUpdateId st;
         lastAuxiliaryUpdateId := n; events := events st |}
  end.

Definition lastUpdateId (botType : BotType) (st : State) : Z :=
  match botType with
  | Primary => lastPrimaryUpdateId st
  | Auxiliary => lastAuxiliaryUpdateId st
  end.

Definition setStorage (ls : Storage) (st : State) : State :=
  {| localStorage := ls; productGrid := productGrid st;
     chatHistory := chatHistory st;
     lastPrimaryUpdateId := lastPrimaryUpdateId st;
     lastAuxiliaryUpdateId := lastAuxiliaryUpdateId st; events := events st |}.

Definition setProducts (p : Storage * list Card) (st : State) : State :=
  {| localStorage := fst p; productGrid := snd p;
     chatHistory := chatHistory st;
     lastPrimaryUpdateId := lastPrimaryUpdateId st;
     lastAuxiliaryUpdateId := lastAuxiliaryUpdateId st; events := events st |}.

Definition setChat (p : list ChatEntry * Storage) (st : State) : State :=
  {| localStorage := snd p; productGrid := productGrid st;
     chatHistory := fst p;
     lastPrimaryUpdateId := lastPrimaryUpdateId st;
     lastAuxiliaryUpdateId := lastAuxiliaryUpdateId st; events := events st |}.

Definition emit (e : Event) (st : State) : State :=
  {| localStorage := localStorage st; productGrid := productGrid st;
     chatHistory := chatHistory st;
     lastPrimaryUpdateId := lastPrimaryUpdateId st;
     lastAuxiliaryUpdateId := lastAuxiliaryUpdateId st;
     events := events st ++ [e] |}.

Definition setChatHistory (h : list ChatEntry) (st : State) : State :=
  setChat (h, localStorage st) st.

(** [logSystemMessage(message, type, sender)]. *)
Definition logSystemMessage (msg : LogMessage) (type : LogType)
  (sender : string) (st : State) : State :=
  emit (LogSystemMessage msg type sender) st.

(** [clearChat(storageKey, logCallback)]: the stored history is removed, the
    callback is told, and a fresh empty array is returned for the caller to
    install. *)
Definition clearChat (storageKey : string)
  (logCallback : LogMessage -> LogType -> option string -> State -> State)
  (st : State) : list ChatEntry * State :=
  ([], logCallback ChatHistoryRemoved Sys (Some "Sistema")
         (setStorage (withHistories (delete storageKey) (localStorage st)) st)).

(** ** The dispatcher (checkout.js, [processUpdates]) *)

Record Config := {
  MAIN_CHAT_ID : string;
  AUX_CHAT_ID : option string;
  EFFECTIVE_AUX_BOT_TOKEN : option string;
  PRIMARY_FILE_BASE_URL : string
}.

Definition TICKER_STORAGE_KEY : string := "topPanelTickerText".
Definition MLC_CARD_STORAGE_KEY : string := "mlcCardNumber".

Definition textStartsWith (text : option string) (prefix : string) : bool :=
  match text with
  | Some t => Js.startsWith t prefix
  | None => false
  end.

Definition textOf (text : option string) : string := default "" text.

(** [text.split('*').map(part => part.trim()).filter(part => part !== '')]. *)
Definition commandParts (text : string) : list string :=
  List.filter (fun part => negb (Js.isEmpty part))
    (map Js.trim (Js.split "*" text)).

Definition nonEmptyPhotos (photoArray : option (list PhotoSize))
  : option PhotoSize :=
  match photoArray with
  | Some l => last l
  | None => None
  end.

Section Dispatch.

Variable cfg : Config.

(** The outcome of [telegramApiRequest('getFile', {file_id}, false,
    useAuxToken)]: the [file_path] of the answer, or [None] when the request
    throws or the answer has none. *)
Variable getFile : string -> bool -> option string.

Definition LOCAL_STORAGE_KEY : string :=
  "telegramChatHistory_" +:+ MAIN_CHAT_ID cfg.

Definition logPrefixOf (botType : BotType) : string :=
  match botType with
  | Primary => "Sistema (Primario)"
  | Auxiliary => "Sistema (Auxiliar)"
  end.

Definition filePathOf (fileId : string) (useAuxToken : bool) : option string :=
  match getFile fileId useAuxToken with
  | Some path => if Js.isEmpty path then None else Some path
  | None => None
  end.

(** The chat-message branch at the end of the loop body. *)
Definition handleChatMessage (botType : BotType)
  (logCallback : LogMessage -> LogType -> option string -> State -> State)
  (senderName : string) (m : Message) (st : State) : State :=
  if bool_decide (botType = Primary)
     && bool_decide (chatId m = MAIN_CHAT_ID cfg)
  then
    match nonEmptyPhotos (photo m) with
    | Some bestPhoto =>
        match filePathOf (file_id bestPhoto) false with
        | Some path =>
            setChat
              (addMessageToChat (caption m) Received senderName (date m)
                 (Some (PRIMARY_FILE_BASE_URL cfg +:+ "/" +:+ path)) true
                 (chatHistory st) LOCAL_STORAGE_KEY (localStorage st)) st
        | None =>
            let st1 :=
              logCallback (ReceivedImageUnavailable (caption m)) Warn None st in
            if Js.truthy (caption m) then
              setChat
                (addMessageToChat (caption m) Received senderName (date m)
                   None true (chatHistory st1) LOCAL_STORAGE_KEY
                   (localStorage st1)) st1
            else st1
        end
    | None =>
        if Js.truthy (messageText m) then
          setChat
            (addMessageToChat (messageText m) Received senderName (date m)
               None true (chatHistory st) LOCAL_STORAGE_KEY
               (localStorage st)) st
        else st
    end
  else st.

(** [botType === 'auxiliary' && !!EFFECTIVE_AUX_BOT_TOKEN]. *)
Definition useAuxTokenForFileOps (botType : BotType) : bool :=
  bool_decide (botType = Auxiliary)
  && Js.truthy (EFFECTIVE_AUX_BOT_TOKEN cfg).

(** The product branch: resolve the image, merge with the stored record,
    refresh the card and the record. *)
Definition applyProductUpdate (botType : BotType)
  (logCallback : LogMessage -> LogType -> option string -> State -> State)
  (senderName : string) (m : Message) (d : ProductCommand) (st : State)
  : State :=
  let '(productImageUrl, st1) :=
    match nonEmptyPhotos (photo m) with
    | Some bestPhoto =>
        match filePathOf (file_id bestPhoto) (useAuxTokenForFileOps botType)
        with
        | Some path =>
            let fileBase :=
              if useAuxTokenForFileOps botType
              then "https://api.telegram.org/file/bot"
                   +:+ textOf (EFFECTIVE_AUX_BOT_TOKEN cfg)
              else PRIMARY_FILE_BASE_URL cfg in
            (Some (fileBase +:+ "/" +:+ path), st)
        | None =>
            (None,
             logCallback (ProductImageUnavailable (cmdId d)) Warn None st)
        end
    | None => (None, st)
    end in
  let existingImageUrl :=
    match productImageUrl with
    | None =>
        match loadProductData (cmdId d) (localStorage st1) with
        | Some existingData => Js.orNull (imageUrl existingData)
        | None => None
        end
    | Some _ => None
    end in
  let finalProductData :=
    {| name := cmdName d; description := cmdDescription d;
       priceCUP := cmdPriceCUP d; priceMLC := cmdPriceMLC d;
       imageUrl := match productImageUrl with
                   | Some u => Some u
                   | None => existingImageUrl
                   end |} in
  logCallback
    (ProductUpdatedBy (cmdId d) senderName (cmdName d)
       (priceCUP finalProductData) (priceMLC finalProductData)) Sys None
    (setProducts
       (saveProductData (cmdId d) finalProductData (localStorage st1),
        updateProductCard (cmdId d) finalProductData (productGrid st1))
       st1).

Definition senderNameOf (m : Message) : string :=
  textOf (Js.orElse (Js.orElse (fromFirstName m) (fromUsername m))
            (Some "Desconocido")).

(** [logCallback = (msg, type, senderOverride) =>
    logSystemMessage(msg, type, senderOverride || logPrefix)]. *)
Definition logCallbackOf (botType : BotType) (msg : LogMessage)
  (type : LogType) (senderOverride : option string) : State -> State :=
  logSystemMessage msg type
    (textOf (Js.orElse senderOverride (Some (logPrefixOf botType)))).

(** What remains of the loop body once no control command matched: a
    product command in the caption or the text, else a chat message. *)
Definition productOrChat (botType : BotType) (m : Message) (st : State)
  : State :=
  let commandTextSource := Js.orElse (caption m) (messageText m) in
  let productUpdateData :=
    if Js.truthy commandTextSource
    then parseProductCommand (textOf commandTextSource) else None in
  match productUpdateData with
  | Some d =>
      applyProductUpdate botType (logCallbackOf botType) (senderNameOf m) m d st
  | None =>
      handleChatMessage botType (logCallbackOf botType) (senderNameOf m) m st
  end.

(** [text.substring(prefix.length).trim()]. *)
Definition remainder (prefix : string) (text : option string) : string :=
  Js.trim (Js.substringFrom (String.length prefix) (textOf text)).

(** The body of [for (const update of updates)] past the chat filter. *)
Definition dispatchMessage (botType : BotType) (m : Message) (st : State)
  : State :=
  let senderName := senderNameOf m in
  let text := messageText m in
  let logCallback := logCallbackOf botType in
  if bool_decide (text = Some "*ELIMINAR.M*") then
    let '(h, st1) := clearChat LOCAL_STORAGE_KEY logCallback st in
    logCallback (HistoryClearedBy senderName) Sys None (setChatHistory h st1)
  else if textStartsWith text "*PANEL SUPERIOR*" then
    let tickerText := remainder "*PANEL SUPERIOR*" text in
    logCallback (TickerUpdatedBy senderName tickerText) Sys None
      (emit (UpdateTickerDisplay tickerText)
         (setStorage
            (withItems (insert TICKER_STORAGE_KEY tickerText) (localStorage st))
            st))
  else if textStartsWith text "*NOTIFICACION*" then
    let notificationText := remainder "*NOTIFICACION*" text in
    if negb (Js.isEmpty notificationText) then
      logCallback (NotificationShownBy senderName notificationText) Sys None
        (emit (ShowNotification notificationText) st)
    else logCallback (EmptyNotificationFrom senderName) Warn None st
  else if textStartsWith text "*RULETA*" then
    let tp := commandParts (textOf text) in
    if bool_decide (length tp = 4%nat)
       && bool_decide (Js.toUpperCase (nth 0 tp "") = "RULETA")
       && Js.allDigits (nth 1 tp "") && Js.allDigits (nth 2 tp "")
       && negb (Js.isEmpty (nth 3 tp ""))
    then
      let attempts := nth 1 tp "" in
      let winHour := Js.parseInt (nth 2 tp "") in
      let code := nth 3 tp "" in
      if (0 <=? winHour)%N && (winHour <=? 23)%N then
        logCallback (RouletteShownBy senderName attempts winHour code) Sys None
          (emit (ShowRouletteButton attempts winHour code) st)
      else
        logCallback (InvalidWinHour senderName winHour (textOf text)) Warn None st
    else logCallback (InvalidRouletteFormat senderName (textOf text)) Warn None st
  else if textStartsWith text "*TARJETA*" then
    let potentialCardNumber := remainder "*TARJETA*" text in
    if Js.cardNumberLike potentialCardNumber then
      logCallback (CardUpdatedBy senderName) Sys None
        (setStorage
           (withItems (insert MLC_CARD_STORAGE_KEY potentialCardNumber)
              (localStorage st)) st)
    else logCallback (InvalidCardFormat senderName) Warn None st
  else if bool_decide (text = Some "*TARJETA.E*") then
    logCallback (CardRemovedBy senderName) Sys None
      (setStorage (withItems (delete MLC_CARD_STORAGE_KEY) (localStorage st)) st)
  else if textStartsWith text "*ELIMINAR.PRODUCTO*" then
    let parts := commandParts (textOf text) in
    if bool_decide (length parts = 2%nat)
       && bool_decide (Js.toUpperCase (nth 0 parts "") = "ELIMINAR.PRODUCTO")
       && Js.allDigits (nth 1 parts "")
    then
      let productIdToDelete := nth 1 parts "" in
      logCallback (ProductDeletedBy productIdToDelete senderName) Sys None
        (setProducts
           (deleteProduct productIdToDelete (localStorage st) (productGrid st))
           st)
    else
      logCallback (InvalidDeleteCommand senderName (textOf text)) Warn None st
  else productOrChat botType m st.

Definition processUpdate (botType : BotType) (st : State) (update : Update)
  : State :=
  let st := setLastUpdateId botType (update_id update) st in
  match message update with
  | Some m =>
      if bool_decide (botType = Primary)
         && negb (bool_decide (chatId m = MAIN_CHAT_ID cfg))
      then st
      else if bool_decide (botType = Auxiliary)
              && negb (bool_decide (Some (chatId m) = AUX_CHAT_ID cfg))
      then st
      else dispatchMessage botType m st
  | None => st
  end.

Definition processUpdates (updates : list Update) (botType : BotType)
  (st : State) : State :=
  fold_left (processUpdate botType) updates st.

End Dispatch.

(** ** The poll loops (checkout.js, [fetchPrimaryUpdates],
       [fetchAuxiliaryUpdates], [scheduleNextPrimaryPoll],
       [scheduleNextAuxiliaryPoll]) *)

(** The values [primaryUpdateInterval]/[auxiliaryUpdateInterval] take:
    [null], the mark [true] set when polling starts, or a timer id. *)
Inductive Handle := HNull | HTrue | HTimer (id : positive).

Definition handleTruthy (h : Handle) : bool :=
  match h with
  | HNull => false
  | HTrue | HTimer _ => true
  end.

Record Timeout := {
  timeoutId : positive;
  callback : BotType;            (* fetchPrimaryUpdates / fetchAuxiliaryUpdates *)
  delay : Z                      (* milliseconds *)
}.

Record GetUpdatesRequest := {
  offset : Z;
  timeout : Z;
  allowed_updates : list string
}.

(** What [await telegramApiRequest('getUpdates', ...)] produces. *)
Inductive Response :=
  | Throws
  | NullResult
  | Result (updates : list Update).

Record Runtime := {
  app : State;
  primaryUpdateInterval : Handle;
  auxiliaryUpdateInterval : Handle;
  pendingTimeouts : list Timeout;
  nextTimeoutId : positive;
  sent : list (BotType * GetUpdatesRequest)    (* oldest first *)
}.

Definition interval (botType : BotType) (rt : Runtime) : Handle :=
  match botType with
  | Primary => primaryUpdateInterval rt
  | Auxiliary => auxiliaryUpdateInterval rt
  end.

Definition setApp (st : State) (rt : Runtime) : Runtime :=
  {| app := st; primaryUpdateInterval := primaryUpdateInterval rt;
     auxiliaryUpdateInterval := auxiliaryUpdateInterval rt;
     pendingTimeouts := pendingTimeouts rt;
     nextTimeoutId := nextTimeoutId rt; sent := sent rt |}.

Definition setInterval (botType : BotType) (h : Handle) (rt : Runtime)
  : Runtime :=
  {| app := app rt;
     primaryUpdateInterval :=
       match botType with Primary => h | Auxiliary => primaryUpdateInterval rt end;
     auxiliaryUpdateInterval :=
       match botType with Primary => auxiliaryUpdateInterval rt | Auxiliary => h end;
     pendingTimeouts := pendingTimeouts rt;
     nextTimeoutId := nextTimeoutId rt; sent := sent rt |}.

Definition clearTimeout (id : positive) (rt : Runtime) : Runtime :=
  {| app := app rt; primaryUpdateInterval := primaryUpdateInterval rt;
     auxiliaryUpdateInterval := auxiliaryUpdateInterval rt;
     pendingTimeouts :=
       List.filter (fun t => negb (bool_decide (timeoutId t = id)))
         (pendingTimeouts rt);
     nextTimeoutId := nextTimeoutId rt; sent := sent rt |}.

Definition setTimeout (cb : BotType) (ms : Z) (rt : Runtime)
  : positive * Runtime :=
  (nextTimeoutId rt,
   {| app := app rt; primaryUpdateInterval := primaryUpdateInterval rt;
      auxiliaryUpdateInterval := auxiliaryUpdateInterval rt;
      pendingTimeouts :=
        pendingTimeouts rt
        ++ [{| timeoutId := nextTimeoutId rt; callback := cb; delay := ms |}];
      nextTimeoutId := Pos.succ (nextTimeoutId rt); sent := sent rt |}).

Definition recordRequest (botType : BotType) (r : GetUpdatesRequest)
  (rt : Runtime) : Runtime :=
  {| app := app rt; primaryUpdateInterval := primaryUpdateInterval rt;
     auxiliaryUpdateInterval := auxiliaryUpdateInterval rt;
     pendingTimeouts := pendingTimeouts rt;
     nextTimeoutId := nextTimeoutId rt;
     sent := sent rt ++ [(botType, r)] |}.

(** [scheduleNextPrimaryPoll(delay)] and [scheduleNextAuxiliaryPoll(delay)]. *)
Definition scheduleNextPoll (botType : BotType) (ms : Z) (rt : Runtime)
  : Runtime :=
  if handleTruthy (interval botType rt) then
    let rt1 := match interval botType rt with
               | HTimer id => clearTimeout id rt
               | _ => rt
               end in
    let '(id, rt2) := setTimeout botType ms rt1 in
    setInterval botType (HTimer id) rt2
  else rt.

Definition scheduleNextPrimaryPoll : Z -> Runtime -> Runtime :=
  scheduleNextPoll Primary.
Definition scheduleNextAuxiliaryPoll : Z -> Runtime -> Runtime :=
  scheduleNextPoll Auxiliary.

Section Polling.

Variable cfg : Config.
Variable getFile : string -> bool -> option string.

(** The shared shape of the two fetch functions: the request, the three
    outcomes of [try], and the [finally] block, which JavaScript runs after
    the [return] of either failure path as well. *)
Definition fetchBody (botType : BotType) (response : Response) (rt : Runtime)
  : Runtime :=
  let request :=
    {| offset := lastUpdateId botType (app rt) + 1; timeout := 50;
       allowed_updates := ["message"] |} in
  let rt0 := recordRequest botType request rt in
  let rt1 :=
    match response with
    | NullResult => scheduleNextPoll botType 15000 rt0
    | Result updates =>
        setApp (processUpdates cfg getFile updates botType (app rt0)) rt0
    | Throws =>
        scheduleNextPoll botType 15000
          (setApp (logSystemMessage UpdatesLoopError Err (logPrefixOf botType)
                     (app rt0)) rt0)
    end in
  if handleTruthy (interval botType rt1)
  then scheduleNextPoll botType 100 rt1
  else rt1.

Definition fetchPrimaryUpdates (response : Response) (rt : Runtime) : Runtime :=
  if negb (handleTruthy (primaryUpdateInterval rt)) then rt
  else fetchBody Primary response rt.

Definition fetchAuxiliaryUpdates (response : Response) (rt : Runtime)
  : Runtime :=
  if negb (handleTruthy (auxiliaryUpdateInterval rt))
     || negb (Js.truthy (EFFECTIVE_AUX_BOT_TOKEN cfg))
     || negb (Js.truthy (AUX_CHAT_ID cfg))
  then rt
  else fetchBody Auxiliary response rt.

Definition fetchUpdates (botType : BotType) : Response -> Runtime -> Runtime :=
  match botType with
  | Primary => fetchPrimaryUpdates
  | Auxiliary => fetchAuxiliaryUpdates
  end.

End Polling.

(** ** Stopping the loops, pull-to-refresh and timer expiry (checkout.js,
       [stopPrimaryPolling], [stopAuxiliaryPolling], [stopAllPolling],
       [ptrRefreshAction] in [initializeApp]) *)

(** The timer a handle names, if it names one, is cleared
    ([if (typeof h === 'number') clearTimeout(h)]). *)
Definition clearHandle (botType : BotType) (rt : Runtime) : Runtime :=
  match interval botType rt with
  | HTimer id => clearTimeout id rt
  | _ => rt
  end.

(** [stopPrimaryPolling()] and [stopAuxiliaryPolling()]. *)
Definition stopPolling (botType : BotType) (rt : Runtime) : Runtime :=
  if handleTruthy (interval botType rt)
  then setInterval botType HNull (clearHandle botType rt)
  else rt.

Definition stopPrimaryPolling : Runtime -> Runtime := stopPolling Primary.
Definition stopAuxiliaryPolling : Runtime -> Runtime := stopPolling Auxiliary.

Definition stopAllPolling (rt : Runtime) : Runtime :=
  stopAuxiliaryPolling (stopPrimaryPolling rt).

(** What the page reacts to once the loops are set up: a pending timer
    expires (the browser drops it and calls its callback, which receives the
    given answer to its request), the user pulls to refresh, or the page
    unloads.  Every handler runs to completion before the next event. *)
Inductive PageEvent :=
  | TimerExpires (id : positive) (response : Response)
  | PullToRefresh (primaryBotInfo auxiliaryBotInfo : bool)
      (primaryResponse auxiliaryResponse : Response)
  | BeforeUnload.

Section PageEvents.

Variable cfg : Config.
Variable getFile : string -> bool -> option string.

(** One channel's half of [ptrRefreshAction]: a pending timer is cleared,
    the handle is set to the mark [true], and the fetch is awaited. *)
Definition forceFetch (botType : BotType) (response : Response) (rt : Runtime)
  : Runtime :=
  fetchUpdates cfg getFile botType response
    (setInterval botType HTrue
       (if handleTruthy (interval botType rt) then clearHandle botType rt
        else rt)).

(** [ptrRefreshAction()]; the two flags tell whether [primaryBotInfo] and
    [auxiliaryBotInfo] are set. *)
Definition ptrRefreshAction (primaryBotInfo auxiliaryBotInfo : bool)
  (primaryResponse auxiliaryResponse : Response) (rt : Runtime) : Runtime :=
  let rt1 := if primaryBotInfo then forceFetch Primary primaryResponse rt
             else rt in
  if auxiliaryBotInfo && Js.truthy (EFFECTIVE_AUX_BOT_TOKEN cfg)
     && Js.truthy (AUX_CHAT_ID cfg)
  then forceFetch Auxiliary auxiliaryResponse rt1
  else rt1.

(** A pending timer set by [setTimeout(fetchPrimaryUpdates, delay)] or
    [setTimeout(fetchAuxiliaryUpdates, delay)] expires. *)
Definition expireTimer (id : positive) (response : Response) (rt : Runtime)
  : Runtime :=
  match List.find (fun t => bool_decide (timeoutId t = id))
          (pendingTimeouts rt) with
  | Some t => fetchUpdates cfg getFile (callback t) response (clearTimeout id rt)
  | None => rt
  end.

Definition handleEvent (rt : Runtime) (e : PageEvent) : Runtime :=
  match e with
  | TimerExpires id response => expireTimer id response rt
  | PullToRefresh p a r1 r2 => ptrRefreshAction p a r1 r2 rt
  | BeforeUnload => stopAllPolling rt
  end.

Definition handleEvents (es : list PageEvent) (rt : Runtime) : Runtime :=
  fold_left handleEvent es rt.

End PageEvents.

(** ** The shopping cart (storage.js, cart module: [loadCart], [saveCart],
       [getCartCount], [addToCart], [removeFromCart],
       [decreaseCartItemQuantity], [clearCart], [initializeCart])

    Quantities are the integers the callers pass (the buy button hands over
    [parseInt] of a string of digits); prices are carried along unchanged.
    The text kept under [CART_STORAGE_KEY] is always one that [saveCart]
    wrote, so it is modelled by the list it encodes.  Alerts, console
    output and the redrawing of the basket are left out. *)

Record CartItem := {
  itemId : string;
  itemName : string;
  itemPrice : Q;
  itemQuantity : Z
}.

Record Cart := {
  cartItems : list CartItem;
  cartCurrency : option Currency;          (* [None] is [null] *)
  storedCart : option (list CartItem)      (* the item under CART_STORAGE_KEY *)
}.

Definition setCartItems (items : list CartItem) (cart : Cart) : Cart :=
  {| cartItems := items; cartCurrency := cartCurrency cart;
     storedCart := storedCart cart |}.

Definition setCartCurrency (c : option Currency) (cart : Cart) : Cart :=
  {| cartItems := cartItems cart; cartCurrency := c;
     storedCart := storedCart cart |}.

(** [array.findIndex(p)], with [None] for -1. *)
Fixpoint findIndex {A} (p : A -> bool) (l : list A) : option nat :=
  match l with
  | [] => None
  | x :: l' => if p x then Some 0%nat else S <$> findIndex p l'
  end.

Definition hasId (idStr : string) (item : CartItem) : bool :=
  bool_decide (itemId item = idStr).

Definition saveCart (cart : Cart) : Cart :=
  {| cartItems := cartItems cart; cartCurrency := cartCurrency cart;
     storedCart := Some (cartItems cart) |}.





Definition removeFromCart (productId : string) (cart : Cart) : Cart :=
  let initialLength := length (cartItems cart) in
  let cart1 :=
    setCartItems
      (List.filter (fun item => negb (hasId productId item)) (cartItems cart))
      cart in
  if (length (cartItems cart1) <? initialLength)%nat then
    saveCart (if (length (cartItems cart1) =? 0)%nat
              then setCartCurrency None cart1 else cart1)
  else cart1.

Definition decreaseCartItemQuantity (productId : string)
  (quantityToRemove : Z) (cart : Cart) : Cart :=
  match findIndex (hasId productId) (cartItems cart) with
  | Some itemIndex =>
      let cart1 :=
        setCartItems
          (alter (fun item =>
                    {| itemId := itemId item; itemName := itemName item;
                       itemPrice := itemPrice item;
                       itemQuantity := itemQuantity item - quantityToRemove |})
             itemIndex (cartItems cart))
          cart in
      let cart2 :=
        match cartItems cart1 !! itemIndex with
        | Some item =>
            if itemQuantity item <=? 0 then
              let cart3 := setCartItems (delete itemIndex (cartItems cart1))
                             cart1 in
              if (length (cartItems cart3) =? 0)%nat
              then setCartCurrency None cart3 else cart3
            else cart1
        | None => cart1
        end in
      saveCart cart2
  | None => cart
  end.





(** ** Customer order counts (storage.js, [loadCustomerOrderCount],
       [saveCustomerOrderCount]; checkout.js, the order-count step of
       [handleCheckoutSubmit])

    Counts are integers; [count.toString()] of a non-negative integer is
    its decimal numeral. *)







(** ** The mobile number check of the checkout form (checkout.js,
       [handleCheckoutSubmit]) *)

(** One piece of a regular expression: a character class repeated between
    [atLeast] and [atMost] times. *)
Record Piece := {
  charClass : ascii -> bool;
  atLeast : nat;
  atMost : nat
}.

(** One piece is matched greedily, giving characters back one at a time
    until the rest of the expression, [k], matches what follows. *)
Fixpoint matchPiece (p : ascii -> bool) (least most : nat)
  (k : string -> bool) (s : string) : bool :=
  match most with
  | O => (least =? 0)%nat && k s
  | S most' =>
      match s with
      | String c s' =>
          (p c && matchPiece p (pred least) most' k s')
          || ((least =? 0)%nat && k s)
      | EmptyString => (least =? 0)%nat && k s
      end
  end.

(** [regex.test(s)] for a sequence of pieces anchored at both ends. *)
Fixpoint testAnchored (pieces : list Piece) (s : string) : bool :=
  match pieces with
  | [] => Js.isEmpty s
  | piece :: rest =>
      matchPiece (charClass piece) (atLeast piece) (atMost piece)
        (testAnchored rest) s
  end.

(** The expression the form tests [movil] against: an optional plus sign,
    one to four digits, seven to fourteen digits. *)
Definition mobilePattern : list Piece :=
  [{| charClass := fun c => bool_decide (c = "+"%char);
      atLeast := 0; atMost := 1 |};
   {| charClass := Js.isDigit; atLeast := 1; atMost := 4 |};
   {| charClass := Js.isDigit; atLeast := 7; atMost := 14 |}].

Definition validMobile (movil : string) : bool :=
  testAnchored mobilePattern movil.

(** ** The API settings (storage.js, [saveUserApiConfig],
       [loadUserApiConfig], [clearUserApiConfig]; settings page,
       [handleSave], [handleReset]; telegram-api module,
       [initializeApiConfig]) *)

Definition USER_BOT_TOKEN_KEY : string := "userBotToken".
Definition USER_CHAT_ID_KEY : string := "userChatId".
Definition USER_AUX_CHAT_ID_KEY : string := "userAuxChatId".
Definition USER_AUX_BOT_TOKEN_KEY : string := "userAuxBotToken".

Definition DEFAULT_CHAT_ID : string := "908553770".

(** The two optional arguments are [Some] when they are strings. *)
Definition saveUserApiConfig (token chatId : string)
  (auxChatId auxBotToken : option string) (ls : Storage) : Storage :=
  let ls1 := withItems (insert USER_BOT_TOKEN_KEY token) ls in
  let ls2 := withItems (insert USER_CHAT_ID_KEY chatId) ls1 in
  let ls3 := match auxChatId with
             | Some a => withItems (insert USER_AUX_CHAT_ID_KEY a) ls2
             | None => withItems (delete USER_AUX_CHAT_ID_KEY) ls2
             end in
  match auxBotToken with
  | Some b => withItems (insert USER_AUX_BOT_TOKEN_KEY b) ls3
  | None => withItems (delete USER_AUX_BOT_TOKEN_KEY) ls3
  end.

Record UserApiConfig := {
  userToken : option string;
  userChatId : option string;
  userAuxChatId : option string;
  userAuxBotToken : option string
}.

Definition loadUserApiConfig (ls : Storage) : UserApiConfig :=
  {| userToken := items ls !! USER_BOT_TOKEN_KEY;
     userChatId := items ls !! USER_CHAT_ID_KEY;
     userAuxChatId := items ls !! USER_AUX_CHAT_ID_KEY;
     userAuxBotToken := items ls !! USER_AUX_BOT_TOKEN_KEY |}.

Definition clearUserApiConfig (ls : Storage) : Storage :=
  withItems (delete USER_AUX_BOT_TOKEN_KEY)
    (withItems (delete USER_AUX_CHAT_ID_KEY)
       (withItems (delete USER_CHAT_ID_KEY)
          (withItems (delete USER_BOT_TOKEN_KEY) ls))).

(** [handleSave()] on the values of the four input fields; the flag tells
    whether the settings were saved or the form showed an error. *)
Definition handleSave (botTokenInput chatIdInput settingsAuxChatIdInput
  settingsAuxBotTokenInput : string) (ls : Storage) : bool * Storage :=
  let botToken := Js.trim botTokenInput in
  let chatId := Js.trim chatIdInput in
  let auxChatId := Js.trim settingsAuxChatIdInput in
  let auxBotToken := Js.trim settingsAuxBotTokenInput in
  if Js.isEmpty botToken || Js.isEmpty chatId then (false, ls)
  else if negb (Js.isEmpty auxBotToken) && Js.isEmpty auxChatId
  then (false, ls)
  else (true,
        saveUserApiConfig botToken chatId (Some auxChatId) (Some auxBotToken)
          ls).

(** [handleReset()]; the flag is the answer to the confirmation dialog. *)
Definition handleReset (confirmed : bool) (ls : Storage) : Storage :=
  if confirmed then clearUserApiConfig ls else ls.

(** [a || d] for a possibly absent string and a default. *)
Definition orDefault (a : option string) (d : string) : string :=
  match Js.orElse a None with
  | Some s => s
  | None => d
  end.

Section ApiConfig.

(** The bot token built into the telegram-api module. *)
Variable DEFAULT_BOT_TOKEN : string.

(** [initializeApiConfig()], as far as the exported configuration goes. *)
Definition initializeApiConfig (ls : Storage) : Config :=
  let userConfig := loadUserApiConfig ls in
  let effectiveBotToken := orDefault (userToken userConfig) DEFAULT_BOT_TOKEN in
  let effectiveMainChatId := orDefault (userChatId userConfig) DEFAULT_CHAT_ID in
  let effectiveAuxChatId := Js.orNull (userAuxChatId userConfig) in
  let effectiveAuxBotToken := Js.orNull (userAuxBotToken userConfig) in
  {| MAIN_CHAT_ID := effectiveMainChatId;
     AUX_CHAT_ID := effectiveAuxChatId;
     EFFECTIVE_AUX_BOT_TOKEN := effectiveAuxBotToken;
     PRIMARY_FILE_BASE_URL :=
       "https://api.telegram.org/file/bot" +:+ effectiveBotToken |}.

End ApiConfig.

(** ** The roulette button (ui.js, [showRouletteButton])

    The button keeps its state in its [dataset].  The page holds one
    such button at a time: showing one removes the one before.  A disabled
    button receives no clicks; the removal of a used-up button, which
    follows its fade-out, is not modelled beyond that. *)






(** ** The pull-to-refresh gesture (pull-to-refresh.js, [handleTouchStart],
       [handleTouchMove], [handleTouchEnd])

    Touch positions are whole pixels.  The indicator is not drawn here.
    [handleTouchEnd] awaits the refresh action; the two assignments that
    follow the [await] run when the refresh settles, which is an event of
    its own. *)

Definition PULL_THRESHOLD : Z := 80.

Record Gesture := {
  touchStartY : Z;
  currentPullDistance : Z;
  isPulling : bool
}.

Inductive TouchEvent :=
  | TouchStart (scrollY : Z) (touches : list Z)   (* [clientY] of each touch *)
  | TouchMove (touches : list Z)
  | TouchEnd                                      (* also [touchcancel] *)
  | RefreshSettled.

Definition handleTouchStart (scrollY : Z) (touches : list Z) (g : Gesture)
  : Gesture :=
  if (scrollY =? 0) && (length touches =? 1)%nat && negb (isPulling g) then
    {| touchStartY := nth 0 touches 0; currentPullDistance := 0;
       isPulling := true |}
  else if (1 <? length touches)%nat then
    if isPulling g then
      {| touchStartY := touchStartY g;
         currentPullDistance := currentPullDistance g; isPulling := false |}
    else g
  else g.

Definition handleTouchMove (touches : list Z) (g : Gesture) : Gesture :=
  if negb (isPulling g) || negb (length touches =? 1)%nat then g
  else
    {| touchStartY := touchStartY g;
       currentPullDistance := nth 0 touches 0 - touchStartY g;
       isPulling := isPulling g |}.

(** The lines after the [await]. *)
Definition resetPull (g : Gesture) : Gesture :=
  {| touchStartY := 0; currentPullDistance := 0; isPulling := isPulling g |}.

(** [handleTouchEnd] up to its [await]; the flag tells whether the refresh
    action has been called. *)
Definition handleTouchEnd (g : Gesture) : Gesture * bool :=
  if negb (isPulling g) then (g, false)
  else
    let wasPullingAndTriggered := PULL_THRESHOLD <? currentPullDistance g in
    let g1 := {| touchStartY := touchStartY g;
                 currentPullDistance := currentPullDistance g;
                 isPulling := false |} in
    if wasPullingAndTriggered then (g1, true) else (resetPull g1, false).

Definition handleTouch (g : Gesture) (e : TouchEvent) : Gesture * bool :=
  match e with
  | TouchStart scrollY touches => (handleTouchStart scrollY touches g, false)
  | TouchMove touches => (handleTouchMove touches g, false)
  | TouchEnd => handleTouchEnd g
  | RefreshSettled => (resetPull g, false)
  end.

(** The gesture state after a sequence of touch events, and the number of
    times the refresh action has been called. *)
Fixpoint handleTouches (es : list TouchEvent) (g : Gesture) : Gesture * nat :=
  match es with
  | [] => (g, O)
  | e :: rest =>
      let '(g1, refreshed) := handleTouch g e in
      let '(g2, n) := handleTouches rest g1 in
      (g2, ((if refreshed then 1 else 0) + n)%nat)
  end.

(** ** The selected currency (ui.js, [setSelectedCurrency],
       [getSelectedCurrency], [initializeCurrencySwitch],
       [handleCurrencyChange]) *)

Definition CURRENCY_STORAGE_KEY : string := "selectedCurrency".

Record CurrencySwitch := {
  currentCurrency : string;
  switchStorage : Storage
}.

Definition setSelectedCurrency (currency : string) (sw : CurrencySwitch)
  : CurrencySwitch :=
  let currency1 :=
    if negb (bool_decide (currency = "CUP"))
       && negb (bool_decide (currency = "MLC"))
    then "CUP" else currency in
  if negb (bool_decide (currency1 = currentCurrency sw)) then
    {| currentCurrency := currency1;
       switchStorage :=
         withItems (insert CURRENCY_STORAGE_KEY currency1) (switchStorage sw) |}
  else sw.

Definition getSelectedCurrency (sw : CurrencySwitch) : string :=
  currentCurrency sw.

Definition initializeCurrencySwitch (sw : CurrencySwitch) : CurrencySwitch :=
  let savedCurrency := items (switchStorage sw) !! CURRENCY_STORAGE_KEY in
  if bool_decide (savedCurrency = Some "MLC")
  then {| currentCurrency := "MLC"; switchStorage := switchStorage sw |}
  else {| currentCurrency := "CUP"; switchStorage := switchStorage sw |}.

Definition handleCurrencyChange (newCurrency : option string)
  (sw : CurrencySwitch) : CurrencySwitch :=
  if bool_decide (newCurrency = Some "CUP")
     || bool_decide (newCurrency = Some "MLC")
  then match newCurrency with
       | Some c => setSelectedCurrency c sw
       | None => sw
       end
  else sw.

(** What reaches the switch after [initializeCurrencySwitch]: the shopper
    flips it, or another tab reports a change. *)
Inductive CurrencyEvent :=
  | SwitchChanged (checked : bool)
  | CurrencyChanged (newCurrency : option string).

Definition currencyStep (sw : CurrencySwitch) (e : CurrencyEvent)
  : CurrencySwitch :=
  match e with
  | SwitchChanged checked =>
      setSelectedCurrency (if checked then "MLC" else "CUP") sw
  | CurrencyChanged newCurrency => handleCurrencyChange newCurrency sw
  end.

Definition currencySession (es : list CurrencyEvent) (sw : CurrencySwitch)
  : CurrencySwitch :=
  fold_left currencyStep es (initializeCurrencySwitch sw).

(** * Vocabulary of the properties *)

(** The number a price token carries. *)
Definition priceOf (m : PriceMatch) : option Q :=
  parseFloat (replaceComma (numberText m)).

(** The last price token of [ms] that names [cur]. *)
Definition lastMatch (cur : Currency) (ms : list PriceMatch)
  : option PriceMatch :=
  last (List.filter (fun m => bool_decide (currency m = cur)) ms).

(** The last [n] elements of [l], by reversal. *)
Definition lastN {A} (n : nat) (l : list A) : list A :=
  reverse (take n (reverse l)).

Definition mkEntry (text : option string) (type : EntryType) (sender : string)
  (timestamp : Z) (imageUrl : option string) : ChatEntry :=
  {| entryText := Js.orNull text; entryType := type; entrySender := sender;
     entryTimestamp := timestamp; entryImageUrl := Js.orNull imageUrl |}.

(** The guard of [addMessageToChat]. *)
Definition stores (type : EntryType) (save : bool) (storageKey : string) : bool :=
  save && negb (bool_decide (type = System))
  && negb (bool_decide (type = Error)) && negb (Js.isEmpty storageKey).

(** The chat a channel is bound to. *)
Definition boundChat (cfg : Config) (botType : BotType) : option string :=
  match botType with
  | Primary => Some (MAIN_CHAT_ID cfg)
  | Auxiliary => AUX_CHAT_ID cfg
  end.

(** The guards of the control commands, in the order the loop tries them. *)
Definition isControlText (text : option string) : bool :=
  bool_decide (text = Some "*ELIMINAR.M*")
  || textStartsWith text "*PANEL SUPERIOR*"
  || textStartsWith text "*NOTIFICACION*"
  || textStartsWith text "*RULETA*"
  || textStartsWith text "*TARJETA*"
  || bool_decide (text = Some "*TARJETA.E*")
  || textStartsWith text "*ELIMINAR.PRODUCTO*".

(** [*RULETA*attempts*hour*code*] with numeric attempts, an hour of the day
    and a code. *)
Definition wellFormedRoulette (t : string) : bool :=
  let tp := commandParts t in
  bool_decide (length tp = 4%nat)
  && bool_decide (Js.toUpperCase (nth 0 tp "") = "RULETA")
  && Js.allDigits (nth 1 tp "") && Js.allDigits (nth 2 tp "")
  && negb (Js.isEmpty (nth 3 tp ""))
  && (Js.parseInt (nth 2 tp "") <=? 23)%N.

(** [*ELIMINAR.PRODUCTO*id*] with a numeric id. *)
Definition wellFormedDelete (t : string) : bool :=
  let parts := commandParts t in
  bool_decide (length parts = 2%nat)
  && bool_decide (Js.toUpperCase (nth 0 parts "") = "ELIMINAR.PRODUCTO")
  && Js.allDigits (nth 1 parts "").

(** A text that opens with the prefix of a control command whose arguments
    the loop then rejects. *)
Definition malformedControl (t : string) : bool :=
  (Js.startsWith t "*NOTIFICACION*"
   && Js.isEmpty (remainder "*NOTIFICACION*" (Some t)))
  || (Js.startsWith t "*RULETA*" && negb (wellFormedRoulette t))
  || (Js.startsWith t "*TARJETA*"
      && negb (Js.cardNumberLike (remainder "*TARJETA*" (Some t))))
  || (Js.startsWith t "*ELIMINAR.PRODUCTO*" && negb (wellFormedDelete t)).


(** Sample configuration, file service and messages. *)
Definition shopConfig : Config :=
  {| MAIN_CHAT_ID := "908553770"; AUX_CHAT_ID := Some "5550001";
     EFFECTIVE_AUX_BOT_TOKEN := Some "42:AUX";
     PRIMARY_FILE_BASE_URL := "https://api.telegram.org/file/bot7:MAIN" |}.

Definition noFile : string -> bool -> option string := fun _ _ => None.

Definition textMessage (chat senderName : string) (ts : Z) (t : string)
  : Message :=
  {| fromFirstName := Some senderName; fromUsername := None; chatId := chat;
     date := ts; messageText := Some t; caption := None; photo := None |}.

Definition textUpdate (n : Z) (chat senderName : string) (ts : Z) (t : string)
  : Update :=
  {| update_id := n; message := Some (textMessage chat senderName ts t) |}.

Definition carameloText : string := "*DULCES*42*Caramelo*Rico*10,50 CUP 2 MLC*".

Definition carameloCommand : ProductCommand :=
  {| cmdId := "42"; cmdName := "Caramelo"; cmdDescription := "Rico";
     cmdPriceCUP := Some (21 # 2)%Q; cmdPriceMLC := Some (2 # 1)%Q |}.

(** A record for product 42 that shows a picture. *)
Definition oldCaramelo : ProductData :=
  {| name := "Caramelo viejo"; description := "Sin datos";
     priceCUP := Some (9 # 1)%Q; priceMLC := None;
     imageUrl := Some "https://api.telegram.org/file/bot7:MAIN/photos/c.jpg" |}.

Definition stateWithCaramelo : State :=
  {| localStorage := withProductData (insert "42" oldCaramelo) emptyStorage;
     productGrid := [createProductCardElement "42" oldCaramelo];
     chatHistory := []; lastPrimaryUpdateId := 0; lastAuxiliaryUpdateId := 0;
     events := [] |}.

Definition cardIds (grid : list Card) : list string := cardId <$> grid.

(** The ids ["1"; ...; "n"]. *)
Definition denseIds (n : nat) : list string :=
  (fun i => pretty (i + 1)%nat) <$> seq 0 n.

(** The card [c] under another id. *)
Definition relabel (newId : string) (c : Card) : Card :=
  {| cardId := newId; cardName := cardName c;
     cardDescription := cardDescription c; cardImage := cardImage c |}.

(** The migration [renumberProducts] records for a card at position
    [index] whose id is out of sequence. *)
Definition renumbering (ls : Storage) (index : nat) (c : Card) : Renumbering :=
  {| oldId := cardId c; newId := pretty (index + 1)%nat;
     oldData := default (scrapedData c) (loadProductData (cardId c) ls) |}.

(** A store whose product records are exactly [records]. *)
Definition withRecords (records : gmap string ProductData) (ls : Storage)
  : Storage :=
  withProductData (fun _ => records) ls.

Definition sampleData (n : string) : ProductData :=
  {| name := n; description := "Dulce"; priceCUP := Some (5 # 1)%Q;
     priceMLC := None; imageUrl := None |}.

(** Two products with the ids 1 and 5, then a delete command for the
    absent id 9, all from the primary chat. *)
Definition gapBatch : list Update :=
  [textUpdate 1 "908553770" "Ana" 1700000000 "*DULCES*1*Mani*Tostado*5 CUP*";
   textUpdate 2 "908553770" "Ana" 1700000060 "*DULCES*5*Coco*Rallado*7 CUP*";
   textUpdate 3 "908553770" "Ana" 1700000120 "*ELIMINAR.PRODUCTO*9*"].

Definition twoRecords : Storage :=
  withRecords (<["1" := sampleData "Mani"]> (<["5" := sampleData "Coco"]> ∅))
    emptyStorage.

Definition twoCards : list Card :=
  [createProductCardElement "1" (sampleData "Mani");
   createProductCardElement "5" (sampleData "Coco")].

(** ** Vocabulary of the poll loops *)

(** The guard at the head of a fetch function passes. *)
Definition polling (cfg : Config) (botType : BotType) (rt : Runtime) : bool :=
  match botType with
  | Primary => handleTruthy (primaryUpdateInterval rt)
  | Auxiliary =>
      handleTruthy (auxiliaryUpdateInterval rt)
      && Js.truthy (EFFECTIVE_AUX_BOT_TOKEN cfg)
      && Js.truthy (AUX_CHAT_ID cfg)
  end.

(** The pending timers other than the one the channel's handle names. *)
Definition otherTimeouts (botType : BotType) (rt : Runtime) : list Timeout :=
  match interval botType rt with
  | HTimer id =>
      List.filter (fun t => negb (bool_decide (timeoutId t = id)))
        (pendingTimeouts rt)
  | _ => pendingTimeouts rt
  end.

(** Timer ids are handed out in increasing order. *)
Definition timersFresh (rt : Runtime) : Prop :=
  Forall (fun t => (timeoutId t < nextTimeoutId rt)%positive)
    (pendingTimeouts rt).

(** The request a fetch sends from [rt]. *)
Definition requestFrom (botType : BotType) (rt : Runtime) : GetUpdatesRequest :=
  {| offset := lastUpdateId botType (app rt) + 1; timeout := 50;
     allowed_updates := ["message"] |}.

(** The states a channel goes through while it fetches the given batches
    one after the other, the first state included. *)
Fixpoint pollTrace (cfg : Config) (getFile : string -> bool -> option string)
  (botType : BotType) (batches : list (list Update)) (rt : Runtime)
  : list Runtime :=
  match batches with
  | [] => [rt]
  | batch :: rest =>
      rt :: pollTrace cfg getFile botType rest
              (fetchUpdates cfg getFile botType (Result batch) rt)
  end.

(** The runtime just after [startPrimaryPolling] marked the loop as
    starting. *)
Definition startedRuntime : Runtime :=
  {| app := initialState; primaryUpdateInterval := HTrue;
     auxiliaryUpdateInterval := HNull; pendingTimeouts := [];
     nextTimeoutId := 1; sent := [] |}.

(** A list of update ids in ascending order. *)
Definition ascending (ids : list Z) : Prop := StronglySorted Z.le ids.

(** The update ids of a sequence of batches, in the order received. *)
Definition idsOf (batches : list (list Update)) : list Z :=
  update_id <$> concat batches.

(** Three successive answers of the feed: two updates, none, one. *)
Definition sampleBatches : list (list Update) :=
  [[textUpdate 5 "908553770" "Ana" 1700000000 "hola";
    textUpdate 6 "908553770" "Ana" 1700000030 "*PANEL SUPERIOR* Ofertas"];
   [];
   [textUpdate 9 "908553770" "Ana" 1700000090 "adios"]].

(** A batch with a ticker command from a chat the primary channel is not
    bound to, between two messages of the bound chat. *)
Definition spoofedUpdate : Update :=
  textUpdate 2 "666000" "Eve" 1700000010 "*PANEL SUPERIOR* Todo gratis".

(** No product record and no card carries the empty string for an image. *)
Definition imagesShown (st : State) : Prop :=
  map_Forall (fun _ p => imageUrl p <> Some "") (productData (localStorage st))
  /\ Forall (fun c => cardImage c <> Some "") (productGrid st).

(** ** Vocabulary of the catalog invariants *)

(** The card [c] displays the record [d]. *)
Definition cardShows (c : Card) (d : ProductData) : Prop :=
  cardName c = name d
  /\ cardDescription c = description d
  /\ cardImage c = Js.orNull (imageUrl d).

(** Grid and store describe the same catalog: card ids are distinct, every
    record belongs to a card, and every card displays the record stored
    under its id. *)
Definition consistent (store : gmap string ProductData) (grid : list Card)
  : Prop :=
  NoDup (cardIds grid)
  /\ (forall k, is_Some (store !! k) -> k ∈ cardIds grid)
  /\ (forall c, c ∈ grid ->
        exists d, store !! cardId c = Some d /\ cardShows c d).

Definition catalogConsistent (st : State) : Prop :=
  consistent (productData (localStorage st)) (productGrid st).

(** Numeric ids in ascending numeric order. *)
Definition orderedIds (ids : list string) : Prop :=
  Forall (fun i => Js.allDigits i = true) ids
  /\ StronglySorted (fun a b => (Js.parseInt a <= Js.parseInt b)%N) ids.

(** The cards carry numeric ids and stand in ascending numeric order. *)
Definition ordered (grid : list Card) : Prop := orderedIds (cardIds grid).

(** ** Vocabulary of the chat and trigger invariants *)

(** The history kept in the store is the last 200 entries of the history
    held in memory (an absent stored history counting as empty). *)
Definition chatSynced (cfg : Config) (st : State) : Prop :=
  default [] (histories (localStorage st) !! LOCAL_STORAGE_KEY cfg)
  = lastN 200 (chatHistory st).

(** What a trigger handed to the page must satisfy. *)
Definition triggerOk (e : Event) : Prop :=
  match e with
  | ShowRouletteButton attempts winHour code =>
      Js.allDigits attempts = true /\ (winHour <= 23)%N /\ code <> ""
  | ShowNotification notificationText => notificationText <> ""
  | _ => True
  end.

(** The events a piece of the dispatcher adds: the old list stays a prefix,
    and the triggers among the new events are well formed. *)
Definition extends (st st' : State) : Prop :=
  exists new, events st' = events st ++ new /\ Forall triggerOk new.

(** ** Vocabulary of the timer invariant *)

(** The pending timers that will call the fetch function of a channel. *)
Definition timersOf (botType : BotType) (rt : Runtime) : list Timeout :=
  List.filter (fun t => bool_decide (callback t = botType))
    (pendingTimeouts rt).

(** Every pending timer is the one its channel's handle names, timer ids
    are distinct, and none of them has been handed out twice. *)
Definition timersOwned (rt : Runtime) : Prop :=
  timersFresh rt
  /\ NoDup (timeoutId <$> pendingTimeouts rt)
  /\ (forall t, t ∈ pendingTimeouts rt ->
        interval (callback t) rt = HTimer (timeoutId t)).

(** No pending timer will call the fetch function of the channel. *)
Definition noTimer (botType : BotType) (rt : Runtime) : Prop :=
  forall t, t ∈ pendingTimeouts rt -> callback t <> botType.

(** A runtime in the middle of polling both channels. *)
Definition busyRuntime : Runtime :=
  {| app := initialState; primaryUpdateInterval := HTimer 4;
     auxiliaryUpdateInterval := HTimer 7;
     pendingTimeouts :=
       [{| timeoutId := 4; callback := Primary; delay := 100 |};
        {| timeoutId := 7; callback := Auxiliary; delay := 100 |}];
     nextTimeoutId := 8; sent := [] |}.

(** A timer expires and its request fails, the user pulls to refresh, the
    page unloads, and a stale timer id is reported. *)
Definition sampleEvents : list PageEvent :=
  [TimerExpires 4 Throws;
   PullToRefresh true true (Result []) NullResult;
   TimerExpires 9 (Result []);
   BeforeUnload;
   TimerExpires 4 (Result [])].

(** ** Vocabulary of the cart properties *)

Definition itemIds (items : list CartItem) : list string := itemId <$> items.





Definition maniCart : Cart :=
  {| cartItems := [{| itemId := "1"; itemName := "Mani";
                      itemPrice := (5 # 1)%Q; itemQuantity := 3 |};
                   {| itemId := "2"; itemName := "Coco";
                      itemPrice := (7 # 1)%Q; itemQuantity := 2 |}];
     cartCurrency := Some CUP;
     storedCart := Some [{| itemId := "1"; itemName := "Mani";
                            itemPrice := (5 # 1)%Q; itemQuantity := 3 |};
                         {| itemId := "2"; itemName := "Coco";
                            itemPrice := (7 # 1)%Q; itemQuantity := 2 |}] |}.

(** ** Vocabulary of the form checks *)

(** A mobile number without its leading plus sign, if it has one. *)
Definition withoutPlus (movil : string) : string :=
  match movil with
  | String "+" rest => rest
  | _ => movil
  end.

(** ** Vocabulary of the settings properties *)

(** A field left empty counts as not set. *)
Definition nonEmpty (s : string) : option string :=
  if Js.isEmpty s then None else Some s.

(** The configuration the four fields of the settings form stand for. *)
Definition enteredConfig (botTokenInput chatIdInput settingsAuxChatIdInput
  settingsAuxBotTokenInput : string) : Config :=
  {| MAIN_CHAT_ID := Js.trim chatIdInput;
     AUX_CHAT_ID := nonEmpty (Js.trim settingsAuxChatIdInput);
     EFFECTIVE_AUX_BOT_TOKEN := nonEmpty (Js.trim settingsAuxBotTokenInput);
     PRIMARY_FILE_BASE_URL :=
       "https://api.telegram.org/file/bot" +:+ Js.trim botTokenInput |}.

(** The configuration used when nothing is stored. *)
Definition defaultConfig (defaultBotToken : string) : Config :=
  {| MAIN_CHAT_ID := DEFAULT_CHAT_ID; AUX_CHAT_ID := None;
     EFFECTIVE_AUX_BOT_TOKEN := None;
     PRIMARY_FILE_BASE_URL :=
       "https://api.telegram.org/file/bot" +:+ defaultBotToken |}.

(** ** Vocabulary of the gesture properties *)

(** A touch start that can begin a pull: one finger, page at the top. *)
Definition beginsPull (e : TouchEvent) : bool :=
  match e with
  | TouchStart scrollY touches => (scrollY =? 0) && (length touches =? 1)%nat
  | _ => false
  end.

(** One-finger moves through the given positions. *)
Definition movesThrough (ys : list Z) : list TouchEvent :=
  (fun y => TouchMove [y]) <$> ys.

(** No pull in progress. *)
Definition idleGesture : Gesture :=
  {| touchStartY := 0; currentPullDistance := 0; isPulling := false |}.

(** ** Vocabulary of the chat entries and the cursors *)

(** What an entry of the chat history looks like: a received message with
    a text or an image, neither of them the empty string. *)
Definition entryOk (e : ChatEntry) : Prop :=
  entryType e = Received
  /\ entryText e <> Some ""
  /\ entryImageUrl e <> Some ""
  /\ (entryText e <> None \/ entryImageUrl e <> None).

(** No entry is followed by an equal one. *)
Definition noRepeat (h : list ChatEntry) : Prop :=
  forall i a b, h !! i = Some a -> h !! S i = Some b -> a <> b.

Definition historyOk (h : list ChatEntry) : Prop :=
  Forall entryOk h /\ noRepeat h.

Definition otherChannel (botType : BotType) : BotType :=
  match botType with
  | Primary => Auxiliary
  | Auxiliary => Primary
  end.

(** ** Vocabulary of the currency switch *)

(** The selected currency is the one a reload would select. *)
Definition currencyKept (sw : CurrencySwitch) : Prop :=
  (currentCurrency sw = "MLC"
   /\ items (switchStorage sw) !! CURRENCY_STORAGE_KEY = Some "MLC")
  \/ (currentCurrency sw = "CUP"
      /\ items (switchStorage sw) !! CURRENCY_STORAGE_KEY <> Some "MLC").

(** ** Vocabulary of the parsed command *)

(** The string holds no asterisk. *)
Definition noStar (s : string) : Prop :=
  Js.allChars (fun c => negb (bool_decide (c = "*"%char))) s = true.

(** An absent price, or one that is not negative. *)
Definition priceOk (p : option Q) : Prop :=
  match p with
  | Some q => (0 <= q)%Q
  | None => True
  end.

(** * Properties *)

(** ** The product command grammar *)

Lemma span_head p s c r :
  fst (Js.span p s) = String c r -> p c = true.
Proof.
  destruct s as [|a s]; simpl; [discriminate|].
  destruct (p a) eqn:Hp; [|discriminate].
  destruct (Js.span p s); simpl. intros [= <- _]. exact Hp.
Qed.

Lemma isDigit_not_comma c : Js.isDigit c = true -> c <> ","%char.
Proof. intros H ->. vm_compute in H. discriminate. Qed.

Lemma parseFloat_digit_head c rest :
  Js.isDigit c = true -> is_Some (parseFloat (String c rest)).
Proof.
  intros Hc. unfold parseFloat; simpl. rewrite Hc.
  destruct (Js.span Js.isDigit rest) as [a b]; simpl. eauto.
Qed.

Lemma matchPriceAt_number s m :
  matchPriceAt s = Some m -> is_Some (priceOf m).
Proof.
  unfold matchPriceAt, priceOf.
  destruct (Js.span Js.isDigit s) as [d1 r1] eqn:Hs.
  destruct d1 as [|c d1]; simpl; [discriminate|].
  destruct (takeSeparator r1) as [sep r2].
  destruct (Js.span Js.isDigit r2) as [d2 r3].
  destruct (Js.span Js.isWhiteSpace r3) as [ws r4].
  destruct (currencyAt r4); [|discriminate].
  intros [= <-]; simpl.
  assert (Hc : Js.isDigit c = true).
  { apply (span_head Js.isDigit s c d1). now rewrite Hs. }
  rewrite bool_decide_eq_false_2 by now apply isDigit_not_comma.
  now apply parseFloat_digit_head.
Qed.

Lemma execFrom_number s : forall skip m,
  m ∈ execFrom skip s -> is_Some (priceOf m).
Proof.
  induction s as [|c s IH]; intros skip m; simpl.
  - intros H. inversion H.
  - destruct skip as [|k]; [|apply IH].
    destruct (matchPriceAt (String c s)) as [m'|] eqn:Hm; [|apply IH].
    intros [->|H]%elem_of_cons; [|eapply IH, H].
    eapply matchPriceAt_number, Hm.
Qed.

Lemma lastMatch_snoc cur ms m :
  lastMatch cur (ms ++ [m]) =
  if bool_decide (currency m = cur) then Some m else lastMatch cur ms.
Proof.
  unfold lastMatch. rewrite List.filter_app; simpl.
  destruct (bool_decide (currency m = cur)).
  - apply last_snoc.
  - now rewrite app_nil_r.
Qed.

(** The price loop keeps, for each currency, the value of the last token
    that names it. *)
Lemma recordPrice_last ms :
  (forall m, m ∈ ms -> is_Some (priceOf m)) ->
  fold_left recordPrice ms (None, None) =
  (lastMatch CUP ms ≫= priceOf, lastMatch MLC ms ≫= priceOf).
Proof.
  induction ms as [|m ms IH] using rev_ind; intros Hall; [reflexivity|].
  rewrite fold_left_app; simpl. rewrite IH.
  2:{ intros x Hx. apply Hall, elem_of_app. now left. }
  rewrite !lastMatch_snoc.
  destruct (Hall m) as [q Hq]; [apply elem_of_app; right; constructor|].
  unfold recordPrice. fold (priceOf m). rewrite Hq.
  destruct (currency m); simpl; now rewrite ?Hq.
Qed.

Lemma parseProductCommand_prices text cmd :
  parseProductCommand text = Some cmd ->
  cmdPriceCUP cmd = lastMatch CUP (execAll (priceStringOf text)) ≫= priceOf
  /\ cmdPriceMLC cmd = lastMatch MLC (execAll (priceStringOf text)) ≫= priceOf.
Proof.
  unfold parseProductCommand, priceStringOf.
  destruct (negb (Js.startsWith text "*DULCES*")); [discriminate|].
  destruct (_ || _); [discriminate|].
  destruct (negb (Js.allDigits _)); [discriminate|].
  rewrite recordPrice_last by (intros m; apply execFrom_number).
  destruct (lastMatch CUP _ ≫= priceOf) eqn:H1;
    destruct (lastMatch MLC _ ≫= priceOf) eqn:H2;
    intros [= <-]; simpl; auto.
Qed.

Lemma parseProductCommand_no_price text :
  execAll (priceStringOf text) = [] -> parseProductCommand text = None.
Proof.
  unfold parseProductCommand, priceStringOf. intros ->; simpl.
  destruct (negb (Js.startsWith text "*DULCES*")); [reflexivity|].
  destruct (_ || _); [reflexivity|].
  now destruct (negb (Js.allDigits _)).
Qed.

(** C5.  The text [*DULCES*42*Caramelo*Rico*10,50 CUP 2 MLC*] parses to the
    product command with id 42, name Caramelo, description Rico, CUP price
    10.50 (= 21/2) and MLC price 2.  For any text that parses, each price is
    the value of the last price token naming its currency (every token
    carries a number); and a price segment without any currency-tagged
    price token makes the parser return no command. *)
Theorem parseProductCommand_spec :
  parseProductCommand "*DULCES*42*Caramelo*Rico*10,50 CUP 2 MLC*"
  = Some {| cmdId := "42"; cmdName := "Caramelo"; cmdDescription := "Rico";
            cmdPriceCUP := Some (21 # 2)%Q; cmdPriceMLC := Some (2 # 1)%Q |}
  /\ (forall text cmd,
        parseProductCommand text = Some cmd ->
        cmdPriceCUP cmd =
          lastMatch CUP (execAll (priceStringOf text)) ≫= priceOf
        /\ cmdPriceMLC cmd =
          lastMatch MLC (execAll (priceStringOf text)) ≫= priceOf)
  /\ (forall priceString m,
        m ∈ execAll priceString -> is_Some (priceOf m))
  /\ (forall text,
        execAll (priceStringOf text) = [] -> parseProductCommand text = None).
Proof.
  split; [vm_compute; reflexivity|].
  split; [exact parseProductCommand_prices|].
  split; [|exact parseProductCommand_no_price].
  intros priceString m. apply execFrom_number.
Qed.

(** Two CUP tokens: the later one (7) is kept; and a segment with a bare
    number is rejected. *)
Lemma parseProductCommand_spec_witness :
  (exists cmd,
     parseProductCommand "*DULCES*3*Mani*Tostado*5 CUP 1,25 MLC 7 cup*" = Some cmd
     /\ cmdPriceCUP cmd = Some (7 # 1)%Q /\ cmdPriceMLC cmd = Some (5 # 4)%Q)
  /\ parseProductCommand "*DULCES*3*Mani*Tostado*gratis 5*" = None.
Proof.
  destruct parseProductCommand_spec as (_ & Hlast & _ & Hnone).
  split.
  - eexists. split; [vm_compute; reflexivity|].
    pose proof (Hlast "*DULCES*3*Mani*Tostado*5 CUP 1,25 MLC 7 cup*" _
                  ltac:(vm_compute; reflexivity)) as [H1 H2].
    vm_compute in H1, H2. vm_compute. split; reflexivity.
  - apply Hnone. vm_compute. reflexivity.
Defined.

(** ** Chat history *)

Lemma lastN_drop {A} n (l : list A) : lastN n l = drop (length l - n) l.
Proof. unfold lastN. now rewrite take_reverse, reverse_involutive. Qed.

Lemma saveChatHistory_saved key history ls :
  histories (snd (saveChatHistory key history ls)) !! key
  = Some (lastN maxStoredMessages history).
Proof.
  unfold saveChatHistory; simpl. rewrite lookup_insert_eq, lastN_drop. f_equal.
  destruct (Nat.ltb_spec maxStoredMessages (length history)) as [H|H];
    [reflexivity|].
  replace (length history - maxStoredMessages)%nat with 0%nat by lia.
  reflexivity.
Qed.

(** C9.  Whatever array is handed to [saveChatHistory], the array persisted
    under the key is the last 200 entries of it, hence at most 200 entries
    long; the array handed in is the same after the call, and nothing else
    in the store changes. *)
Theorem saveChatHistory_persists_last_200 key (history : list ChatEntry) ls :
  let after := saveChatHistory key history ls in
  histories (snd after) !! key = Some (lastN 200 history)
  /\ (length (lastN 200 history) <= 200)%nat
  /\ fst after = history
  /\ items (snd after) = items ls
  /\ productData (snd after) = productData ls
  /\ (forall k, k <> key -> histories (snd after) !! k = histories ls !! k).
Proof.
  simpl. split; [apply saveChatHistory_saved|].
  split.
  { unfold lastN. rewrite length_reverse, length_take. lia. }
  repeat split. intros k Hk. simpl. now rewrite lookup_insert_ne.
Qed.

Lemma addMessageToChat_skip text type sender ts img save h key ls :
  stores type save key = false ->
  addMessageToChat text type sender ts img save h key ls = (h, ls).
Proof. unfold stores, addMessageToChat. now intros ->. Qed.

Lemma addMessageToChat_duplicate text type sender ts img save h key ls :
  last h = Some (mkEntry text type sender ts img) ->
  addMessageToChat text type sender ts img save h key ls = (h, ls).
Proof.
  intros Hl. unfold addMessageToChat. fold (stores type save key).
  destruct (stores type save key); [|reflexivity].
  rewrite Hl; simpl. now rewrite !bool_decide_eq_true_2 by reflexivity.
Qed.

Lemma addMessageToChat_fresh text type sender ts img save h key ls :
  stores type save key = true ->
  last h <> Some (mkEntry text type sender ts img) ->
  addMessageToChat text type sender ts img save h key ls
  = saveChatHistory key (h ++ [mkEntry text type sender ts img]) ls.
Proof.
  unfold stores, addMessageToChat. intros -> Hl.
  destruct (last h) as [[t y s z i]|] eqn:E; simpl; [|reflexivity].
  destruct (bool_decide (z = ts)) eqn:Hz; simpl; [|reflexivity].
  destruct (bool_decide (s = sender)) eqn:Hs; simpl; [|reflexivity].
  destruct (bool_decide (y = type)) eqn:Hy; simpl; [|reflexivity].
  destruct (bool_decide (t = Js.orNull text)) eqn:Ht; simpl; [|reflexivity].
  destruct (bool_decide (i = Js.orNull img)) eqn:Hi; simpl; [|reflexivity].
  apply bool_decide_eq_true_1 in Hz, Hs, Hy, Ht, Hi. subst.
  now destruct Hl.
Qed.

(** C7.  Appending the same entry twice in succession leaves exactly what
    appending it once leaves (in memory and in the store); an entry equal to
    the last one of the history is not appended; and when the entry is one
    that is stored and differs from the last one, the history after both
    calls is the old history followed by that single entry. *)
Theorem addMessageToChat_twice text type sender ts img save
  (h : list ChatEntry) key ls :
  let once := addMessageToChat text type sender ts img save h key ls in
  let twice :=
    addMessageToChat text type sender ts img save (fst once) key (snd once) in
  twice = once
  /\ (last h = Some (mkEntry text type sender ts img) -> once = (h, ls))
  /\ (stores type save key = true ->
      last h <> Some (mkEntry text type sender ts img) ->
      fst twice = h ++ [mkEntry text type sender ts img]
      /\ histories (snd twice) !! key
         = Some (lastN 200 (h ++ [mkEntry text type sender ts img]))).
Proof.
  simpl.
  assert (Hfresh : stores type save key = true ->
                   last h <> Some (mkEntry text type sender ts img) ->
                   addMessageToChat text type sender ts img save
                     (fst (addMessageToChat text type sender ts img save h key ls))
                     key
                     (snd (addMessageToChat text type sender ts img save h key ls))
                   = saveChatHistory key (h ++ [mkEntry text type sender ts img]) ls).
  { intros Hs Hl.
    rewrite (addMessageToChat_fresh text type sender ts img save h key ls Hs Hl).
    unfold saveChatHistory at 2 3. cbn [fst snd].
    rewrite addMessageToChat_duplicate by apply last_snoc. reflexivity. }
  split; [|split].
  - destruct (stores type save key) eqn:Hs.
    + destruct (decide (last h = Some (mkEntry text type sender ts img)))
        as [Hl|Hl].
      * rewrite (addMessageToChat_duplicate text type sender ts img save h key
                   ls Hl); simpl.
        apply addMessageToChat_duplicate, Hl.
      * rewrite (Hfresh eq_refl Hl).
        now rewrite (addMessageToChat_fresh text type sender ts img save h key
                       ls Hs Hl).
    + rewrite (addMessageToChat_skip text type sender ts img save h key ls Hs);
        simpl.
      apply addMessageToChat_skip, Hs.
  - apply addMessageToChat_duplicate.
  - intros Hs Hl. rewrite (Hfresh Hs Hl). split; [reflexivity|].
    apply saveChatHistory_saved.
Qed.

Lemma addMessageToChat_twice_witness :
  let e := {| entryText := Some "hola"; entryType := Received;
              entrySender := "Ana"; entryTimestamp := 1700000000;
              entryImageUrl := None |} in
  let once := addMessageToChat (Some "hola") Received "Ana" 1700000000 None
                true [] "telegramChatHistory_1" emptyStorage in
  let twice := addMessageToChat (Some "hola") Received "Ana" 1700000000 None
                 true (fst once) "telegramChatHistory_1" (snd once) in
  fst twice = [e]
  /\ histories (snd twice) !! "telegramChatHistory_1" = Some [e].
Proof.
  exact (proj2 (proj2 (addMessageToChat_twice (Some "hola") Received "Ana"
                         1700000000 None true [] "telegramChatHistory_1"
                         emptyStorage))
           eq_refl ltac:(discriminate)).
Defined.

(** C10.  A call with type [system] or [error], or with [save = false],
    returns the history array and the store exactly as it received them; and
    any call either changes nothing or appends one entry whose type is
    [sent] or [received]. *)
Theorem addMessageToChat_ignores_system_and_error text type sender ts img save
  (h : list ChatEntry) key ls :
  addMessageToChat text System sender ts img save h key ls = (h, ls)
  /\ addMessageToChat text Error sender ts img save h key ls = (h, ls)
  /\ addMessageToChat text type sender ts img false h key ls = (h, ls)
  /\ (let after := addMessageToChat text type sender ts img save h key ls in
      after = (h, ls)
      \/ (fst after = h ++ [mkEntry text type sender ts img]
          /\ histories (snd after) !! key
             = Some (lastN 200 (h ++ [mkEntry text type sender ts img]))
          /\ (type = Sent \/ type = Received) /\ save = true)).
Proof.
  repeat split.
  - apply addMessageToChat_skip. unfold stores. now destruct save.
  - apply addMessageToChat_skip. unfold stores. now destruct save.
  - cbv zeta.
    destruct (stores type save key) eqn:Hs;
      [|left; now apply addMessageToChat_skip].
    destruct (decide (last h = Some (mkEntry text type sender ts img)))
      as [Hl|Hl]; [left; now apply addMessageToChat_duplicate|].
    right. rewrite (addMessageToChat_fresh text type sender ts img save h key
                      ls Hs Hl).
    split; [reflexivity|]. split; [apply saveChatHistory_saved|].
    unfold stores in Hs. destruct save, type; try discriminate; auto.
Qed.

(** ** The dispatcher *)

Section DispatchFacts.

Variable cfg : Config.
Variable getFile : string -> bool -> option string.

Lemma setLastUpdateId_twice botType a b st :
  setLastUpdateId botType a (setLastUpdateId botType b st)
  = setLastUpdateId botType a st.
Proof. now destruct botType. Qed.

Lemma processUpdate_foreign botType st u m :
  message u = Some m ->
  Some (chatId m) <> boundChat cfg botType ->
  processUpdate cfg getFile botType st u
  = setLastUpdateId botType (update_id u) st.
Proof.
  intros Hm Hc. unfold processUpdate. rewrite Hm.
  destruct botType; simpl in *.
  - rewrite bool_decide_eq_false_2; [reflexivity|congruence].
  - now rewrite bool_decide_eq_false_2.
Qed.

Lemma processUpdate_bound botType st u m :
  message u = Some m ->
  Some (chatId m) = boundChat cfg botType ->
  processUpdate cfg getFile botType st u
  = dispatchMessage cfg getFile botType m
      (setLastUpdateId botType (update_id u) st).
Proof.
  intros Hm Hc. unfold processUpdate. rewrite Hm.
  destruct botType; simpl in *.
  - rewrite bool_decide_eq_true_2; [reflexivity|congruence].
  - now rewrite bool_decide_eq_true_2.
Qed.

(** Each update overwrites the cursor first, so the cursor the state came
    with does not matter. *)
Lemma processUpdate_forgets_cursor botType n st u :
  processUpdate cfg getFile botType (setLastUpdateId botType n st) u
  = processUpdate cfg getFile botType st u.
Proof. unfold processUpdate. now rewrite setLastUpdateId_twice. Qed.

Lemma processUpdates_app l1 l2 botType st :
  processUpdates cfg getFile (l1 ++ l2) botType st
  = processUpdates cfg getFile l2 botType
      (processUpdates cfg getFile l1 botType st).
Proof. apply fold_left_app. Qed.

Lemma processUpdates_forgets_cursor botType n st us :
  us <> [] ->
  processUpdates cfg getFile us botType (setLastUpdateId botType n st)
  = processUpdates cfg getFile us botType st.
Proof.
  destruct us as [|u us]; [congruence|]. intros _.
  unfold processUpdates; simpl. now rewrite processUpdate_forgets_cursor.
Qed.

Lemma processUpdates_cons u us botType st :
  processUpdates cfg getFile (u :: us) botType st
  = processUpdates cfg getFile us botType
      (processUpdate cfg getFile botType st u).
Proof. reflexivity. Qed.

(** C3.  An update whose message comes from a chat other than the one bound
    to the channel that fetched it leaves the whole state exactly as the
    same batch does when that update arrives without its message.  Compared
    with the batch from which the update is removed altogether, the store
    (product records, ticker, payment card, saved history), the product
    grid, the chat history and the list of shown notifications, roulette
    triggers and log lines are the same, and so is the whole state when
    further updates follow in the batch; when the update is the last one,
    the only difference is the channel's own cursor, which is set to the
    update's id. *)
Theorem foreign_chat_update_is_inert botType (before after : list Update)
  u m st :
  message u = Some m ->
  Some (chatId m) <> boundChat cfg botType ->
  let with_u := processUpdates cfg getFile (before ++ u :: after) botType st in
  let without := processUpdates cfg getFile (before ++ after) botType st in
  with_u
  = processUpdates cfg getFile
      (before ++ {| update_id := update_id u; message := None |} :: after)
      botType st
  /\ localStorage with_u = localStorage without
  /\ productGrid with_u = productGrid without
  /\ chatHistory with_u = chatHistory without
  /\ events with_u = events without
  /\ (after <> [] -> with_u = without)
  /\ (after = [] -> with_u = setLastUpdateId botType (update_id u) without).
Proof.
  intros Hm Hc. cbv zeta.
  assert (E : processUpdates cfg getFile (before ++ u :: after) botType st
            = processUpdates cfg getFile after botType
                (setLastUpdateId botType (update_id u)
                   (processUpdates cfg getFile before botType st))).
  { rewrite processUpdates_app, processUpdates_cons.
    now rewrite (processUpdate_foreign _ _ _ _ Hm Hc). }
  split.
  { rewrite E. now rewrite processUpdates_app, processUpdates_cons. }
  rewrite E, (processUpdates_app before after).
  destruct after as [|u' after'].
  - change (processUpdates cfg getFile [] botType ?s) with s.
    set (s := processUpdates cfg getFile before botType st).
    do 4 (split; [now destruct botType|]).
    split; [congruence|reflexivity].
  - rewrite processUpdates_forgets_cursor by discriminate.
    do 4 (split; [reflexivity|]). split; [reflexivity|discriminate].
Qed.

End DispatchFacts.

(** *** Command prefixes exclude one another *)

Lemma startsWith_head2 a b p t :
  Js.startsWith t (String a (String b p)) = true ->
  exists t', t = String a (String b t').
Proof.
  unfold Js.startsWith. destruct t as [|c [|d t]]; simpl.
  - discriminate.
  - destruct (ascii_dec a c); discriminate.
  - destruct (ascii_dec a c) as [->|]; [|discriminate].
    destruct (ascii_dec b d) as [->|]; [|discriminate]. eauto.
Qed.

Ltac head2 H :=
  let t' := fresh "t" in
  destruct (startsWith_head2 _ _ _ _ H) as [t' ->].

Lemma notificacion_guards t :
  Js.startsWith t "*NOTIFICACION*" = true ->
  bool_decide (Some t = Some "*ELIMINAR.M*") = false
  /\ Js.startsWith t "*PANEL SUPERIOR*" = false.
Proof. intros H. head2 H. split; reflexivity. Qed.

Lemma ruleta_guards t :
  Js.startsWith t "*RULETA*" = true ->
  bool_decide (Some t = Some "*ELIMINAR.M*") = false
  /\ Js.startsWith t "*PANEL SUPERIOR*" = false
  /\ Js.startsWith t "*NOTIFICACION*" = false.
Proof. intros H. head2 H. repeat split; reflexivity. Qed.

Lemma tarjeta_guards t :
  Js.startsWith t "*TARJETA*" = true ->
  bool_decide (Some t = Some "*ELIMINAR.M*") = false
  /\ Js.startsWith t "*PANEL SUPERIOR*" = false
  /\ Js.startsWith t "*NOTIFICACION*" = false
  /\ Js.startsWith t "*RULETA*" = false.
Proof. intros H. head2 H. repeat split; reflexivity. Qed.

Lemma eliminar_producto_guards t :
  Js.startsWith t "*ELIMINAR.PRODUCTO*" = true ->
  bool_decide (Some t = Some "*ELIMINAR.M*") = false
  /\ Js.startsWith t "*PANEL SUPERIOR*" = false
  /\ Js.startsWith t "*NOTIFICACION*" = false
  /\ Js.startsWith t "*RULETA*" = false
  /\ Js.startsWith t "*TARJETA*" = false
  /\ bool_decide (Some t = Some "*TARJETA.E*") = false.
Proof.
  intros H. head2 H. repeat split; try reflexivity.
  apply bool_decide_eq_false_2. intros [= ->]. vm_compute in H. discriminate.
Qed.

Lemma dulces_is_not_control t :
  Js.startsWith t "*DULCES*" = true -> isControlText (Some t) = false.
Proof. intros H. head2 H. reflexivity. Qed.

Lemma parseProductCommand_starts text d :
  parseProductCommand text = Some d -> Js.startsWith text "*DULCES*" = true.
Proof.
  unfold parseProductCommand.
  destruct (Js.startsWith text "*DULCES*"); [reflexivity|discriminate].
Qed.

Lemma parseProductCommand_id text d :
  parseProductCommand text = Some d -> Js.allDigits (cmdId d) = true.
Proof.
  unfold parseProductCommand.
  destruct (negb (Js.startsWith text "*DULCES*")); [discriminate|].
  destruct (_ || _); [discriminate|].
  destruct (Js.allDigits (nth 1 (trimmedParts text) "")) eqn:Hid;
    [|discriminate].
  simpl. destruct (fold_left _ _ _) as [[c|] [l|]]; intros [= <-]; exact Hid.
Qed.

Section ControlAndPlainText.

Variable cfg : Config.
Variable getFile : string -> bool -> option string.

Lemma dispatchMessage_not_control botType m st :
  isControlText (messageText m) = false ->
  dispatchMessage cfg getFile botType m st
  = productOrChat cfg getFile botType m st.
Proof.
  unfold isControlText, dispatchMessage. intros H.
  repeat match type of H with
         | _ || _ = false => apply orb_false_elim in H; destruct H as [H ?]
         end.
  cbv zeta. repeat match goal with E : _ = false |- _ => rewrite E; clear E end.
  reflexivity.
Qed.

Lemma logCallbackOf_plain botType msg type st :
  logCallbackOf botType msg type None st
  = logSystemMessage msg type (logPrefixOf botType) st.
Proof. now destruct botType. Qed.

(** A malformed control command costs one warning and nothing else. *)
Lemma dispatchMessage_malformed botType m t st :
  messageText m = Some t ->
  malformedControl t = true ->
  exists msg,
    dispatchMessage cfg getFile botType m st
    = logSystemMessage msg Warn (logPrefixOf botType) st.
Proof.
  intros Ht. unfold malformedControl, dispatchMessage. cbv zeta.
  rewrite Ht. unfold textStartsWith. intros H.
  repeat match type of H with
         | _ || _ = true => apply orb_true_elim in H; destruct H as [H|H]
         end;
    apply andb_true_iff in H; destruct H as [Hp Hbad].
  - destruct (notificacion_guards t Hp) as (-> & ->). rewrite Hp, Hbad; simpl.
    rewrite logCallbackOf_plain. eauto.
  - destruct (ruleta_guards t Hp) as (-> & -> & ->). rewrite Hp.
    unfold wellFormedRoulette in Hbad. cbv zeta in Hbad.
    simpl (textOf (Some t)).
    destruct (bool_decide (length (commandParts t) = 4%nat)
              && bool_decide (Js.toUpperCase (nth 0 (commandParts t) "") = "RULETA")
              && Js.allDigits (nth 1 (commandParts t) "")
              && Js.allDigits (nth 2 (commandParts t) "")
              && negb (Js.isEmpty (nth 3 (commandParts t) ""))) eqn:Hfmt.
    + simpl in Hbad. apply negb_true_iff in Hbad. rewrite Hbad.
      rewrite andb_false_r, logCallbackOf_plain. eauto.
    + rewrite logCallbackOf_plain. eauto.
  - destruct (tarjeta_guards t Hp) as (-> & -> & -> & ->). rewrite Hp.
    apply negb_true_iff in Hbad. rewrite Hbad, logCallbackOf_plain. eauto.
  - destruct (eliminar_producto_guards t Hp) as (-> & -> & -> & -> & -> & ->).
    rewrite Hp. unfold wellFormedDelete in Hbad. cbv zeta in Hbad.
    apply negb_true_iff in Hbad. simpl (textOf (Some t)).
    rewrite Hbad, logCallbackOf_plain. eauto.
Qed.

(** A text that is no control command and no product command, with no
    photo, is a chat message: stored on the primary channel, ignored on the
    auxiliary one. *)
Lemma dispatchMessage_plain botType m t st :
  messageText m = Some t ->
  isControlText (Some t) = false ->
  Js.truthy (caption m) = false ->
  nonEmptyPhotos (photo m) = None ->
  parseProductCommand t = None ->
  Some (chatId m) = boundChat cfg botType ->
  dispatchMessage cfg getFile botType m st
  = match botType with
    | Primary =>
        if Js.isEmpty t then st
        else setChat
               (addMessageToChat (Some t) Received (senderNameOf m) (date m)
                  None true (chatHistory st) (LOCAL_STORAGE_KEY cfg)
                  (localStorage st)) st
    | Auxiliary => st
    end.
Proof.
  intros Ht Hc Hcap Hph Hparse Hchat.
  rewrite dispatchMessage_not_control by now rewrite Ht.
  unfold productOrChat. cbv zeta. rewrite Ht.
  replace (Js.orElse (caption m) (Some t)) with (Some t)
    by (unfold Js.orElse; now rewrite Hcap).
  simpl (textOf (Some t)). rewrite Hparse.
  assert (Hnone : (if Js.truthy (Some t) then None else None)
                  = @None ProductCommand) by now destruct (Js.truthy (Some t)).
  rewrite Hnone. unfold handleChatMessage. rewrite Hph, Ht.
  destruct botType; simpl in *; [|reflexivity].
  injection Hchat as ->. rewrite bool_decide_eq_true_2 by reflexivity.
  destruct t; reflexivity.
Qed.

(** C2 (amended).  For a message from the chat bound to its channel: a text
    that opens with [*NOTIFICACION*], [*RULETA*], [*TARJETA*] or
    [*ELIMINAR.PRODUCTO*] and is malformed is answered by one warning in the
    log and changes nothing else, so it never reaches the chat history.  Any
    other text that matches no control command and does not parse as a
    product command (whether or not it starts with an asterisk) is a plain
    message: the primary channel appends it to the chat history through
    [addMessageToChat] and logs nothing; the auxiliary channel ignores
    it. *)
Theorem star_text_dispatch botType st u m t :
  message u = Some m ->
  Some (chatId m) = boundChat cfg botType ->
  messageText m = Some t ->
  let st0 := setLastUpdateId botType (update_id u) st in
  let st' := processUpdate cfg getFile botType st u in
  (malformedControl t = true ->
   exists msg, st' = logSystemMessage msg Warn (logPrefixOf botType) st0)
  /\ (isControlText (Some t) = false ->
      Js.truthy (caption m) = false ->
      nonEmptyPhotos (photo m) = None ->
      parseProductCommand t = None ->
      t <> "" ->
      st' = match botType with
            | Primary =>
                setChat
                  (addMessageToChat (Some t) Received (senderNameOf m) (date m)
                     None true (chatHistory st0) (LOCAL_STORAGE_KEY cfg)
                     (localStorage st0)) st0
            | Auxiliary => st0
            end).
Proof.
  intros Hm Hchat Ht. cbv zeta.
  rewrite (processUpdate_bound cfg getFile botType st u m Hm Hchat).
  split.
  - intros Hbad. now apply dispatchMessage_malformed with (t := t).
  - intros Hc Hcap Hph Hparse Hne.
    rewrite (dispatchMessage_plain botType m t _ Ht Hc Hcap Hph Hparse Hchat).
    destruct botType; [|reflexivity]. now destruct t.
Qed.

End ControlAndPlainText.

Lemma foreign_chat_update_is_inert_witness :
  processUpdates shopConfig noFile
    ([textUpdate 1 "908553770" "Ana" 1700000000 "hola"]
     ++ spoofedUpdate :: [textUpdate 3 "908553770" "Ana" 1700000020 "adios"])
    Primary initialState
  = processUpdates shopConfig noFile
      ([textUpdate 1 "908553770" "Ana" 1700000000 "hola"]
       ++ [textUpdate 3 "908553770" "Ana" 1700000020 "adios"])
      Primary initialState.
Proof.
  refine (proj1 (proj2 (proj2 (proj2 (proj2 (proj2
            (foreign_chat_update_is_inert shopConfig noFile Primary
               [textUpdate 1 "908553770" "Ana" 1700000000 "hola"]
               [textUpdate 3 "908553770" "Ana" 1700000020 "adios"]
               spoofedUpdate _ initialState eq_refl _)))))) _);
    discriminate.
Defined.

(** An invalid roulette hour is answered by a warning only. *)
Lemma star_text_dispatch_witness :
  exists msg,
    processUpdate shopConfig noFile Primary initialState
      (textUpdate 8 "908553770" "Ana" 1700000000 "*RULETA*3*25*WIN123*")
    = logSystemMessage msg Warn "Sistema (Primario)"
        (setLastUpdateId Primary 8 initialState).
Proof.
  exact (proj1 (star_text_dispatch shopConfig noFile Primary initialState
                  (textUpdate 8 "908553770" "Ana" 1700000000
                     "*RULETA*3*25*WIN123*")
                  _ "*RULETA*3*25*WIN123*" eq_refl eq_refl eq_refl)
           eq_refl).
Defined.

(** C2, as stated, fails: [*hola*] and the malformed [*DULCES*x*] start with
    an asterisk and match no command form, yet the primary channel stores
    each of them in the chat history and logs no warning. *)
Lemma unmatched_star_text_is_stored :
  let entry t := {| entryText := Some t; entryType := Received;
                    entrySender := "Ana"; entryTimestamp := 1700000000;
                    entryImageUrl := None |} in
  let run t := processUpdate shopConfig noFile Primary initialState
                 (textUpdate 7 "908553770" "Ana" 1700000000 t) in
  (Js.startsWith "*hola*" "*" = true
   /\ isControlText (Some "*hola*") = false
   /\ parseProductCommand "*hola*" = None
   /\ chatHistory (run "*hola*") = [entry "*hola*"]
   /\ histories (localStorage (run "*hola*")) !! LOCAL_STORAGE_KEY shopConfig
      = Some [entry "*hola*"]
   /\ events (run "*hola*") = [])
  /\ (Js.startsWith "*DULCES*x*" "*DULCES*" = true
      /\ parseProductCommand "*DULCES*x*" = None
      /\ chatHistory (run "*DULCES*x*") = [entry "*DULCES*x*"]
      /\ events (run "*DULCES*x*") = []).
Proof. vm_compute. repeat split. Qed.

(** ** Product upserts *)


Lemma allDigits_nonempty s : Js.allDigits s = true -> Js.isEmpty s = false.
Proof. now destruct s. Qed.

Section Upsert.

Variable cfg : Config.
Variable getFile : string -> bool -> option string.



End Upsert.


(** ** Deleting and renumbering products *)

Lemma renumberCards_ids ls cards : forall index,
  cardIds (snd (renumberCards ls index cards))
  = (fun i => pretty (i + 1)%nat) <$> seq index (length cards).
Proof.
  induction cards as [|c cards IH]; intros index; [reflexivity|].
  simpl. specialize (IH (S index)).
  destruct (renumberCards ls (S index) cards) as [updates cards'].
  simpl in IH. destruct (bool_decide (cardId c = pretty (index + 1)%nat)) eqn:E.
  - simpl. apply bool_decide_eq_true_1 in E. now rewrite E, IH.
  - simpl. now rewrite IH.
Qed.

Lemma renumberCards_length ls cards : forall index,
  length (snd (renumberCards ls index cards)) = length cards.
Proof.
  intros index.
  rewrite <- (length_fmap cardId).
  fold (cardIds (snd (renumberCards ls index cards))).
  now rewrite renumberCards_ids, length_fmap, length_seq.
Qed.

Lemma renumberProducts_grid ls grid :
  snd (renumberProducts ls grid) = snd (renumberCards ls 0 grid).
Proof.
  unfold renumberProducts. destruct grid as [|c grid]; [reflexivity|].
  destruct (renumberCards ls 0 (c :: grid)) as [[|u updates] cards'];
    reflexivity.
Qed.

(** After [renumberProducts] the cards carry the ids 1..N in grid order. *)
Lemma renumberProducts_dense ls grid :
  cardIds (snd (renumberProducts ls grid)) = denseIds (length grid)
  /\ length (snd (renumberProducts ls grid)) = length grid.
Proof.
  rewrite renumberProducts_grid. split.
  - apply renumberCards_ids.
  - apply renumberCards_length.
Qed.

Lemma deleteProduct_dense productId ls grid :
  hasCard productId grid = true \/ is_Some (productData ls !! productId) ->
  cardIds (snd (deleteProduct productId ls grid))
  = denseIds (length (snd (deleteProduct productId ls grid))).
Proof.
  intros H. unfold deleteProduct.
  destruct (hasCard productId grid).
  - destruct (renumberProducts_dense
                (withProductData (delete productId) ls)
                (removeCard productId grid)) as [-> ->]. reflexivity.
  - destruct H as [H|[d Hd]]; [discriminate|]. rewrite Hd.
    destruct (renumberProducts_dense
                (withProductData (delete productId) ls) grid) as [-> ->].
    reflexivity.
Qed.

Lemma deleteProduct_absent productId ls grid :
  hasCard productId grid = false ->
  productData ls !! productId = None ->
  deleteProduct productId ls grid = (ls, grid).
Proof. unfold deleteProduct. now intros -> ->. Qed.

(** *** The store after a migration *)

Section Migration.

Implicit Types (updates : list Renumbering) (m saved : gmap string ProductData).

Let write m (u : Renumbering) := <[newId u := oldData u]> m.
Let remove saved m (u : Renumbering) :=
  match saved !! oldId u with
  | Some _ => m
  | None => delete (oldId u) m
  end.

Lemma write_notin updates : forall m x,
  x ∉ newId <$> updates -> fold_left write updates m !! x = m !! x.
Proof.
  induction updates as [|u updates IH]; intros m x Hx; [reflexivity|].
  simpl in *. apply not_elem_of_cons in Hx as [Hne Hx].
  rewrite IH by assumption. unfold write. now rewrite lookup_insert_ne.
Qed.

Lemma write_in updates : forall m u,
  NoDup (newId <$> updates) -> u ∈ updates ->
  fold_left write updates m !! newId u = Some (oldData u).
Proof.
  induction updates as [|v updates IH]; intros m u Hnd Hu.
  - inversion Hu.
  - simpl in *. apply NoDup_cons in Hnd as [Hv Hnd].
    apply elem_of_cons in Hu as [->|Hu].
    + rewrite write_notin by assumption. unfold write. apply lookup_insert_eq.
    + now apply IH.
Qed.

Lemma remove_none saved updates : forall m x,
  m !! x = None -> fold_left (remove saved) updates m !! x = None.
Proof.
  induction updates as [|u updates IH]; intros m x Hx; [exact Hx|].
  simpl. apply IH. unfold remove. destruct (saved !! oldId u); [exact Hx|].
  destruct (decide (oldId u = x)) as [->|Hne].
  - apply lookup_delete_eq.
  - now rewrite lookup_delete_ne.
Qed.

Lemma remove_gone saved updates : forall m x,
  x ∈ oldId <$> updates -> saved !! x = None ->
  fold_left (remove saved) updates m !! x = None.
Proof.
  induction updates as [|u updates IH]; intros m x Hx Hs.
  - inversion Hx.
  - simpl in *. apply elem_of_cons in Hx as [->|Hx].
    + apply remove_none. unfold remove. rewrite Hs. apply lookup_delete_eq.
    + now apply IH.
Qed.

Lemma remove_keep saved updates : forall m x,
  x ∉ oldId <$> updates ->
  fold_left (remove saved) updates m !! x = m !! x.
Proof.
  induction updates as [|u updates IH]; intros m x Hx; [reflexivity|].
  simpl in *. apply not_elem_of_cons in Hx as [Hne Hx].
  rewrite IH by assumption. unfold remove.
  destruct (saved !! oldId u); [reflexivity|]. now rewrite lookup_delete_ne.
Qed.

Lemma migrate_new updates m u :
  NoDup (newId <$> updates) -> u ∈ updates ->
  migrate updates m !! newId u = Some (oldData u).
Proof. intros. unfold migrate. now apply write_in. Qed.

Lemma migrate_old updates m x :
  x ∉ newId <$> updates -> x ∈ oldId <$> updates ->
  migrate updates m !! x = None.
Proof.
  intros Hn Ho. unfold migrate. rewrite write_notin by assumption.
  apply remove_gone; [assumption|]. now rewrite write_notin.
Qed.

Lemma migrate_other updates m x :
  x ∉ newId <$> updates -> x ∉ oldId <$> updates ->
  migrate updates m !! x = m !! x.
Proof.
  intros Hn Ho. unfold migrate. rewrite write_notin by assumption.
  now apply remove_keep.
Qed.

End Migration.

(** *** Which migrations phase 1 records *)

Lemma renumberCards_in ls cards : forall index u,
  u ∈ fst (renumberCards ls index cards) ->
  exists j c, cards !! j = Some c
              /\ cardId c <> pretty (index + j + 1)%nat
              /\ u = renumbering ls (index + j) c.
Proof.
  induction cards as [|c cards IH]; intros index u; simpl.
  - intros H. inversion H.
  - specialize (IH (S index) u).
    destruct (renumberCards ls (S index) cards) as [updates cards'].
    simpl in IH.
    assert (Htail : u ∈ updates ->
                    exists j c0, (c :: cards) !! j = Some c0
                                 /\ cardId c0 <> pretty (index + j + 1)%nat
                                 /\ u = renumbering ls (index + j) c0).
    { intros Hu. destruct (IH Hu) as (j & c0 & Hj & Hne & ->).
      exists (S j), c0. replace (index + S j)%nat with (S index + j)%nat by lia.
      auto. }
    destruct (bool_decide (cardId c = pretty (index + 1)%nat)) eqn:E; simpl.
    + exact Htail.
    + intros [->|Hu]%elem_of_cons; [|auto].
      apply bool_decide_eq_false_1 in E.
      exists 0%nat, c. rewrite !Nat.add_0_r. unfold renumbering, loadProductData.
      split; [reflexivity|]. split; [exact E|].
      now destruct (productData ls !! cardId c).
Qed.

Lemma renumberCards_mem ls cards : forall index j c,
  cards !! j = Some c ->
  cardId c <> pretty (index + j + 1)%nat ->
  renumbering ls (index + j) c ∈ fst (renumberCards ls index cards).
Proof.
  induction cards as [|c0 cards IH]; intros index j c Hj Hne; [inversion Hj|].
  simpl. specialize (IH (S index)).
  destruct (renumberCards ls (S index) cards) as [updates cards'].
  simpl in IH.
  destruct j as [|j].
  - injection Hj as ->. rewrite Nat.add_0_r in *.
    rewrite bool_decide_eq_false_2 by exact Hne. simpl.
    unfold renumbering, loadProductData.
    destruct (productData ls !! cardId c); apply list_elem_of_here.
  - assert (Hin : renumbering ls (index + S j) c ∈ updates).
    { replace (index + S j)%nat with (S (index + j))%nat by lia.
      apply IH; [exact Hj|].
      now replace (S (index + j + 1))%nat with (index + S j + 1)%nat by lia. }
    destruct (bool_decide (cardId c0 = pretty (index + 1)%nat)); simpl;
      [exact Hin|now apply list_elem_of_further].
Qed.

Lemma renumberCards_newIds_from ls cards index x :
  x ∈ newId <$> fst (renumberCards ls index cards) ->
  exists j, (j < length cards)%nat /\ x = pretty (index + j + 1)%nat.
Proof.
  intros (u & -> & Hu)%list_elem_of_fmap.
  destruct (renumberCards_in ls cards index u Hu) as (j & c & Hj & _ & ->).
  exists j. split; [now apply lookup_lt_Some in Hj|reflexivity].
Qed.

Lemma renumberCards_NoDup ls cards : forall index,
  NoDup (newId <$> fst (renumberCards ls index cards)).
Proof.
  induction cards as [|c cards IH]; intros index; simpl; [constructor|].
  pose proof (IH (S index)) as Hnd.
  pose proof (renumberCards_newIds_from ls cards (S index)) as Hfrom.
  destruct (renumberCards ls (S index) cards) as [updates cards'].
  simpl in *.
  destruct (bool_decide (cardId c = pretty (index + 1)%nat)); simpl;
    [exact Hnd|].
  constructor; [|exact Hnd].
  intros Hin. destruct (Hfrom _ Hin) as (j & _ & Heq).
  apply (inj pretty) in Heq. lia.
Qed.

Lemma renumberProducts_store ls grid :
  productData (fst (renumberProducts ls grid))
  = migrate (fst (renumberCards ls 0 grid)) (productData ls).
Proof.
  unfold renumberProducts. destruct grid as [|c grid]; [reflexivity|].
  destruct (renumberCards ls 0 (c :: grid)) as [[|u updates] cards'];
    reflexivity.
Qed.

Lemma renumberCards_cards ls cards : forall index j,
  snd (renumberCards ls index cards) !! j
  = relabel (pretty (index + j + 1)%nat) <$> cards !! j.
Proof.
  induction cards as [|c cards IH]; intros index j; [reflexivity|].
  simpl. specialize (IH (S index)).
  destruct (renumberCards ls (S index) cards) as [updates cards'].
  simpl in IH.
  assert (Hhead : forall c', cardId c' = pretty (index + 1)%nat ->
                    cardName c' = cardName c ->
                    cardDescription c' = cardDescription c ->
                    cardImage c' = cardImage c ->
                    (c' :: cards') !! j
                    = relabel (pretty (index + j + 1)%nat) <$> (c :: cards) !! j).
  { intros c' H1 H2 H3 H4. destruct j as [|j]; simpl.
    - rewrite Nat.add_0_r. unfold relabel. destruct c'; simpl in *. congruence.
    - rewrite IH. now replace (S (index + j + 1))%nat
                     with (index + S j + 1)%nat by lia. }
  destruct (bool_decide (cardId c = pretty (index + 1)%nat)) eqn:E; simpl.
  - apply bool_decide_eq_true_1 in E. now apply Hhead.
  - now apply Hhead.
Qed.

(** A card's record follows it to its new id. *)
Lemma renumberProducts_record ls grid j c d :
  NoDup (cardIds grid) ->
  grid !! j = Some c ->
  productData ls !! cardId c = Some d ->
  productData (fst (renumberProducts ls grid)) !! pretty (j + 1)%nat = Some d.
Proof.
  intros Hnd Hj Hd. rewrite renumberProducts_store.
  destruct (decide (cardId c = pretty (j + 1)%nat)) as [Heq|Hne].
  - rewrite migrate_other; [now rewrite <- Heq| |].
    + intros (u & Hx & Hu)%list_elem_of_fmap.
      destruct (renumberCards_in ls grid 0 u Hu) as (j' & c' & Hj' & Hne' & ->).
      simpl in *. apply (inj pretty) in Hx.
      assert (j' = j) as -> by lia. congruence.
    + intros (u & Hx & Hu)%list_elem_of_fmap.
      destruct (renumberCards_in ls grid 0 u Hu) as (j' & c' & Hj' & Hne' & ->).
      simpl in *.
      assert (j = j').
      { eapply (NoDup_lookup (cardIds grid)); [exact Hnd| |];
          unfold cardIds; rewrite list_lookup_fmap.
        - now rewrite Hj.
        - rewrite Hj'. simpl. congruence. }
      subst j'. congruence.
  - pose proof (renumberCards_mem ls grid 0 j c Hj Hne) as Hin.
    pose proof (migrate_new _ (productData ls) _
                  (renumberCards_NoDup ls grid 0) Hin) as Hm.
    simpl in Hm. rewrite Hm. unfold loadProductData. now rewrite Hd.
Qed.

(** Outside the ids 1..N only records of ids that no card used survive. *)
Lemma renumberProducts_other ls grid x :
  x ∉ denseIds (length grid) ->
  productData (fst (renumberProducts ls grid)) !! x
  = if decide (x ∈ cardIds grid) then None else productData ls !! x.
Proof.
  intros Hx. rewrite renumberProducts_store.
  assert (Hnew : x ∉ newId <$> fst (renumberCards ls 0 grid)).
  { intros Hin. apply Hx.
    destruct (renumberCards_newIds_from ls grid 0 x Hin) as (j & Hlt & ->).
    unfold denseIds. apply list_elem_of_fmap. exists j. split; [reflexivity|].
    apply elem_of_seq. lia. }
  destruct (decide (x ∈ cardIds grid)) as [Hin|Hout].
  - apply migrate_old; [exact Hnew|].
    apply list_elem_of_fmap in Hin as (c & -> & Hc).
    apply list_elem_of_lookup in Hc as [j Hj].
    apply list_elem_of_fmap. exists (renumbering ls (0 + j) c).
    split; [reflexivity|]. apply renumberCards_mem; [exact Hj|].
    intros Heq. apply Hx. rewrite Heq. unfold denseIds.
    apply list_elem_of_fmap. exists j. split; [reflexivity|].
    apply elem_of_seq. apply lookup_lt_Some in Hj. lia.
  - apply migrate_other; [exact Hnew|].
    intros (u & -> & Hu)%list_elem_of_fmap. apply Hout.
    destruct (renumberCards_in ls grid 0 u Hu) as (j & c & Hj & _ & ->).
    simpl. apply list_elem_of_fmap. exists c. split; [reflexivity|].
    apply list_elem_of_lookup. eauto.
Qed.

Lemma removeCard_ids productId grid :
  NoDup (cardIds grid) ->
  NoDup (cardIds (removeCard productId grid))
  /\ (productId ∉ cardIds (removeCard productId grid))
  /\ (forall x, x ∈ cardIds (removeCard productId grid) -> x ∈ cardIds grid).
Proof.
  induction grid as [|c grid IH]; simpl; intros Hnd.
  - repeat split; [constructor|intros H; inversion H|auto].
  - apply NoDup_cons in Hnd as [Hc Hnd].
    destruct (bool_decide (cardId c = productId)) eqn:E.
    + apply bool_decide_eq_true_1 in E. subst productId.
      repeat split; [exact Hnd|exact Hc|]. intros x Hx. now right.
    + apply bool_decide_eq_false_1 in E.
      destruct (IH Hnd) as (Hnd' & Hout & Hsub). simpl. repeat split.
      * constructor; [|exact Hnd']. intros Hin. apply Hc, Hsub, Hin.
      * intros [Heq|Hin]%elem_of_cons; [congruence|contradiction].
      * intros x [->|Hx]%elem_of_cons; [now left|right; auto].
Qed.

(** The catalog 1, 2, 3 of the specification, with arbitrary records and
    card contents. *)
Lemma deleteProduct_example r1 r2 r3 c1 c2 c3 ls :
  deleteProduct "2"
    (withRecords (<["1" := r1]> (<["2" := r2]> (<["3" := r3]> ∅))) ls)
    [relabel "1" c1; relabel "2" c2; relabel "3" c3]
  = (withRecords (<["1" := r1]> (<["2" := r3]> ∅)) ls,
     [relabel "1" c1; relabel "2" c3]).
Proof.
  unfold deleteProduct, renumberProducts, withRecords, withProductData.
  vm_compute. reflexivity.
Qed.

Lemma deleteProduct_records productId ls grid j c d :
  NoDup (cardIds grid) ->
  hasCard productId grid = true ->
  removeCard productId grid !! j = Some c ->
  productData ls !! cardId c = Some d ->
  productData (fst (deleteProduct productId ls grid)) !! pretty (j + 1)%nat
  = Some d
  /\ snd (deleteProduct productId ls grid) !! j
     = Some (relabel (pretty (j + 1)%nat) c).
Proof.
  intros Hnd Hhas Hj Hd. unfold deleteProduct. rewrite Hhas.
  destruct (removeCard_ids productId grid Hnd) as (Hnd' & Hout & _).
  split.
  - apply renumberProducts_record with (c := c); [exact Hnd'|exact Hj|].
    simpl. rewrite lookup_delete_ne; [exact Hd|].
    intros ->. apply Hout. apply list_elem_of_fmap. exists c.
    split; [reflexivity|]. apply list_elem_of_lookup. eauto.
  - rewrite renumberProducts_grid, renumberCards_cards, Hj. reflexivity.
Qed.

Lemma deleteProduct_no_stray productId ls grid x :
  NoDup (cardIds grid) ->
  hasCard productId grid = true ->
  (forall k, is_Some (productData ls !! k) -> k ∈ cardIds grid) ->
  is_Some (productData (fst (deleteProduct productId ls grid)) !! x) ->
  x ∈ denseIds (length (snd (deleteProduct productId ls grid))).
Proof.
  intros Hnd Hhas Hdom Hx. unfold deleteProduct in *. rewrite Hhas in *.
  destruct (renumberProducts_dense (withProductData (delete productId) ls)
              (removeCard productId grid)) as [_ ->].
  destruct (decide (x ∈ denseIds (length (removeCard productId grid))))
    as [Hin|Hout]; [exact Hin|exfalso].
  rewrite renumberProducts_other in Hx by exact Hout.
  destruct (decide (x ∈ cardIds (removeCard productId grid))) as [Hc|Hc].
  - now destruct Hx.
  - simpl in Hx. destruct (decide (x = productId)) as [->|Hne].
    + rewrite lookup_delete_eq in Hx. now destruct Hx.
    + rewrite lookup_delete_ne in Hx by congruence.
      apply Hc. apply Hdom in Hx. clear -Hx Hne.
      induction grid as [|c grid IH]; simpl in *; [inversion Hx|].
      apply elem_of_cons in Hx as [->|Hx].
      * rewrite bool_decide_eq_false_2 by congruence. now left.
      * destruct (bool_decide (cardId c = productId)); [exact Hx|].
        right. now apply IH.
Qed.

(** C6 (amended).  Deleting product 2 from the catalog 1, 2, 3 leaves the
    cards 1 and 2, the record that was stored under 3 now stored under 2 and
    no record under 3.  In general, a delete that finds the product's card
    or an orphaned record of it leaves the cards numbered 1..N in grid
    order; when the card ids were distinct, every remaining card keeps its
    contents and its stored record under its new id, and when every record
    belonged to a card no record is left outside 1..N.  A delete naming an
    id that has neither a card nor a record changes nothing. *)
Theorem deleteProduct_renumbers :
  (forall r1 r2 r3 c1 c2 c3 ls,
     deleteProduct "2"
       (withRecords (<["1" := r1]> (<["2" := r2]> (<["3" := r3]> ∅))) ls)
       [relabel "1" c1; relabel "2" c2; relabel "3" c3]
     = (withRecords (<["1" := r1]> (<["2" := r3]> ∅)) ls,
        [relabel "1" c1; relabel "2" c3]))
  /\ (forall productId ls grid,
        hasCard productId grid = true
        \/ is_Some (productData ls !! productId) ->
        cardIds (snd (deleteProduct productId ls grid))
        = denseIds (length (snd (deleteProduct productId ls grid))))
  /\ (forall productId ls grid j c d,
        NoDup (cardIds grid) ->
        hasCard productId grid = true ->
        removeCard productId grid !! j = Some c ->
        productData ls !! cardId c = Some d ->
        productData (fst (deleteProduct productId ls grid))
          !! pretty (j + 1)%nat = Some d
        /\ snd (deleteProduct productId ls grid) !! j
           = Some (relabel (pretty (j + 1)%nat) c))
  /\ (forall productId ls grid x,
        NoDup (cardIds grid) ->
        hasCard productId grid = true ->
        (forall k, is_Some (productData ls !! k) -> k ∈ cardIds grid) ->
        is_Some (productData (fst (deleteProduct productId ls grid)) !! x) ->
        x ∈ denseIds (length (snd (deleteProduct productId ls grid))))
  /\ (forall productId ls grid,
        hasCard productId grid = false ->
        productData ls !! productId = None ->
        deleteProduct productId ls grid = (ls, grid)).
Proof.
  split; [exact deleteProduct_example|].
  split; [exact deleteProduct_dense|].
  split; [exact deleteProduct_records|].
  split; [exact deleteProduct_no_stray|exact deleteProduct_absent].
Qed.

(** Deleting product 1 from the catalog 1, 5: the card 5 becomes card 1 and
    its record moves with it. *)
Lemma deleteProduct_renumbers_witness :
  cardIds (snd (deleteProduct "1" twoRecords twoCards)) = ["1"]
  /\ productData (fst (deleteProduct "1" twoRecords twoCards)) !! "1"
     = Some (sampleData "Coco").
Proof.
  destruct deleteProduct_renumbers as (_ & Hdense & Hrec & _).
  split.
  - exact (Hdense "1" twoRecords twoCards (or_introl eq_refl)).
  - refine (proj1 (Hrec "1" twoRecords twoCards 0%nat
                     (createProductCardElement "5" (sampleData "Coco"))
                     (sampleData "Coco") _ eq_refl eq_refl eq_refl)).
    apply (bool_decide_unpack (NoDup (cardIds twoCards))).
    vm_compute. exact I.
Defined.

(** C6, as stated, fails in its general part: after the products 1 and 5
    were added, the delete command for the absent product 9 completes (it is
    logged as carried out) and the ids are still 1 and 5, not 1 and 2. *)
Lemma delete_of_absent_product_leaves_gap :
  let st := processUpdates shopConfig noFile gapBatch Primary initialState in
  cardIds (productGrid st) = ["1"; "5"]
  /\ cardIds (productGrid st) <> denseIds (length (productGrid st))
  /\ is_Some (productData (localStorage st) !! "5")
  /\ productData (localStorage st) !! "2" = None
  /\ last (events st)
     = Some (LogSystemMessage (ProductDeletedBy "9" "Ana") Sys
               "Sistema (Primario)").
Proof.
  vm_compute. repeat split; [discriminate|eauto].
Qed.

(** ** The poll loops *)

Lemma filter_fresh (n : positive) (l : list Timeout) :
  Forall (fun t => (timeoutId t < n)%positive) l ->
  List.filter (fun t => negb (bool_decide (timeoutId t = n))) l = l.
Proof.
  induction 1 as [|t l Ht _ IH]; [reflexivity|]. simpl.
  rewrite bool_decide_eq_false_2 by lia. simpl. now rewrite IH.
Qed.

Lemma filter_keeps_fresh (n id : positive) (l : list Timeout) :
  Forall (fun t => (timeoutId t < n)%positive) l ->
  Forall (fun t => (timeoutId t < n)%positive)
    (List.filter (fun t => negb (bool_decide (timeoutId t = id))) l).
Proof.
  induction 1 as [|t l Ht _ IH]; simpl; [constructor|].
  destruct (negb _); [constructor|]; assumption.
Qed.

Lemma otherTimeouts_fresh botType rt :
  timersFresh rt ->
  Forall (fun t => (timeoutId t < nextTimeoutId rt)%positive)
    (otherTimeouts botType rt).
Proof.
  unfold timersFresh, otherTimeouts. intros H.
  destruct (interval botType rt); [exact H|exact H|].
  now apply filter_keeps_fresh.
Qed.

Section PollFacts.

Variable cfg : Config.
Variable getFile : string -> bool -> option string.

Lemma fetchUpdates_polling botType response rt :
  polling cfg botType rt = true ->
  fetchUpdates cfg getFile botType response rt
  = fetchBody cfg getFile botType response rt.
Proof.
  destruct botType; simpl; unfold fetchPrimaryUpdates, fetchAuxiliaryUpdates.
  - now intros ->.
  - intros H. apply andb_true_iff in H as [H H3].
    apply andb_true_iff in H as [H1 H2]. now rewrite H1, H2, H3.
Qed.

Lemma polling_interval botType rt :
  polling cfg botType rt = true -> handleTruthy (interval botType rt) = true.
Proof.
  destruct botType; simpl; [auto|].
  intros H. apply andb_true_iff in H as [H _].
  now apply andb_true_iff in H as [H _].
Qed.

(** What one call of [scheduleNextPoll] leaves when the loop is active. *)
Lemma scheduleNextPoll_active botType ms rt :
  handleTruthy (interval botType rt) = true ->
  pendingTimeouts (scheduleNextPoll botType ms rt)
  = otherTimeouts botType rt
    ++ [{| timeoutId := nextTimeoutId rt; callback := botType; delay := ms |}]
  /\ interval botType (scheduleNextPoll botType ms rt)
     = HTimer (nextTimeoutId rt)
  /\ nextTimeoutId (scheduleNextPoll botType ms rt)
     = Pos.succ (nextTimeoutId rt)
  /\ app (scheduleNextPoll botType ms rt) = app rt
  /\ sent (scheduleNextPoll botType ms rt) = sent rt.
Proof.
  unfold scheduleNextPoll, otherTimeouts. intros H. rewrite H.
  destruct botType, rt as [a p x l n s]; simpl in *.
  - destruct p; try discriminate; simpl; auto.
  - destruct x; try discriminate; simpl; auto.
Qed.

(** The [finally] block of a fetch whose failure path already scheduled the
    15 s retry: the retry is cancelled and a 100 ms poll is scheduled. *)
Lemma finally_overrides_backoff botType rt :
  handleTruthy (interval botType rt) = true ->
  timersFresh rt ->
  let rt1 := scheduleNextPoll botType 15000 rt in
  let rt2 := if handleTruthy (interval botType rt1)
             then scheduleNextPoll botType 100 rt1 else rt1 in
  pendingTimeouts rt2
  = otherTimeouts botType rt
    ++ [{| timeoutId := Pos.succ (nextTimeoutId rt); callback := botType;
           delay := 100 |}]
  /\ interval botType rt2 = HTimer (Pos.succ (nextTimeoutId rt)).
Proof.
  intros Hact Hfresh. cbv zeta.
  destruct (scheduleNextPoll_active botType 15000 rt Hact)
    as (Hp & Hi & Hn & _ & _).
  assert (Hact1 : handleTruthy
                    (interval botType (scheduleNextPoll botType 15000 rt))
                  = true) by now rewrite Hi.
  rewrite Hact1.
  destruct (scheduleNextPoll_active botType 100
              (scheduleNextPoll botType 15000 rt) Hact1)
    as (Hp2 & Hi2 & _ & _ & _).
  rewrite Hp2, Hi2, Hn. split; [|reflexivity]. f_equal.
  unfold otherTimeouts at 1. rewrite Hi, Hp, List.filter_app.
  rewrite filter_fresh by now apply otherTimeouts_fresh.
  simpl. rewrite bool_decide_eq_true_2 by reflexivity. apply app_nil_r.
Qed.

(** C1 (what the code does).  While a loop is polling, a fetch that fails,
    whether the request throws or answers [null], ends with exactly one new
    pending timer for the channel, and its delay is 100 ms: the 15000 ms
    timer the failure path sets is cleared by the [finally] block before it
    can fire.  A fetch that succeeds with an empty list also ends with one
    new timer of 100 ms. *)
Theorem fetch_always_repolls_after_100ms botType response rt :
  polling cfg botType rt = true ->
  timersFresh rt ->
  let rt' := fetchUpdates cfg getFile botType response rt in
  (response = Throws \/ response = NullResult ->
   pendingTimeouts rt'
   = otherTimeouts botType rt
     ++ [{| timeoutId := Pos.succ (nextTimeoutId rt); callback := botType;
            delay := 100 |}]
   /\ interval botType rt' = HTimer (Pos.succ (nextTimeoutId rt)))
  /\ (response = Result [] ->
      pendingTimeouts rt'
      = otherTimeouts botType rt
        ++ [{| timeoutId := nextTimeoutId rt; callback := botType;
               delay := 100 |}]
      /\ interval botType rt' = HTimer (nextTimeoutId rt)).
Proof.
  intros Hpoll Hfresh. cbv zeta. rewrite (fetchUpdates_polling _ _ _ Hpoll).
  pose proof (polling_interval _ _ Hpoll) as Hact.
  unfold fetchBody. cbv zeta. split.
  - intros [-> | ->].
    + set (rt0 := setApp _ _).
      change (otherTimeouts botType rt) with (otherTimeouts botType rt0).
      change (nextTimeoutId rt) with (nextTimeoutId rt0).
      apply finally_overrides_backoff; [now destruct botType|exact Hfresh].
    + set (rt0 := recordRequest _ _ _).
      change (otherTimeouts botType rt) with (otherTimeouts botType rt0).
      change (nextTimeoutId rt) with (nextTimeoutId rt0).
      apply finally_overrides_backoff; [now destruct botType|exact Hfresh].
  - intros ->. set (rt0 := setApp _ _).
    assert (Hact0 : handleTruthy (interval botType rt0) = true)
      by now destruct botType.
    rewrite Hact0.
    destruct (scheduleNextPoll_active botType 100 rt0 Hact0)
      as (Hp & Hi & _ & _ & _).
    rewrite Hp, Hi. split; reflexivity.
Qed.

End PollFacts.

(** Right after the loop started, a throwing request leaves one timer, of
    100 ms. *)
Lemma fetch_always_repolls_after_100ms_witness :
  pendingTimeouts
    (fetchPrimaryUpdates shopConfig noFile Throws startedRuntime)
  = [{| timeoutId := 2; callback := Primary; delay := 100 |}]
  /\ primaryUpdateInterval
       (fetchPrimaryUpdates shopConfig noFile Throws startedRuntime)
     = HTimer 2.
Proof.
  exact (proj1 (fetch_always_repolls_after_100ms shopConfig noFile Primary
                  Throws startedRuntime eq_refl (Forall_nil_2 _))
           (or_introl eq_refl)).
Defined.

(** *** The cursor *)

Section Cursor.

Variable cfg : Config.
Variable getFile : string -> bool -> option string.

(** Dispatching a message never touches a cursor. *)
Lemma dispatchMessage_cursors botType m st :
  lastPrimaryUpdateId (dispatchMessage cfg getFile botType m st)
  = lastPrimaryUpdateId st
  /\ lastAuxiliaryUpdateId (dispatchMessage cfg getFile botType m st)
     = lastAuxiliaryUpdateId st.
Proof.
  unfold dispatchMessage, productOrChat, applyProductUpdate, handleChatMessage,
    clearChat, logCallbackOf, logSystemMessage.
  cbv zeta.
  repeat match goal with
         | |- context [if ?b then _ else _] => destruct b
         | |- context [match ?o with Some _ => _ | None => _ end] => destruct o
         end; split; reflexivity.
Qed.

Lemma processUpdate_cursor botType st u :
  lastUpdateId botType (processUpdate cfg getFile botType st u) = update_id u.
Proof.
  unfold processUpdate.
  assert (H0 : lastUpdateId botType
                 (setLastUpdateId botType (update_id u) st) = update_id u)
    by now destruct botType.
  destruct (message u) as [m|]; [|exact H0].
  repeat match goal with
         | |- context [if ?b then _ else _] => destruct b
         end; try exact H0.
  destruct (dispatchMessage_cursors botType m
              (setLastUpdateId botType (update_id u) st)) as [H1 H2].
  destruct botType; simpl in *; congruence.
Qed.

Lemma processUpdates_cursor botType us : forall st,
  lastUpdateId botType (processUpdates cfg getFile us botType st)
  = default (lastUpdateId botType st) (last (update_id <$> us)).
Proof.
  induction us as [|u us IH] using rev_ind; intros st; [reflexivity|].
  rewrite processUpdates_app, fmap_app.
  change (update_id <$> [u]) with [update_id u]. rewrite last_snoc. simpl.
  unfold processUpdates at 1. simpl. apply processUpdate_cursor.
Qed.

End Cursor.

Lemma ascending_after c l1 l2 :
  ascending (c :: l1 ++ l2) ->
  c <= default c (last l1) /\ ascending (default c (last l1) :: l2).
Proof.
  unfold ascending. intros H. destruct (last l1) as [x|] eqn:E; simpl.
  - apply last_Some in E as [l' ->]. rewrite <- app_assoc in H. simpl in H.
    split.
    + apply StronglySorted_cons in H as [Hall _].
      rewrite Forall_forall in Hall. apply Hall. set_solver.
    + change (c :: l' ++ x :: l2) with ((c :: l') ++ x :: l2) in H.
      now apply StronglySorted_app_1_r in H.
  - apply last_None in E as ->. split; [lia|exact H].
Qed.

Lemma ascending_skip c l1 l2 :
  ascending (c :: l1 ++ l2) -> ascending (c :: l2).
Proof.
  unfold ascending. rewrite !StronglySorted_cons, Forall_app.
  intros [[_ H2] Hs]. split; [exact H2|].
  now apply StronglySorted_app_1_r in Hs.
Qed.

Section CursorRuns.

Variable cfg : Config.
Variable getFile : string -> bool -> option string.

Lemma fetchUpdates_idle botType response rt :
  polling cfg botType rt = false ->
  fetchUpdates cfg getFile botType response rt = rt.
Proof.
  destruct botType; simpl; unfold fetchPrimaryUpdates, fetchAuxiliaryUpdates.
  - now intros ->.
  - intros H. rewrite <- !negb_andb, H. reflexivity.
Qed.

(** A successful fetch: the request goes out with the cursor plus one, the
    batch is processed, and the loop keeps polling. *)
Lemma fetchUpdates_result botType batch rt :
  polling cfg botType rt = true ->
  app (fetchUpdates cfg getFile botType (Result batch) rt)
  = processUpdates cfg getFile batch botType (app rt)
  /\ sent (fetchUpdates cfg getFile botType (Result batch) rt)
     = sent rt ++ [(botType, requestFrom botType rt)]
  /\ polling cfg botType (fetchUpdates cfg getFile botType (Result batch) rt)
     = true.
Proof.
  intros Hpoll. rewrite (fetchUpdates_polling _ _ _ _ _ Hpoll).
  pose proof (polling_interval _ _ _ Hpoll) as Hact.
  unfold fetchBody. cbv zeta.
  set (rt1 := setApp _ _).
  assert (Hact1 : handleTruthy (interval botType rt1) = true)
    by now destruct botType.
  rewrite Hact1.
  destruct (scheduleNextPoll_active botType 100 rt1 Hact1)
    as (_ & Hi & _ & Ha & Hs).
  rewrite Ha, Hs. repeat split.
  destruct botType; simpl in *.
  - unfold scheduleNextPrimaryPoll in *. simpl in Hi.
    unfold interval in Hi. now rewrite Hi.
  - apply andb_true_iff in Hpoll as [Hpoll H3].
    apply andb_true_iff in Hpoll as [_ H2]. rewrite H2, H3.
    unfold interval in Hi. now rewrite Hi.
Qed.

Lemma pollTrace_head botType batches rt :
  pollTrace cfg getFile botType batches rt !! 0%nat = Some rt.
Proof. now destruct batches. Qed.

(** C4.  Along any sequence of successful fetches of one channel whose
    update ids, taken in the order received and preceded by the cursor the
    sequence starts from, are ascending, the channel's last seen update id
    never decreases from one fetch to the next; and while the loop is
    polling, each fetch sends one request, whose offset is the last seen
    update id plus one. *)
Theorem cursor_never_decreases botType batches : forall rt,
  ascending (lastUpdateId botType (app rt) :: idsOf batches) ->
  forall i a b,
    pollTrace cfg getFile botType batches rt !! i = Some a ->
    pollTrace cfg getFile botType batches rt !! S i = Some b ->
    lastUpdateId botType (app a) <= lastUpdateId botType (app b)
    /\ (polling cfg botType rt = true ->
        sent b = sent a ++ [(botType, requestFrom botType a)]
        /\ offset (requestFrom botType a) = lastUpdateId botType (app a) + 1).
Proof.
  induction batches as [|batch rest IH]; intros rt Hasc i a b Ha Hb.
  - destruct i; discriminate.
  - simpl in Ha, Hb. unfold idsOf in Hasc. simpl in Hasc.
    rewrite fmap_app in Hasc. fold (idsOf rest) in Hasc.
    set (rt1 := fetchUpdates cfg getFile botType (Result batch) rt) in *.
    destruct (polling cfg botType rt) eqn:Hpoll.
    + destruct (fetchUpdates_result botType batch rt Hpoll)
        as (Happ & Hsent & Hpoll1). fold rt1 in Happ, Hsent, Hpoll1.
      assert (Hcur : lastUpdateId botType (app rt1)
                     = default (lastUpdateId botType (app rt))
                         (last (update_id <$> batch))).
      { rewrite Happ. apply processUpdates_cursor. }
      destruct (ascending_after _ _ _ Hasc) as [Hle Hasc1].
      rewrite <- Hcur in Hle, Hasc1.
      destruct i as [|i].
      * injection Ha as <-. rewrite pollTrace_head in Hb. injection Hb as <-.
        split; [exact Hle|]. intros _. split; [exact Hsent|reflexivity].
      * destruct (IH rt1 Hasc1 i a b Ha Hb) as [H1 H2].
        split; [exact H1|]. intros _. now apply H2.
    + assert (Hidle : rt1 = rt) by now apply fetchUpdates_idle.
      rewrite Hidle in *. apply ascending_skip in Hasc.
      destruct i as [|i].
      * injection Ha as <-. rewrite pollTrace_head in Hb. injection Hb as <-.
        split; [lia|discriminate].
      * destruct (IH rt Hasc i a b Ha Hb) as [H1 _].
        split; [exact H1|discriminate].
Qed.

End CursorRuns.

Lemma cursor_never_decreases_witness :
  let rt1 := fetchPrimaryUpdates shopConfig noFile
               (Result [textUpdate 5 "908553770" "Ana" 1700000000 "hola";
                        textUpdate 6 "908553770" "Ana" 1700000030
                          "*PANEL SUPERIOR* Ofertas"]) startedRuntime in
  lastUpdateId Primary (app startedRuntime) <= lastUpdateId Primary (app rt1)
  /\ sent rt1 = [(Primary, {| offset := 1; timeout := 50;
                              allowed_updates := ["message"] |})].
Proof.
  assert (Hasc : ascending (lastUpdateId Primary (app startedRuntime)
                              :: idsOf sampleBatches)).
  { unfold ascending. vm_compute. repeat constructor; discriminate. }
  destruct (cursor_never_decreases shopConfig noFile Primary sampleBatches
              startedRuntime Hasc 0%nat _ _ eq_refl eq_refl) as [H1 H2].
  split; [exact H1|exact (proj1 (H2 eq_refl))].
Defined.

(** *** Stored image URLs are never empty strings *)

Lemma orNull_shown (o : option string) : Js.orNull o <> Some "".
Proof. now destruct o as [[|c s]|]. Qed.

Lemma append_slash_nonempty (a b : string) : a +:+ "/" +:+ b <> "".
Proof. destruct a; discriminate. Qed.

Lemma insertCard_images n c grid :
  cardImage c <> Some "" ->
  Forall (fun c => cardImage c <> Some "") grid ->
  Forall (fun c => cardImage c <> Some "") (insertCard n c grid).
Proof.
  intros Hc. induction 1 as [|c0 grid H0 Hg IH]; simpl.
  - now repeat constructor.
  - destruct (ltNumber n (parseIntOpt (cardId c0))); repeat constructor; auto.
Qed.

Lemma refreshCard_images productId d grid :
  Forall (fun c => cardImage c <> Some "") grid ->
  Forall (fun c => cardImage c <> Some "") (refreshCard productId d grid).
Proof.
  induction 1 as [|c0 grid H0 Hg IH]; simpl; [constructor|].
  destruct (bool_decide (cardId c0 = productId)); constructor; auto.
  apply orNull_shown.
Qed.

Lemma updateProductCard_images productId d grid :
  Forall (fun c => cardImage c <> Some "") grid ->
  Forall (fun c => cardImage c <> Some "") (updateProductCard productId d grid).
Proof.
  intros H. unfold updateProductCard. destruct (hasCard productId grid).
  - now apply refreshCard_images.
  - apply insertCard_images; [apply orNull_shown|exact H].
Qed.

Lemma removeCard_images productId grid :
  Forall (fun c => cardImage c <> Some "") grid ->
  Forall (fun c => cardImage c <> Some "") (removeCard productId grid).
Proof.
  induction 1 as [|c0 grid H0 Hg IH]; simpl; [constructor|].
  destruct (bool_decide (cardId c0 = productId)); [exact Hg|now constructor].
Qed.

Lemma renumberCards_images ls cards :
  map_Forall (fun _ p => imageUrl p <> Some "") (productData ls) ->
  Forall (fun c => cardImage c <> Some "") cards ->
  forall index,
    Forall (fun u => imageUrl (oldData u) <> Some "")
      (fst (renumberCards ls index cards))
    /\ Forall (fun c => cardImage c <> Some "")
         (snd (renumberCards ls index cards)).
Proof.
  intros Hls. induction 1 as [|c cards Hc Hcs IH]; intros index; simpl.
  - split; constructor.
  - destruct (IH (S index)) as [IH1 IH2].
    destruct (renumberCards ls (S index) cards) as [updates cards'].
    simpl in *.
    destruct (bool_decide (cardId c = pretty (index + 1)%nat)); simpl.
    + split; [exact IH1|now constructor].
    + split; constructor; auto. simpl. unfold loadProductData.
      destruct (productData ls !! cardId c) as [d|] eqn:E; [|exact Hc].
      exact (Hls _ _ E).
Qed.

Lemma migrate_images updates (m : gmap string ProductData) :
  Forall (fun u => imageUrl (oldData u) <> Some "") updates ->
  map_Forall (fun _ p => imageUrl p <> Some "") m ->
  map_Forall (fun _ p => imageUrl p <> Some "") (migrate updates m).
Proof.
  intros Hu Hm. unfold migrate.
  set (saved := fold_left _ updates ∅). clearbody saved.
  assert (Hwrite : forall m0 : gmap string ProductData,
            map_Forall (fun _ p => imageUrl p <> Some "") m0 ->
            map_Forall (fun _ p => imageUrl p <> Some "")
              (fold_left (fun m1 u => <[newId u := oldData u]> m1) updates m0)).
  { induction Hu as [|u updates Hu0 Hu IH]; intros m0 H0; [exact H0|].
    simpl. apply IH. now apply map_Forall_insert_2. }
  apply Hwrite. clear Hwrite.
  revert m Hm. induction Hu as [|u updates Hu0 Hu IH]; intros m Hm; [exact Hm|].
  simpl. apply IH. destruct (saved !! oldId u); [exact Hm|].
  now apply map_Forall_delete.
Qed.

Lemma renumberProducts_images ls grid :
  map_Forall (fun _ p => imageUrl p <> Some "") (productData ls) ->
  Forall (fun c => cardImage c <> Some "") grid ->
  map_Forall (fun _ p => imageUrl p <> Some "")
    (productData (fst (renumberProducts ls grid)))
  /\ Forall (fun c => cardImage c <> Some "") (snd (renumberProducts ls grid)).
Proof.
  intros Hls Hg. rewrite renumberProducts_store, renumberProducts_grid.
  destruct (renumberCards_images ls grid Hls Hg 0) as [H1 H2].
  split; [now apply migrate_images|exact H2].
Qed.

Lemma deleteProduct_images productId ls grid :
  map_Forall (fun _ p => imageUrl p <> Some "") (productData ls) ->
  Forall (fun c => cardImage c <> Some "") grid ->
  map_Forall (fun _ p => imageUrl p <> Some "")
    (productData (fst (deleteProduct productId ls grid)))
  /\ Forall (fun c => cardImage c <> Some "")
       (snd (deleteProduct productId ls grid)).
Proof.
  intros Hls Hg. unfold deleteProduct. destruct (hasCard productId grid).
  - apply renumberProducts_images; [now apply map_Forall_delete|].
    now apply removeCard_images.
  - destruct (productData ls !! productId); [|now split].
    apply renumberProducts_images; [now apply map_Forall_delete|exact Hg].
Qed.

Lemma addMessageToChat_productData text type sender ts img save h key ls :
  productData (snd (addMessageToChat text type sender ts img save h key ls))
  = productData ls.
Proof.
  unfold addMessageToChat, saveChatHistory.
  repeat match goal with
         | |- context [if ?b then _ else _] => destruct b
         end; reflexivity.
Qed.

Lemma imagesShown_ext st st' :
  productData (localStorage st') = productData (localStorage st) ->
  productGrid st' = productGrid st ->
  imagesShown st -> imagesShown st'.
Proof. unfold imagesShown. now intros -> ->. Qed.

Section ImageInvariant.

Variable cfg : Config.
Variable getFile : string -> bool -> option string.

Lemma productOrChat_images botType m st :
  imagesShown st -> imagesShown (productOrChat cfg getFile botType m st).
Proof.
  intros Hinv. unfold productOrChat. cbv zeta.
  destruct (if Js.truthy _ then _ else _) as [d|].
  - unfold applyProductUpdate.
    destruct (match nonEmptyPhotos (photo m) with
              | Some _ => _
              | None => _
              end) as [url st1] eqn:E.
    assert (Hst1 : imagesShown st1 /\ url <> Some "").
    { destruct (nonEmptyPhotos (photo m)) as [best|].
      - destruct (filePathOf _ _ _) as [path|]; injection E as <- <-.
        + split; [exact Hinv|]. intros [= H].
          now apply append_slash_nonempty in H.
        + split; [|discriminate]. revert Hinv. apply imagesShown_ext;
            now destruct botType.
      - injection E as <- <-. split; [exact Hinv|discriminate]. }
    destruct Hst1 as [[Hs Hg] Hurl]. cbv zeta.
    unfold imagesShown, logCallbackOf, logSystemMessage, saveProductData.
    simpl. split; [|now apply updateProductCard_images].
    destruct (Js.isEmpty (cmdId d)); [exact Hs|].
    simpl. apply map_Forall_insert_2; [|exact Hs]. simpl.
    destruct url; [exact Hurl|].
    destruct (loadProductData _ _); [apply orNull_shown|discriminate].
  - unfold handleChatMessage.
    repeat match goal with
           | |- context [if ?b then _ else _] => destruct b
           | |- context [match ?o with Some _ => _ | None => _ end] =>
               destruct o
           end;
      try exact Hinv;
      (revert Hinv; apply imagesShown_ext;
       [simpl; rewrite ?addMessageToChat_productData; now destruct botType
       |now destruct botType]).
Qed.

Lemma dispatchMessage_images botType m st :
  imagesShown st -> imagesShown (dispatchMessage cfg getFile botType m st).
Proof.
  intros Hinv. unfold dispatchMessage. cbv zeta.
  repeat match goal with
         | |- context [if ?b then _ else _] => destruct b
         end;
    try (apply productOrChat_images, Hinv);
    try (revert Hinv; apply imagesShown_ext; now destruct botType).
  destruct Hinv as [Hs Hg].
  destruct (deleteProduct_images
              (nth 1 (commandParts (textOf (messageText m))) "")
              (localStorage st) (productGrid st) Hs Hg) as [H1 H2].
  split; assumption.
Qed.

(** Every update keeps the invariant, so every record the program leaves in
    the store has an absent or a non-empty image URL. *)
Lemma processUpdate_images botType st u :
  imagesShown st -> imagesShown (processUpdate cfg getFile botType st u).
Proof.
  intros Hinv. unfold processUpdate.
  assert (H0 : imagesShown (setLastUpdateId botType (update_id u) st)).
  { revert Hinv. apply imagesShown_ext; now destruct botType. }
  destruct (message u) as [m|]; [|exact H0].
  repeat match goal with
         | |- context [if ?b then _ else _] => destruct b
         end; try exact H0.
  now apply dispatchMessage_images.
Qed.

(** X21.  No product record and no card ever carries the empty string
    for an image: a state without such images stays without them through
    any batch of updates, on either channel. *)
Lemma processUpdates_images botType us : forall st,
  imagesShown st -> imagesShown (processUpdates cfg getFile us botType st).
Proof.
  induction us as [|u us IH]; intros st Hinv; [exact Hinv|].
  rewrite processUpdates_cons. apply IH. now apply processUpdate_images.
Qed.

End ImageInvariant.

Lemma initialState_images : imagesShown initialState.
Proof. split; [apply map_Forall_empty|constructor]. Qed.

(** * Further properties of the modelled code *)

(** ** The catalog stays consistent *)

Lemma hasCard_elem productId grid :
  hasCard productId grid = true <-> productId ∈ cardIds grid.
Proof.
  unfold hasCard, cardIds. induction grid as [|c grid IH]; simpl.
  - split; [discriminate|intros H; inversion H].
  - rewrite orb_true_iff, IH, bool_decide_eq_true, elem_of_cons.
    split; intros [H|H]; auto.
Qed.

Lemma hasCard_not_elem productId grid :
  hasCard productId grid = false <-> productId ∉ cardIds grid.
Proof.
  rewrite <- hasCard_elem. destruct (hasCard productId grid); split; congruence.
Qed.

Lemma refreshCard_ids productId d grid :
  cardIds (refreshCard productId d grid) = cardIds grid.
Proof.
  unfold cardIds. induction grid as [|c grid IH]; [reflexivity|]. simpl.
  destruct (bool_decide (cardId c = productId)); csimpl; [reflexivity|].
  now rewrite IH.
Qed.

Lemma refreshCard_elem productId d grid c' :
  NoDup (cardIds grid) ->
  c' ∈ refreshCard productId d grid ->
  (cardId c' = productId /\ cardShows c' d)
  \/ (c' ∈ grid /\ cardId c' <> productId).
Proof.
  unfold cardIds. induction grid as [|c grid IH]; simpl; intros Hnd Hin.
  - inversion Hin.
  - apply NoDup_cons in Hnd as [Hc Hnd].
    destruct (bool_decide (cardId c = productId)) eqn:E.
    + apply bool_decide_eq_true_1 in E.
      apply elem_of_cons in Hin as [->|Hin].
      * left. simpl. split; [exact E|]. repeat split.
      * right. split; [now right|]. intros Heq. apply Hc.
        apply list_elem_of_fmap. exists c'. split; [congruence|exact Hin].
    + apply bool_decide_eq_false_1 in E.
      apply elem_of_cons in Hin as [->|Hin].
      * right. split; [now left|exact E].
      * destruct (IH Hnd Hin) as [H|[H1 H2]]; [now left|].
        right. split; [now right|exact H2].
Qed.

Lemma insertCard_elem n c grid c' :
  c' ∈ insertCard n c grid <-> c' = c \/ c' ∈ grid.
Proof.
  induction grid as [|c0 grid IH]; simpl.
  - rewrite list_elem_of_singleton. split; [auto|].
    intros [H|H]; [exact H|inversion H].
  - destruct (ltNumber n (parseIntOpt (cardId c0))).
    + now rewrite elem_of_cons.
    + rewrite !elem_of_cons, IH. tauto.
Qed.

Lemma insertCard_ids n c grid :
  cardIds (insertCard n c grid) ≡ₚ cardId c :: cardIds grid.
Proof.
  unfold cardIds. induction grid as [|c0 grid IH]; simpl; [reflexivity|].
  destruct (ltNumber n (parseIntOpt (cardId c0))); csimpl; [reflexivity|].
  rewrite IH. apply Permutation_swap.
Qed.

Lemma removeCard_sub productId grid c :
  c ∈ removeCard productId grid -> c ∈ grid.
Proof.
  induction grid as [|c0 grid IH]; simpl; [auto|].
  destruct (bool_decide (cardId c0 = productId)).
  - intros H. now right.
  - intros [->|H]%elem_of_cons; [now left|right; auto].
Qed.

Lemma denseIds_NoDup n : NoDup (denseIds n).
Proof.
  unfold denseIds. apply NoDup_fmap_2_strong; [|apply NoDup_seq].
  intros i j _ _ H. apply (inj pretty) in H. lia.
Qed.

Lemma cardShows_relabel newId c d : cardShows c d -> cardShows (relabel newId c) d.
Proof. exact id. Qed.

(** An upsert keeps grid and store consistent. *)
Lemma consistent_upsert productId d store grid :
  consistent store grid ->
  consistent (<[productId := d]> store) (updateProductCard productId d grid).
Proof.
  intros (Hnd & Hsub & Hshow). unfold updateProductCard.
  destruct (hasCard productId grid) eqn:Hhas.
  - apply hasCard_elem in Hhas. repeat split.
    + now rewrite refreshCard_ids.
    + intros k Hk. rewrite refreshCard_ids.
      destruct (decide (k = productId)) as [->|Hne]; [exact Hhas|].
      rewrite lookup_insert_ne in Hk by congruence. auto.
    + intros c' Hc'.
      destruct (refreshCard_elem productId d grid c' Hnd Hc')
        as [[Hid Hs]|[Hin Hne]].
      * exists d. rewrite Hid, lookup_insert_eq. auto.
      * rewrite lookup_insert_ne by congruence. auto.
  - apply hasCard_not_elem in Hhas. repeat split.
    + rewrite insertCard_ids. simpl. now constructor.
    + intros k Hk. rewrite insertCard_ids. simpl.
      destruct (decide (k = productId)) as [->|Hne]; [now left|].
      rewrite lookup_insert_ne in Hk by congruence. right. auto.
    + intros c' [->|Hin]%insertCard_elem.
      * exists d. simpl. rewrite lookup_insert_eq. split; [reflexivity|].
        repeat split.
      * rewrite lookup_insert_ne; [auto|].
        intros ->. apply Hhas. apply list_elem_of_fmap. eauto.
Qed.

(** A delete keeps grid and store consistent. *)
Lemma consistent_delete productId ls grid :
  consistent (productData ls) grid ->
  consistent (productData (fst (deleteProduct productId ls grid)))
    (snd (deleteProduct productId ls grid)).
Proof.
  intros (Hnd & Hsub & Hshow).
  destruct (hasCard productId grid) eqn:Hhas.
  - repeat split.
    + rewrite deleteProduct_dense by now left. apply denseIds_NoDup.
    + intros k Hk. rewrite deleteProduct_dense by now left.
      now apply deleteProduct_no_stray.
    + intros c' Hc'. apply list_elem_of_lookup in Hc' as [j Hj].
      assert (Hsrc : exists c, removeCard productId grid !! j = Some c).
      { unfold deleteProduct in Hj. rewrite Hhas in Hj.
        rewrite renumberProducts_grid, renumberCards_cards in Hj.
        destruct (removeCard productId grid !! j) as [c|]; [eauto|discriminate]. }
      destruct Hsrc as [c Hc].
      assert (Hin : c ∈ grid).
      { eapply removeCard_sub, list_elem_of_lookup. eauto. }
      destruct (Hshow c Hin) as (d & Hd & Hs).
      destruct (deleteProduct_records productId ls grid j c d Hnd Hhas Hc Hd)
        as [Hrec Hcard].
      rewrite Hcard in Hj. injection Hj as <-. exists d. simpl.
      split; [exact Hrec|exact Hs].
  - assert (Hnone : productData ls !! productId = None).
    { destruct (productData ls !! productId) as [d|] eqn:E; [|reflexivity].
      apply hasCard_not_elem in Hhas. destruct Hhas. apply Hsub. eauto. }
    rewrite (deleteProduct_absent productId ls grid Hhas Hnone).
    repeat split; assumption.
Qed.

Section CatalogInvariant.

Variable cfg : Config.
Variable getFile : string -> bool -> option string.

(** The dispatcher changes the catalog only by an upsert under a numeric id
    or by [deleteProduct]; whatever both of these keep, it keeps. *)
Lemma dispatchMessage_catalog
  (P : gmap string ProductData -> list Card -> Prop) botType m st :
  (forall productId d store grid,
     Js.allDigits productId = true ->
     P store grid ->
     P (<[productId := d]> store) (updateProductCard productId d grid)) ->
  (forall productId ls grid,
     P (productData ls) grid ->
     P (productData (fst (deleteProduct productId ls grid)))
       (snd (deleteProduct productId ls grid))) ->
  P (productData (localStorage st)) (productGrid st) ->
  P (productData (localStorage (dispatchMessage cfg getFile botType m st)))
    (productGrid (dispatchMessage cfg getFile botType m st)).
Proof.
  intros Hup Hdel HP.
  assert (Hframe : forall st',
            productData (localStorage st') = productData (localStorage st) ->
            productGrid st' = productGrid st ->
            P (productData (localStorage st')) (productGrid st')).
  { intros st' -> ->. exact HP. }
  unfold dispatchMessage. cbv zeta.
  repeat match goal with
         | |- context [if ?b then _ else _] => destruct b
         end;
    try (apply Hframe; now destruct botType);
    try (apply Hdel, HP).
  unfold productOrChat. cbv zeta.
  destruct (if Js.truthy _ then _ else _) as [d|] eqn:Hparse.
  - assert (Hid : Js.allDigits (cmdId d) = true).
    { destruct (Js.truthy _); [|discriminate].
      eapply parseProductCommand_id, Hparse. }
    unfold applyProductUpdate.
    destruct (match nonEmptyPhotos (photo m) with
              | Some _ => _
              | None => _
              end) as [url st1] eqn:E.
    assert (Hst1 : productData (localStorage st1) = productData (localStorage st)
                   /\ productGrid st1 = productGrid st).
    { destruct (nonEmptyPhotos (photo m)) as [best|].
      - destruct (filePathOf _ _ _); injection E as <- <-;
          split; now destruct botType.
      - injection E as <- <-. now split. }
    destruct Hst1 as [Hs1 Hg1]. cbv zeta.
    unfold logCallbackOf, logSystemMessage, saveProductData. simpl.
    rewrite (allDigits_nonempty _ Hid). simpl. rewrite Hs1, Hg1.
    now apply Hup.
  - unfold handleChatMessage.
    repeat match goal with
           | |- context [if ?b then _ else _] => destruct b
           | |- context [match ?o with Some _ => _ | None => _ end] =>
               destruct o
           end;
      try exact HP;
      (apply Hframe;
       [simpl; rewrite ?addMessageToChat_productData; now destruct botType
       |now destruct botType]).
Qed.

Lemma processUpdate_catalog
  (P : gmap string ProductData -> list Card -> Prop) botType st u :
  (forall productId d store grid,
     Js.allDigits productId = true ->
     P store grid ->
     P (<[productId := d]> store) (updateProductCard productId d grid)) ->
  (forall productId ls grid,
     P (productData ls) grid ->
     P (productData (fst (deleteProduct productId ls grid)))
       (snd (deleteProduct productId ls grid))) ->
  P (productData (localStorage st)) (productGrid st) ->
  P (productData (localStorage (processUpdate cfg getFile botType st u)))
    (productGrid (processUpdate cfg getFile botType st u)).
Proof.
  intros Hup Hdel HP. unfold processUpdate.
  assert (H0 : P (productData
                    (localStorage (setLastUpdateId botType (update_id u) st)))
                 (productGrid (setLastUpdateId botType (update_id u) st)))
    by now destruct botType.
  destruct (message u) as [m|]; [|exact H0].
  repeat match goal with
         | |- context [if ?b then _ else _] => destruct b
         end; try exact H0.
  now apply dispatchMessage_catalog.
Qed.

(** X1.  Whatever updates arrive, on either channel, grid and store keep
    describing the same catalog: the card ids stay distinct, every stored
    product record belongs to a card, and every card shows the name, the
    description and the image of the record stored under its id. *)
Theorem processUpdates_keeps_catalog_consistent botType us : forall st,
  catalogConsistent st ->
  catalogConsistent (processUpdates cfg getFile us botType st).
Proof.
  induction us as [|u us IH]; intros st Hinv; [exact Hinv|].
  rewrite processUpdates_cons. apply IH. unfold catalogConsistent.
  apply processUpdate_catalog; [| |exact Hinv].
  - intros productId d store grid _. apply consistent_upsert.
  - apply consistent_delete.
Qed.

End CatalogInvariant.

Lemma processUpdates_keeps_catalog_consistent_witness :
  catalogConsistent stateWithCaramelo
  /\ catalogConsistent
       (processUpdates shopConfig noFile gapBatch Primary stateWithCaramelo).
Proof.
  assert (H : catalogConsistent stateWithCaramelo).
  { split; [|split].
    - apply (bool_decide_unpack (NoDup _)). vm_compute. exact I.
    - intros k [d Hk]. cbn in Hk.
      destruct (decide (k = "42")) as [->|Hne].
      + apply list_elem_of_here.
      + rewrite lookup_insert_ne in Hk by congruence.
        rewrite lookup_empty in Hk. discriminate.
    - intros c Hc. apply list_elem_of_singleton in Hc as ->.
      exists oldCaramelo. split; [reflexivity|repeat split]. }
  split; [exact H|].
  exact (processUpdates_keeps_catalog_consistent shopConfig noFile Primary
           gapBatch stateWithCaramelo H).
Defined.

(** ** Decimal numerals *)

Lemma digitValue_pretty_char x :
  (x < 10)%N -> Js.digitValue (pretty_N_char x) = x.
Proof.
  intros H. assert (x = 0 \/ x = 1 \/ x = 2 \/ x = 3 \/ x = 4 \/ x = 5
                    \/ x = 6 \/ x = 7 \/ x = 8 \/ x = 9)%N by lia.
  repeat match goal with H : _ \/ _ |- _ => destruct H as [->|H] end;
    subst; reflexivity.
Qed.

Lemma isDigit_pretty_char x : Js.isDigit (pretty_N_char x) = true.
Proof.
  unfold pretty_N_char.
  repeat match goal with |- context [match ?y with _ => _ end] =>
           destruct y end; reflexivity.
Qed.

Lemma digitsValueFrom_pretty_go x : forall acc s,
  exists k, Js.digitsValueFrom acc (pretty_N_go x s)
            = Js.digitsValueFrom (acc * 10 ^ k + x)%N s.
Proof.
  induction (N.lt_wf_0 x) as [x _ IH]; intros acc s.
  destruct (decide (x = 0)%N) as [->|Hx].
  - exists 0%N. rewrite pretty_N_go_0. f_equal. lia.
  - rewrite pretty_N_go_step by lia.
    destruct (IH (x `div` 10)%N ltac:(apply N.div_lt; lia) acc
                (String (pretty_N_char (x `mod` 10)) s)) as [k Hk].
    exists (k + 1)%N. rewrite Hk. simpl. f_equal.
    rewrite digitValue_pretty_char by (apply N.mod_lt; lia).
    rewrite N.pow_add_r. pose proof (N.div_mod x 10 ltac:(lia)). lia.
Qed.

Lemma allChars_pretty_go x : forall s,
  Js.allChars Js.isDigit s = true ->
  Js.allChars Js.isDigit (pretty_N_go x s) = true.
Proof.
  induction (N.lt_wf_0 x) as [x _ IH]; intros s Hs.
  destruct (decide (x = 0)%N) as [->|Hx].
  - now rewrite pretty_N_go_0.
  - rewrite pretty_N_go_step by lia. apply IH; [apply N.div_lt; lia|].
    simpl. now rewrite isDigit_pretty_char.
Qed.

Lemma pretty_N_go_length y : forall t,
  (String.length t <= String.length (pretty_N_go y t))%nat.
Proof.
  induction (N.lt_wf_0 y) as [y _ IH]; intros t.
  destruct (decide (y = 0)%N) as [->|Hy]; [now rewrite pretty_N_go_0|].
  rewrite pretty_N_go_step by lia.
  etrans; [|apply IH; apply N.div_lt; lia]. simpl. lia.
Qed.

Lemma pretty_N_go_nonempty x s :
  (0 < x)%N -> Js.isEmpty (pretty_N_go x s) = false.
Proof.
  intros Hx. rewrite pretty_N_go_step by exact Hx.
  pose proof (pretty_N_go_length (x `div` 10)%N
                (String (pretty_N_char (x `mod` 10)) s)) as H.
  destruct (pretty_N_go _ _); [simpl in H; lia|reflexivity].
Qed.

(** [parseInt(n.toString(), 10) === n] for a natural number. *)
Lemma parseInt_pretty_N (x : N) : Js.parseInt (pretty x) = x.
Proof.
  unfold pretty, pretty_N, Js.parseInt. destruct (decide (x = 0)%N) as [->|Hx].
  - reflexivity.
  - destruct (digitsValueFrom_pretty_go x 0%N "") as [k Hk].
    rewrite Hk. simpl. lia.
Qed.

Lemma allDigits_pretty_N (x : N) : Js.allDigits (pretty x) = true.
Proof.
  unfold pretty, pretty_N, Js.allDigits.
  destruct (decide (x = 0)%N) as [->|Hx]; [reflexivity|].
  rewrite pretty_N_go_nonempty by lia. simpl. now apply allChars_pretty_go.
Qed.

Lemma parseInt_pretty_nat (n : nat) : Js.parseInt (pretty n) = N.of_nat n.
Proof. apply parseInt_pretty_N. Qed.

Lemma allDigits_pretty_nat (n : nat) : Js.allDigits (pretty n) = true.
Proof. apply allDigits_pretty_N. Qed.

Lemma span_allChars p s : Js.allChars p s = true -> Js.span p s = (s, "").
Proof.
  induction s as [|c s IH]; simpl; [reflexivity|].
  intros [Hc Hs]%andb_true_iff. now rewrite Hc, IH.
Qed.

Lemma parseIntOpt_digits s :
  Js.allDigits s = true -> parseIntOpt s = Some (Js.parseInt s).
Proof.
  unfold Js.allDigits, parseIntOpt. intros [Hne Hall]%andb_true_iff.
  rewrite (span_allChars _ _ Hall). apply negb_true_iff in Hne. now rewrite Hne.
Qed.

(** ** The grid stays in ascending order of id *)



Lemma removeCard_ordered productId grid :
  ordered grid -> ordered (removeCard productId grid).
Proof.
  unfold ordered, orderedIds, cardIds.
  induction grid as [|c0 grid IH]; csimpl; intros [Hall Hsort]; [now split|].
  apply Forall_cons in Hall as [H0 Hall].
  apply StronglySorted_cons in Hsort as [Hle Hsort].
  destruct (bool_decide (cardId c0 = productId)); csimpl; [now split|].
  destruct (IH (conj Hall Hsort)) as [IH1 IH2].
  split; [now constructor|]. constructor; [exact IH2|].
  rewrite Forall_forall in *. intros x Hx. apply Hle.
  apply list_elem_of_fmap in Hx as (c & -> & Hc).
  apply list_elem_of_fmap. exists c. split; [reflexivity|].
  eapply removeCard_sub, Hc.
Qed.





(** ** Chat history: the auxiliary channel, and memory against store *)

Lemma addMessageToChat_cases text type sender ts img save h key ls :
  addMessageToChat text type sender ts img save h key ls = (h, ls)
  \/ addMessageToChat text type sender ts img save h key ls
     = saveChatHistory key (h ++ [mkEntry text type sender ts img]) ls.
Proof.
  destruct (stores type save key) eqn:Hs;
    [|left; now apply addMessageToChat_skip].
  destruct (decide (last h = Some (mkEntry text type sender ts img)))
    as [Hl|Hl]; [left; now apply addMessageToChat_duplicate|].
  right. now apply addMessageToChat_fresh.
Qed.

Lemma addMessageToChat_synced text type sender ts img save h key ls :
  default [] (histories ls !! key) = lastN 200 h ->
  default [] (histories (snd (addMessageToChat text type sender ts img save h
                                key ls)) !! key)
  = lastN 200 (fst (addMessageToChat text type sender ts img save h key ls)).
Proof.
  intros Hsync.
  destruct (addMessageToChat_cases text type sender ts img save h key ls)
    as [-> | ->]; [exact Hsync|].
  rewrite saveChatHistory_saved. reflexivity.
Qed.

(** Renumbering and deleting touch product records only. *)
Lemma renumberProducts_frame ls grid :
  histories (fst (renumberProducts ls grid)) = histories ls
  /\ items (fst (renumberProducts ls grid)) = items ls.
Proof.
  unfold renumberProducts. destruct grid as [|c grid]; [now split|].
  destruct (renumberCards ls 0 (c :: grid)) as [[|u updates] cards'];
    now split.
Qed.

Lemma deleteProduct_frame productId ls grid :
  histories (fst (deleteProduct productId ls grid)) = histories ls
  /\ items (fst (deleteProduct productId ls grid)) = items ls.
Proof.
  unfold deleteProduct. destruct (hasCard productId grid).
  - apply (renumberProducts_frame (withProductData (delete productId) ls)).
  - destruct (productData ls !! productId); [|now split].
    apply (renumberProducts_frame (withProductData (delete productId) ls)).
Qed.

Section ChatInvariants.

Variable cfg : Config.
Variable getFile : string -> bool -> option string.

Lemma handleChatMessage_synced botType lc senderName m st :
  (forall msg type o s,
     localStorage (lc msg type o s) = localStorage s
     /\ chatHistory (lc msg type o s) = chatHistory s) ->
  chatSynced cfg st ->
  chatSynced cfg (handleChatMessage cfg getFile botType lc senderName m st).
Proof.
  intros Hlc Hsync. unfold handleChatMessage.
  assert (Hlog : forall msg type o, chatSynced cfg (lc msg type o st)).
  { intros msg type o. unfold chatSynced.
    destruct (Hlc msg type o st) as [-> ->]. exact Hsync. }
  repeat match goal with
         | |- context [if ?b then _ else _] => destruct b
         | |- context [match ?o with Some _ => _ | None => _ end] => destruct o
         end;
    try exact Hsync; try apply Hlog;
    unfold chatSynced; cbn [setChat localStorage chatHistory];
    apply addMessageToChat_synced; try exact Hsync; apply Hlog.
Qed.

Lemma logCallbackOf_frame botType msg type o s :
  localStorage (logCallbackOf botType msg type o s) = localStorage s
  /\ chatHistory (logCallbackOf botType msg type o s) = chatHistory s.
Proof. split; reflexivity. Qed.

Lemma dispatchMessage_synced botType m st :
  chatSynced cfg st -> chatSynced cfg (dispatchMessage cfg getFile botType m st).
Proof.
  intros Hsync.
  assert (Hframe : forall st',
            histories (localStorage st') = histories (localStorage st) ->
            chatHistory st' = chatHistory st -> chatSynced cfg st').
  { unfold chatSynced. intros st' -> ->. exact Hsync. }
  unfold dispatchMessage. cbv zeta.
  repeat match goal with
         | |- context [if ?b then _ else _] => destruct b
         end;
    try (apply Hframe; reflexivity);
    try (apply Hframe; [apply deleteProduct_frame|reflexivity]).
  - unfold chatSynced. simpl. now rewrite lookup_delete_eq.
  - unfold productOrChat. cbv zeta.
    destruct (if Js.truthy _ then _ else _) as [d|].
    + apply Hframe; unfold applyProductUpdate;
        destruct (nonEmptyPhotos (photo m)) as [best|];
        try destruct (filePathOf _ _ _);
        cbv zeta; unfold saveProductData;
        destruct (Js.isEmpty (cmdId d)); reflexivity.
    + apply handleChatMessage_synced; [|exact Hsync].
      intros. apply logCallbackOf_frame.
Qed.

(** X3.  The chat history held in memory and the one kept in the store stay
    in step through every batch of updates, on either channel: the stored
    history is always the last 200 entries of the history in memory. *)
Theorem processUpdates_keeps_chat_synced botType us : forall st,
  chatSynced cfg st ->
  chatSynced cfg (processUpdates cfg getFile us botType st).
Proof.
  induction us as [|u us IH]; intros st Hsync; [exact Hsync|].
  rewrite processUpdates_cons. apply IH. unfold processUpdate.
  assert (H0 : chatSynced cfg (setLastUpdateId botType (update_id u) st))
    by now destruct botType.
  destruct (message u) as [m|]; [|exact H0].
  repeat match goal with
         | |- context [if ?b then _ else _] => destruct b
         end; try exact H0.
  now apply dispatchMessage_synced.
Qed.

(** The auxiliary channel never reaches the chat-message branch. *)
Lemma productOrChat_auxiliary_chat m st :
  chatHistory (productOrChat cfg getFile Auxiliary m st) = chatHistory st
  /\ histories (localStorage (productOrChat cfg getFile Auxiliary m st))
     = histories (localStorage st).
Proof.
  unfold productOrChat. cbv zeta.
  destruct (if Js.truthy _ then _ else _) as [d|]; [|split; reflexivity].
  unfold applyProductUpdate;
    destruct (nonEmptyPhotos (photo m)) as [best|];
    try destruct (filePathOf _ _ _);
    cbv zeta; unfold saveProductData;
    destruct (Js.isEmpty (cmdId d)); split; reflexivity.
Qed.

Lemma processUpdate_auxiliary_chat st u :
  let st' := processUpdate cfg getFile Auxiliary st u in
  (chatHistory st' = chatHistory st
   /\ histories (localStorage st') = histories (localStorage st))
  \/ (chatHistory st' = []
      /\ histories (localStorage st')
         = delete (LOCAL_STORAGE_KEY cfg) (histories (localStorage st))).
Proof.
  cbv zeta. unfold processUpdate.
  destruct (message u) as [m|]; [|left; split; reflexivity].
  repeat match goal with
         | |- context [if ?b then _ else _] => destruct b
         end; try (left; split; reflexivity).
  unfold dispatchMessage. cbv zeta.
  repeat match goal with
         | |- context [if ?b then _ else _] => destruct b
         end; try (left; split; reflexivity);
    try (left; split; [reflexivity|apply deleteProduct_frame]).
  - right. split; reflexivity.
  - left.
    destruct (productOrChat_auxiliary_chat m
                (setLastUpdateId Auxiliary (update_id u) st)) as [-> ->].
    split; reflexivity.
Qed.

(** X4.  The auxiliary channel never adds to the chat history: after any
    batch it processed, the history in memory and the stored histories are
    either exactly what they were, or (after the clear command) the history
    is empty and its stored copy is removed. *)
Theorem auxiliary_never_appends_to_chat us : forall st,
  let st' := processUpdates cfg getFile us Auxiliary st in
  (chatHistory st' = chatHistory st
   /\ histories (localStorage st') = histories (localStorage st))
  \/ (chatHistory st' = []
      /\ histories (localStorage st')
         = delete (LOCAL_STORAGE_KEY cfg) (histories (localStorage st))).
Proof.
  induction us as [|u us IH]; intros st; [left; split; reflexivity|].
  cbv zeta. rewrite processUpdates_cons.
  destruct (IH (processUpdate cfg getFile Auxiliary st u)) as [[H1 H2]|[H1 H2]];
    destruct (processUpdate_auxiliary_chat st u) as [[H3 H4]|[H3 H4]].
  - left. split; congruence.
  - right. split; congruence.
  - right. split; [exact H1|]. now rewrite H2, H4.
  - right. split; [exact H1|]. rewrite H2, H4. apply delete_delete_eq.
Qed.

End ChatInvariants.

Lemma processUpdates_keeps_chat_synced_witness :
  chatSynced shopConfig initialState
  /\ chatSynced shopConfig
       (processUpdates shopConfig noFile (concat sampleBatches) Primary
          initialState).
Proof.
  assert (H : chatSynced shopConfig initialState) by reflexivity.
  split; [exact H|].
  exact (processUpdates_keeps_chat_synced shopConfig noFile Primary
           (concat sampleBatches) initialState H).
Defined.

(** ** Triggers and log lines *)

Section Triggers.

Variable cfg : Config.
Variable getFile : string -> bool -> option string.

Lemma extends_refl st : extends st st.
Proof. exists []. split; [now rewrite app_nil_r|constructor]. Qed.

Lemma extends_trans st1 st2 st3 :
  extends st1 st2 -> extends st2 st3 -> extends st1 st3.
Proof.
  intros (n1 & E1 & H1) (n2 & E2 & H2). exists (n1 ++ n2).
  split; [now rewrite E2, E1, app_assoc|now apply Forall_app].
Qed.

Lemma extends_emit e st st' :
  triggerOk e -> extends st st' -> extends st (emit e st').
Proof.
  intros He Hext. eapply extends_trans; [exact Hext|].
  exists [e]. split; [reflexivity|now constructor].
Qed.

Lemma extends_same st st' : events st' = events st -> extends st st'.
Proof. intros E. exists []. split; [now rewrite app_nil_r|constructor]. Qed.

Lemma extends_log botType msg type o st st' :
  extends st st' -> extends st (logCallbackOf botType msg type o st').
Proof. intros H. unfold logCallbackOf, logSystemMessage. now apply extends_emit. Qed.

Ltac extends_step :=
  repeat first
    [ apply extends_log
    | apply extends_emit; [simpl; try exact I|] ];
  try (apply extends_same; reflexivity).

Lemma dispatchMessage_extends botType m st :
  extends st (dispatchMessage cfg getFile botType m st).
Proof.
  unfold dispatchMessage, clearChat. cbv zeta.
  repeat match goal with
         | |- context [if ?b then _ else _] => destruct b eqn:?
         end;
    try solve [extends_step].
  - (* notification *)
    apply extends_log, extends_emit; [|apply extends_refl]. simpl.
    intros E. rewrite E in *. discriminate.
  - (* roulette *)
    apply extends_log, extends_emit; [|apply extends_refl]. simpl.
    repeat match goal with
           | H : _ && _ = true |- _ => apply andb_true_iff in H as [? ?]
           end.
    repeat split.
    + assumption.
    + now apply N.leb_le.
    + intros E. rewrite E in *. discriminate.
  - (* product or chat *)
    unfold productOrChat. cbv zeta.
    destruct (if Js.truthy _ then _ else _) as [d|].
    + unfold applyProductUpdate.
      destruct (nonEmptyPhotos (photo m)) as [best|];
        try destruct (filePathOf _ _ _); cbv zeta;
        apply extends_log; try apply extends_log; now apply extends_same.
    + unfold handleChatMessage.
      repeat match goal with
             | |- context [if ?b then _ else _] => destruct b
             | |- context [match ?o with Some _ => _ | None => _ end] =>
                 destruct o
             end;
        try apply extends_refl;
        try (now apply extends_same);
        try (apply extends_log, extends_refl).
Qed.

Lemma processUpdate_extends botType st u :
  extends st (processUpdate cfg getFile botType st u).
Proof.
  unfold processUpdate.
  assert (H0 : extends st (setLastUpdateId botType (update_id u) st))
    by (apply extends_same; now destruct botType).
  destruct (message u) as [m|]; [|exact H0].
  repeat match goal with
         | |- context [if ?b then _ else _] => destruct b
         end; try exact H0.
  eapply extends_trans; [exact H0|apply dispatchMessage_extends].
Qed.

(** X5.  Processing updates only ever adds to the list of triggers and log
    lines, and every trigger it adds is well formed: a roulette button comes
    with numeric attempts, a winning hour of at most 23 and a non-empty
    code, and a notification is never shown with an empty text. *)
Theorem processUpdates_triggers_well_formed botType us st :
  exists new,
    events (processUpdates cfg getFile us botType st) = events st ++ new
    /\ Forall triggerOk new.
Proof.
  change (extends st (processUpdates cfg getFile us botType st)).
  revert st. induction us as [|u us IH]; intros st; [apply extends_refl|].
  rewrite processUpdates_cons.
  eapply extends_trans; [apply processUpdate_extends|apply IH].
Qed.

End Triggers.

(** ** One timer per channel *)

Lemma timersOwned_single rt botType :
  timersOwned rt -> (length (timersOf botType rt) <= 1)%nat.
Proof.
  intros (_ & Hnd & Hown). unfold timersOf.
  assert (H : forall l : list Timeout,
             NoDup (timeoutId <$> l) ->
             (forall t, t ∈ l ->
                forall t', t' ∈ l -> callback t = botType ->
                  callback t' = botType -> timeoutId t = timeoutId t') ->
             (length (List.filter
                        (fun t => bool_decide (callback t = botType)) l)
              <= 1)%nat).
  { induction l as [|t l IH]; intros Hl Hsame; [simpl; lia|].
    apply NoDup_cons in Hl as [Hnot Hl]. simpl.
    assert (IH' := IH Hl (fun a Ha b Hb =>
                            Hsame a (list_elem_of_further _ _ _ Ha)
                                  b (list_elem_of_further _ _ _ Hb))).
    destruct (bool_decide (callback t = botType)) eqn:E; [|exact IH'].
    apply bool_decide_eq_true_1 in E. simpl.
    destruct (List.filter _ l) as [|t' rest] eqn:F; [simpl; lia|].
    exfalso. apply Hnot.
    assert (Hin : List.In t' (List.filter
                   (fun t => bool_decide (callback t = botType)) l))
      by (rewrite F; now left).
    apply List.filter_In in Hin as [Hin Hcb].
    apply bool_decide_eq_true_1 in Hcb. apply list_elem_of_In in Hin.
    rewrite (Hsame t (list_elem_of_here _ _) t'
               (list_elem_of_further _ _ _ Hin) E Hcb).
    apply list_elem_of_fmap. now exists t'. }
  apply H; [exact Hnd|].
  intros t Ht t' Ht' E E'.
  pose proof (Hown t Ht) as H1. pose proof (Hown t' Ht') as H2.
  rewrite E in H1. rewrite E' in H2. congruence.
Qed.

Lemma filter_subset (f : Timeout -> bool) l t :
  t ∈ List.filter f l -> t ∈ l /\ f t = true.
Proof.
  intros H. apply list_elem_of_In, List.filter_In in H as [H1 H2].
  split; [now apply list_elem_of_In|exact H2].
Qed.

Lemma filter_NoDup_ids (f : Timeout -> bool) l :
  NoDup (timeoutId <$> l) -> NoDup (timeoutId <$> List.filter f l).
Proof.
  induction l as [|t l IH]; [trivial|]. csimpl.
  intros [Hnot Hl]%NoDup_cons. destruct (f t); [|now apply IH].
  csimpl. apply NoDup_cons. split; [|now apply IH].
  intros (t' & E & Hin)%list_elem_of_fmap. apply Hnot.
  apply list_elem_of_fmap. exists t'. split; [exact E|].
  now apply filter_subset in Hin as [Hin _].
Qed.

(** Clearing any timer keeps the invariant. *)
Lemma clearTimeout_owned id rt :
  timersOwned rt -> timersOwned (clearTimeout id rt).
Proof.
  intros (Hf & Hnd & Hown). split; [|split].
  - now apply filter_keeps_fresh.
  - now apply filter_NoDup_ids.
  - intros t [Ht _]%filter_subset. exact (Hown t Ht).
Qed.

Lemma clearTimeout_noTimer id botType rt :
  noTimer botType rt -> noTimer botType (clearTimeout id rt).
Proof. intros H t [Ht _]%filter_subset. exact (H t Ht). Qed.

(** Once the timer a channel's handle names is cleared, no timer of the
    channel is left. *)
Lemma clearHandle_owned botType rt :
  timersOwned rt ->
  timersOwned (clearHandle botType rt) /\ noTimer botType (clearHandle botType rt).
Proof.
  intros Hown. unfold clearHandle.
  destruct (interval botType rt) as [| |id] eqn:E.
  - split; [exact Hown|]. intros t Ht Hcb.
    destruct Hown as (_ & _ & H). specialize (H t Ht).
    rewrite Hcb, E in H. discriminate.
  - split; [exact Hown|]. intros t Ht Hcb.
    destruct Hown as (_ & _ & H). specialize (H t Ht).
    rewrite Hcb, E in H. discriminate.
  - split; [now apply clearTimeout_owned|].
    intros t [Ht Hne]%filter_subset Hcb.
    destruct Hown as (_ & _ & H). specialize (H t Ht).
    rewrite Hcb, E in H. injection H as ->.
    rewrite bool_decide_eq_true_2 in Hne by reflexivity. discriminate.
Qed.

Lemma clearHandle_noTimer botType other rt :
  noTimer other rt -> noTimer other (clearHandle botType rt).
Proof.
  unfold clearHandle. destruct (interval botType rt); trivial.
  apply clearTimeout_noTimer.
Qed.

Lemma interval_setInterval botType h rt :
  interval botType (setInterval botType h rt) = h.
Proof. now destruct botType. Qed.

Lemma interval_setInterval_ne botType other h rt :
  other <> botType ->
  interval other (setInterval botType h rt) = interval other rt.
Proof. now destruct botType, other. Qed.

(** A channel without pending timers may set its handle to anything. *)
Lemma setInterval_owned botType h rt :
  timersOwned rt -> noTimer botType rt ->
  timersOwned (setInterval botType h rt).
Proof.
  intros (Hf & Hnd & Hown) Hno. split; [exact Hf|split; [exact Hnd|]].
  intros t Ht. change (t ∈ pendingTimeouts rt) in Ht.
  rewrite interval_setInterval_ne by exact (Hno t Ht). exact (Hown t Ht).
Qed.

Lemma setInterval_noTimer botType other h rt :
  noTimer other rt -> noTimer other (setInterval botType h rt).
Proof. intros H. exact H. Qed.

(** A channel without pending timers sets a timer and keeps its id. *)
Lemma setTimeout_owned botType ms rt :
  timersOwned rt -> noTimer botType rt ->
  timersOwned (setInterval botType (HTimer (fst (setTimeout botType ms rt)))
                 (snd (setTimeout botType ms rt))).
Proof.
  intros (Hf & Hnd & Hown) Hno. split; [|split].
  - unfold timersFresh. simpl. apply Forall_app. split.
    + eapply Forall_impl; [exact Hf|]. simpl. intros; lia.
    + repeat constructor. simpl. lia.
  - simpl. rewrite fmap_app. apply NoDup_app. split; [exact Hnd|]. split.
    + intros x (t & -> & Ht)%list_elem_of_fmap Hx.
      apply list_elem_of_singleton in Hx.
      unfold timersFresh in Hf. rewrite Forall_forall in Hf.
      specialize (Hf t Ht). simpl in Hx. lia.
    + apply NoDup_singleton.
  - intros t Ht. simpl in Ht. apply elem_of_app in Ht as [Ht|Ht].
    + rewrite interval_setInterval_ne by exact (Hno t Ht).
      exact (Hown t Ht).
    + apply list_elem_of_singleton in Ht as ->. simpl.
      apply interval_setInterval.
Qed.

Lemma scheduleNextPoll_owned botType ms rt :
  timersOwned rt -> timersOwned (scheduleNextPoll botType ms rt).
Proof.
  intros Hown. unfold scheduleNextPoll.
  destruct (handleTruthy (interval botType rt)); [|exact Hown].
  fold (clearHandle botType rt). cbv zeta.
  destruct (clearHandle_owned botType rt Hown) as [H1 H2].
  pose proof (setTimeout_owned botType ms _ H1 H2) as H.
  destruct (setTimeout botType ms (clearHandle botType rt)) as [id rt2].
  exact H.
Qed.

Lemma stopPolling_interval botType rt :
  interval botType (stopPolling botType rt) = HNull.
Proof.
  unfold stopPolling. destruct (handleTruthy (interval botType rt)) eqn:E.
  - apply interval_setInterval.
  - now destruct (interval botType rt).
Qed.

Lemma stopPolling_interval_ne botType other rt :
  other <> botType ->
  interval other (stopPolling botType rt) = interval other rt.
Proof.
  intros Hne. unfold stopPolling.
  destruct (handleTruthy (interval botType rt)); [|reflexivity].
  rewrite interval_setInterval_ne by exact Hne.
  unfold clearHandle. now destruct (interval botType rt), other.
Qed.

Section TimerInvariant.

Variable cfg : Config.
Variable getFile : string -> bool -> option string.

Lemma fetchBody_owned botType response rt :
  timersOwned rt -> timersOwned (fetchBody cfg getFile botType response rt).
Proof.
  intros Hown. unfold fetchBody. cbv zeta.
  assert (H0 : timersOwned
                 (recordRequest botType
                    {| offset := lastUpdateId botType (app rt) + 1;
                       timeout := 50; allowed_updates := ["message"] |} rt))
    by exact Hown.
  match goal with
  | |- timersOwned (if handleTruthy (interval botType ?r) then _ else _) =>
      assert (H1 : timersOwned r)
  end.
  { destruct response.
    - apply scheduleNextPoll_owned. exact H0.
    - apply scheduleNextPoll_owned. exact H0.
    - exact H0. }
  destruct (handleTruthy _); [now apply scheduleNextPoll_owned|exact H1].
Qed.

Lemma fetchUpdates_owned botType response rt :
  timersOwned rt -> timersOwned (fetchUpdates cfg getFile botType response rt).
Proof.
  intros Hown.
  destruct botType; simpl; unfold fetchPrimaryUpdates, fetchAuxiliaryUpdates;
    match goal with
    | |- context [if ?b then _ else _] => destruct b
    end; try exact Hown; now apply fetchBody_owned.
Qed.

Lemma stopPolling_owned botType rt :
  timersOwned rt ->
  timersOwned (stopPolling botType rt) /\ noTimer botType (stopPolling botType rt).
Proof.
  intros Hown. unfold stopPolling.
  destruct (clearHandle_owned botType rt Hown) as [H1 H2].
  destruct (handleTruthy (interval botType rt)) eqn:E.
  - split; [now apply setInterval_owned|exact H2].
  - split; [exact Hown|].
    unfold clearHandle in H2.
    destruct (interval botType rt); [exact H2|exact H2|discriminate].
Qed.

Lemma stopPolling_noTimer botType other rt :
  noTimer other rt -> noTimer other (stopPolling botType rt).
Proof.
  intros H. unfold stopPolling.
  destruct (handleTruthy _); [|exact H].
  now apply setInterval_noTimer, clearHandle_noTimer.
Qed.

Lemma stopAllPolling_owned rt :
  timersOwned rt -> timersOwned (stopAllPolling rt).
Proof.
  intros H. unfold stopAllPolling, stopAuxiliaryPolling, stopPrimaryPolling.
  apply stopPolling_owned. now apply stopPolling_owned.
Qed.

Lemma forceFetch_owned botType response rt :
  timersOwned rt -> timersOwned (forceFetch cfg getFile botType response rt).
Proof.
  intros Hown. unfold forceFetch. apply fetchUpdates_owned.
  destruct (clearHandle_owned botType rt Hown) as [H1 H2].
  destruct (handleTruthy (interval botType rt)) eqn:E.
  - now apply setInterval_owned.
  - apply setInterval_owned; [exact Hown|].
    unfold clearHandle in H2.
    destruct (interval botType rt); [exact H2|exact H2|discriminate].
Qed.

Lemma handleEvent_owned rt e :
  timersOwned rt -> timersOwned (handleEvent cfg getFile rt e).
Proof.
  intros Hown. destruct e as [id response|p a r1 r2|]; simpl.
  - unfold expireTimer. destruct (List.find _ _); [|exact Hown].
    now apply fetchUpdates_owned, clearTimeout_owned.
  - unfold ptrRefreshAction. cbv zeta.
    assert (H1 : timersOwned
                   (if p then forceFetch cfg getFile Primary r1 rt else rt))
      by (destruct p; [now apply forceFetch_owned|exact Hown]).
    destruct (_ && _); [now apply forceFetch_owned|exact H1].
  - now apply stopAllPolling_owned.
Qed.

(** X6.  Whatever the page goes through (timers expiring with any answer
    to their request, pulls to refresh, unloads), every pending timer stays
    the one its channel's handle names; so at most one poll is ever
    scheduled per channel. *)
Theorem handleEvents_one_timer_per_channel es : forall rt,
  timersOwned rt ->
  timersOwned (handleEvents cfg getFile es rt)
  /\ forall botType,
       (length (timersOf botType (handleEvents cfg getFile es rt)) <= 1)%nat.
Proof.
  assert (H : forall rt, timersOwned rt ->
                timersOwned (handleEvents cfg getFile es rt)).
  { unfold handleEvents.
    induction es as [|e es IH]; intros rt Hown; [exact Hown|].
    simpl. apply IH. now apply handleEvent_owned. }
  intros rt Hown. split; [now apply H|].
  intros botType. now apply timersOwned_single, H.
Qed.

(** X7.  When the page unloads, [stopAllPolling] leaves no timer pending
    and both handles null, provided every pending timer was the one its
    channel's handle named; from then on a fetch on either channel returns
    at once, without sending a request. *)
Theorem stopAllPolling_stops_everything rt :
  timersOwned rt ->
  pendingTimeouts (stopAllPolling rt) = []
  /\ primaryUpdateInterval (stopAllPolling rt) = HNull
  /\ auxiliaryUpdateInterval (stopAllPolling rt) = HNull
  /\ forall botType response,
       fetchUpdates cfg getFile botType response (stopAllPolling rt)
       = stopAllPolling rt.
Proof.
  intros Hown. unfold stopAllPolling, stopAuxiliaryPolling, stopPrimaryPolling.
  destruct (stopPolling_owned Primary rt Hown) as [H1 N1].
  destruct (stopPolling_owned Auxiliary _ H1) as [H2 N2].
  pose proof (stopPolling_noTimer Auxiliary Primary _ N1) as N1'.
  set (rt' := stopPolling Auxiliary (stopPolling Primary rt)) in *.
  assert (Hp : primaryUpdateInterval rt' = HNull).
  { change (interval Primary rt' = HNull). unfold rt'.
    rewrite stopPolling_interval_ne by discriminate.
    apply stopPolling_interval. }
  assert (Ha : auxiliaryUpdateInterval rt' = HNull)
    by apply (stopPolling_interval Auxiliary).
  split; [|split; [exact Hp|split; [exact Ha|]]].
  - destruct (pendingTimeouts rt') as [|t l] eqn:E; [reflexivity|].
    exfalso. destruct (callback t) eqn:Ecb.
    + apply (N1' t); [rewrite E; apply list_elem_of_here|exact Ecb].
    + apply (N2 t); [rewrite E; apply list_elem_of_here|exact Ecb].
  - intros botType response. apply fetchUpdates_idle.
    destruct botType; simpl; [now rewrite Hp|now rewrite Ha].
Qed.

End TimerInvariant.

Lemma handleEvents_one_timer_per_channel_witness :
  timersOwned busyRuntime
  /\ timersOwned (handleEvents shopConfig noFile sampleEvents busyRuntime)
  /\ (length (timersOf Primary
                (handleEvents shopConfig noFile sampleEvents busyRuntime))
      <= 1)%nat.
Proof.
  assert (H : timersOwned busyRuntime).
  { split; [|split].
    - repeat constructor.
    - apply (bool_decide_unpack (NoDup _)). vm_compute. exact I.
    - intros t Ht. apply elem_of_cons in Ht as [->|Ht]; [reflexivity|].
      apply list_elem_of_singleton in Ht as ->. reflexivity. }
  destruct (handleEvents_one_timer_per_channel shopConfig noFile sampleEvents
              busyRuntime H) as [H1 H2].
  split; [exact H|split; [exact H1|exact (H2 Primary)]].
Defined.

Lemma stopAllPolling_stops_everything_witness :
  timersOwned busyRuntime
  /\ pendingTimeouts (stopAllPolling busyRuntime) = []
  /\ fetchUpdates shopConfig noFile Primary (Result [])
       (stopAllPolling busyRuntime)
     = stopAllPolling busyRuntime.
Proof.
  assert (H : timersOwned busyRuntime).
  { split; [|split].
    - repeat constructor.
    - apply (bool_decide_unpack (NoDup _)). vm_compute. exact I.
    - intros t Ht. apply elem_of_cons in Ht as [->|Ht]; [reflexivity|].
      apply list_elem_of_singleton in Ht as ->. reflexivity. }
  destruct (stopAllPolling_stops_everything shopConfig noFile busyRuntime H)
    as (H1 & _ & _ & H2).
  split; [exact H|split; [exact H1|exact (H2 Primary (Result []))]].
Defined.

(** ** The shopping cart *)

Lemma findIndex_Some {A} (p : A -> bool) (l : list A) : forall i,
  findIndex p l = Some i ->
  exists x, l !! i = Some x /\ p x = true.
Proof.
  induction l as [|y l IH]; intros i; simpl; [discriminate|].
  destruct (p y) eqn:E.
  - intros [= <-]. now exists y.
  - destruct (findIndex p l) as [j|]; [|discriminate].
    intros [= <-]. exact (IH j eq_refl).
Qed.

Lemma findIndex_None {A} (p : A -> bool) (l : list A) :
  findIndex p l = None -> Forall (fun x => p x = false) l.
Proof.
  induction l as [|y l IH]; simpl; [constructor|].
  destruct (p y) eqn:E; [discriminate|].
  destruct (findIndex p l); [discriminate|]. intros _.
  constructor; [exact E|now apply IH].
Qed.

Lemma delete_alter {A} (f : A -> A) (l : list A) : forall i,
  delete i (alter f i l) = delete i l.
Proof.
  induction l as [|x l IH]; intros [|i]; simpl; trivial.
  f_equal. apply IH.
Qed.


















Lemma filter_is_delete productId (items : list CartItem) : forall i x,
  NoDup (itemIds items) ->
  items !! i = Some x -> itemId x = productId ->
  List.filter (fun item => negb (hasId productId item)) items = delete i items.
Proof.
  induction items as [|y items IH]; intros i x Hnd Hx Hid; [discriminate|].
  apply NoDup_cons in Hnd as [Hnot Hnd]. destruct i as [|i]; simpl in *.
  - injection Hx as ->. unfold hasId at 1.
    rewrite bool_decide_eq_true_2 by exact Hid. simpl.
    clear IH. induction items as [|z items IH]; [reflexivity|]. simpl.
    apply NoDup_cons in Hnd as [_ Hnd]. csimpl in Hnot.
    apply not_elem_of_cons in Hnot as [Hz Hnot].
    unfold hasId at 1. rewrite bool_decide_eq_false_2 by congruence.
    simpl. f_equal. now apply IH.
  - unfold hasId at 1. rewrite bool_decide_eq_false_2.
    + simpl. f_equal. now apply (IH i x).
    + intros E. apply Hnot. apply list_elem_of_fmap. exists x.
      split; [congruence|]. now apply list_elem_of_lookup_2 in Hx.
Qed.

(** X10.  In a basket with one line per product, decreasing a product by
    its whole quantity or more does exactly what removing it does: the line
    goes, the basket currency is reset if it was the last line, and the
    basket is saved. *)
Theorem decrease_to_nothing_is_remove productId n cart item :
  NoDup (itemIds (cartItems cart)) ->
  item ∈ cartItems cart ->
  itemId item = productId ->
  itemQuantity item <= n ->
  decreaseCartItemQuantity productId n cart = removeFromCart productId cart.
Proof.
  intros Hnd Hin Hid Hle. unfold decreaseCartItemQuantity, removeFromCart.
  destruct (findIndex (hasId productId) (cartItems cart)) as [i|] eqn:F.
  - apply findIndex_Some in F as (x & Hx & Hp).
    apply bool_decide_eq_true_1 in Hp.
    assert (x = item) as ->.
    { apply list_elem_of_lookup in Hin as [j Hj].
      assert (i = j) as ->; [|congruence].
      apply (NoDup_lookup (itemIds (cartItems cart)) i j productId Hnd);
        unfold itemIds; rewrite list_lookup_fmap.
      - now rewrite Hx, <- Hp.
      - now rewrite Hj, <- Hid. }
    cbv zeta. simpl. rewrite list_lookup_alter_eq, Hx. simpl.
    replace (itemQuantity item - n <=? 0) with true
      by (symmetry; apply Z.leb_le; lia).
    simpl. rewrite delete_alter.
    rewrite (filter_is_delete productId _ i item Hnd Hx Hid).
    replace (length (delete i (cartItems cart)) <? length (cartItems cart))%nat
      with true; [reflexivity|].
    symmetry. apply Nat.ltb_lt. rewrite length_delete by now exists item.
    apply lookup_lt_Some in Hx. lia.
  - exfalso. apply findIndex_None in F. rewrite Forall_forall in F.
    specialize (F item Hin). unfold hasId in F.
    now apply bool_decide_eq_false_1 in F.
Qed.

Lemma decrease_to_nothing_is_remove_witness :
  decreaseCartItemQuantity "2" 5 maniCart = removeFromCart "2" maniCart.
Proof.
  apply (decrease_to_nothing_is_remove "2" 5 maniCart
           {| itemId := "2"; itemName := "Coco"; itemPrice := (7 # 1)%Q;
              itemQuantity := 2 |}).
  - apply (bool_decide_unpack (NoDup _)). vm_compute. exact I.
  - apply list_elem_of_further, list_elem_of_here.
  - reflexivity.
  - simpl. lia.
Defined.

(** ** Customer order counts *)












(** ** The mobile number check *)

Lemma matchPiece_spec p k : forall most least s,
  matchPiece p least most k s = true
  <-> exists a b, s = a +:+ b
                  /\ (least <= String.length a <= most)%nat
                  /\ Js.allChars p a = true /\ k b = true.
Proof.
  assert (Hnone : forall least s,
            (least =? 0)%nat && k s = true
            <-> exists a b, s = a +:+ b
                            /\ (least <= String.length a <= 0)%nat
                            /\ Js.allChars p a = true /\ k b = true).
  { intros least s. split.
    - intros [H1 H2]%andb_true_iff. apply Nat.eqb_eq in H1 as ->.
      exists "", s. simpl. repeat split; trivial.
    - intros (a & b & -> & [H1 H2] & _ & Hk).
      destruct a; [|simpl in H2; lia]. simpl in *.
      apply andb_true_iff. split; [apply Nat.eqb_eq; lia|exact Hk]. }
  induction most as [|most IH]; intros least s; [apply Hnone|].
  destruct s as [|c s]; simpl.
  - rewrite Hnone. split.
    + intros (a & b & E & [H1 H2] & Ha & Hk). exists a, b.
      repeat split; trivial. lia.
    + intros (a & b & E & [H1 H2] & Ha & Hk). exists a, b.
      destruct a; [|discriminate]. repeat split; trivial.
  - rewrite orb_true_iff, andb_true_iff, IH, Hnone. split.
    + intros [[Hc (a & b & -> & [H1 H2] & Ha & Hk)]
             |(a & b & E & [H1 H2] & Ha & Hk)].
      * exists (String c a), b. simpl. rewrite Hc, Ha.
        repeat split; trivial; lia.
      * exists a, b. repeat split; trivial. lia.
    + intros (a & b & E & [H1 H2] & Ha & Hk). destruct a as [|c' a].
      * right. exists "", b. simpl in *. repeat split; trivial.
      * left. simpl in E, Ha, H1, H2. injection E as <- ->.
        apply andb_true_iff in Ha as [Hc Ha]. split; [exact Hc|].
        exists a, b. repeat split; trivial; lia.
Qed.

Lemma allChars_app p a b :
  Js.allChars p (a +:+ b) = Js.allChars p a && Js.allChars p b.
Proof.
  induction a as [|c a IH]; simpl; [reflexivity|].
  now rewrite IH, andb_assoc.
Qed.

Lemma length_app_string a b :
  String.length (a +:+ b) = (String.length a + String.length b)%nat.
Proof. induction a as [|c a IH]; simpl; [reflexivity|now rewrite IH]. Qed.

Lemma string_split_at n : forall s,
  (n <= String.length s)%nat ->
  exists a b, s = a +:+ b /\ String.length a = n.
Proof.
  induction n as [|n IH]; intros s Hn.
  - now exists "", s.
  - destruct s as [|c s]; [simpl in Hn; lia|].
    destruct (IH s) as (a & b & -> & Ha); [simpl in Hn; lia|].
    exists (String c a), b. simpl. split; [reflexivity|lia].
Qed.

Lemma append_nil_r s : s +:+ "" = s.
Proof.
  induction s as [|x s IH]; [reflexivity|].
  change (String x s +:+ "") with (String x (s +:+ "")). now rewrite IH.
Qed.

Lemma isEmpty_true s : Js.isEmpty s = true <-> s = "".
Proof. destruct s; simpl; split; congruence. Qed.

(** X13.  The mobile number check of the checkout form accepts exactly
    the strings made of an optional plus sign followed by 8 to 18 digits
    and nothing else. *)
Theorem validMobile_spec movil :
  validMobile movil
  = Js.allChars Js.isDigit (withoutPlus movil)
    && (8 <=? String.length (withoutPlus movil))%nat
    && (String.length (withoutPlus movil) <=? 18)%nat.
Proof.
  apply Bool.eq_iff_eq_true.
  rewrite !andb_true_iff, Nat.leb_le, Nat.leb_le.
  unfold validMobile, mobilePattern, testAnchored.
  cbn [charClass atLeast atMost].
  rewrite matchPiece_spec. split.
  - intros (a & r1 & -> & [_ Ha] & Hplus & H1).
    apply matchPiece_spec in H1 as (b & r2 & -> & [Hb1 Hb2] & Hb & H2).
    apply matchPiece_spec in H2 as (c & r3 & -> & [Hc1 Hc2] & Hc & H3).
    apply isEmpty_true in H3 as ->.
    assert (Hd : Js.allChars Js.isDigit (b +:+ c +:+ "") = true
                 /\ (8 <= String.length (b +:+ c +:+ "") <= 18)%nat).
    { rewrite !allChars_app, !length_app_string, Hb, Hc. simpl.
      split; [reflexivity|lia]. }
    destruct a as [|p a].
    + change ("" +:+ b +:+ c +:+ "") with (b +:+ c +:+ "").
      destruct b as [|d b]; [simpl in Hb1; lia|].
      simpl in Hb. apply andb_true_iff in Hb as [Hdig _].
      assert (withoutPlus (String d b +:+ c +:+ "")
              = String d b +:+ c +:+ "") as ->; [|tauto].
      change (String d b +:+ c +:+ "") with (String d (b +:+ c +:+ "")).
      destruct d as [[] [] [] [] [] [] [] []]; try reflexivity;
        discriminate Hdig.
    + destruct a; [|simpl in Ha; lia]. simpl in Hplus.
      rewrite andb_true_r in Hplus. apply bool_decide_eq_true_1 in Hplus.
      subst p.
      change (withoutPlus ("+" +:+ b +:+ c +:+ "")) with (b +:+ c +:+ "").
      tauto.
  - intros [[Hdig Hmin] Hmax].
    assert (Hs : exists a, movil = a +:+ withoutPlus movil
                           /\ (String.length a <= 1)%nat
                           /\ Js.allChars
                                (fun c => bool_decide (c = "+"%char)) a
                              = true).
    { destruct movil as [|c r]; [now exists ""|].
      destruct (decide (c = "+"%char)) as [->|Hne].
      - exists "+". split; [reflexivity|split; [simpl; lia|reflexivity]].
      - exists "". split; [|split; [simpl; lia|reflexivity]].
        change ("" +:+ withoutPlus (String c r))
          with (withoutPlus (String c r)).
        destruct c as [[] [] [] [] [] [] [] []]; try reflexivity;
          congruence. }
    destruct Hs as (a & Es & Ha & Hplus).
    set (d := withoutPlus movil) in *.
    destruct (string_split_at (Nat.min 4 (String.length d - 7)) d)
      as (b & c & Ed & Hb); [lia|].
    pose proof (f_equal String.length Ed) as Hlen.
    rewrite length_app_string in Hlen.
    rewrite Ed, allChars_app in Hdig. apply andb_true_iff in Hdig as [Db Dc].
    exists a, d. split; [exact Es|]. split; [lia|]. split; [exact Hplus|].
    apply matchPiece_spec. exists b, c. split; [exact Ed|].
    split; [lia|]. split; [exact Db|].
    apply matchPiece_spec. exists c, "". split.
    + symmetry. apply append_nil_r.
    + split; [lia|]. split; [exact Dc|reflexivity].
Qed.

(** ** The API settings *)

Lemma orNull_nonEmpty s : Js.orNull (Some s) = nonEmpty s.
Proof. now destruct s. Qed.

Lemma orDefault_nonEmpty s d : Js.isEmpty s = false -> orDefault (Some s) d = s.
Proof. now destruct s. Qed.

Section Settings.

Variable DEFAULT_BOT_TOKEN : string.

(** X14.  What the settings form saves is what the application starts
    with: after an accepted save, [initializeApiConfig] yields the chat ids
    and tokens entered, trimmed, with empty auxiliary fields counting as
    not set, whatever the store held before; an auxiliary token never comes
    without an auxiliary chat.  A rejected save leaves the store untouched,
    and a confirmed reset brings the built-in configuration back. *)
Theorem settings_round_trip botTokenInput chatIdInput settingsAuxChatIdInput
  settingsAuxBotTokenInput ls :
  let saved := handleSave botTokenInput chatIdInput settingsAuxChatIdInput
                 settingsAuxBotTokenInput ls in
  (fst saved = true ->
   initializeApiConfig DEFAULT_BOT_TOKEN (snd saved)
   = enteredConfig botTokenInput chatIdInput settingsAuxChatIdInput
       settingsAuxBotTokenInput
   /\ (EFFECTIVE_AUX_BOT_TOKEN
         (initializeApiConfig DEFAULT_BOT_TOKEN (snd saved)) <> None ->
       AUX_CHAT_ID (initializeApiConfig DEFAULT_BOT_TOKEN (snd saved))
       <> None))
  /\ (fst saved = false -> snd saved = ls)
  /\ initializeApiConfig DEFAULT_BOT_TOKEN (handleReset true ls)
     = defaultConfig DEFAULT_BOT_TOKEN.
Proof.
  assert (Hreset : initializeApiConfig DEFAULT_BOT_TOKEN (handleReset true ls)
                   = defaultConfig DEFAULT_BOT_TOKEN).
  { unfold handleReset, initializeApiConfig, loadUserApiConfig,
      clearUserApiConfig, withItems, defaultConfig. cbv zeta. simpl.
    rewrite lookup_delete_eq.
    rewrite (lookup_delete_ne _ USER_AUX_BOT_TOKEN_KEY USER_AUX_CHAT_ID_KEY)
      by discriminate.
    rewrite lookup_delete_eq.
    rewrite (lookup_delete_ne _ USER_AUX_BOT_TOKEN_KEY USER_CHAT_ID_KEY)
      by discriminate.
    rewrite (lookup_delete_ne _ USER_AUX_CHAT_ID_KEY USER_CHAT_ID_KEY)
      by discriminate.
    rewrite lookup_delete_eq.
    rewrite (lookup_delete_ne _ USER_AUX_BOT_TOKEN_KEY USER_BOT_TOKEN_KEY)
      by discriminate.
    rewrite (lookup_delete_ne _ USER_AUX_CHAT_ID_KEY USER_BOT_TOKEN_KEY)
      by discriminate.
    rewrite (lookup_delete_ne _ USER_CHAT_ID_KEY USER_BOT_TOKEN_KEY)
      by discriminate.
    rewrite lookup_delete_eq. reflexivity. }
  cbv zeta. unfold handleSave. cbv zeta.
  destruct (Js.isEmpty (Js.trim botTokenInput)) eqn:Et;
    [simpl; now auto|].
  destruct (Js.isEmpty (Js.trim chatIdInput)) eqn:Ec; [simpl; now auto|].
  destruct (negb (Js.isEmpty (Js.trim settingsAuxBotTokenInput))
            && Js.isEmpty (Js.trim settingsAuxChatIdInput)) eqn:Ea;
    [simpl; now auto|].
  simpl fst; simpl snd.
  assert (Hcfg : initializeApiConfig DEFAULT_BOT_TOKEN
                   (saveUserApiConfig (Js.trim botTokenInput)
                      (Js.trim chatIdInput)
                      (Some (Js.trim settingsAuxChatIdInput))
                      (Some (Js.trim settingsAuxBotTokenInput)) ls)
                 = enteredConfig botTokenInput chatIdInput
                     settingsAuxChatIdInput settingsAuxBotTokenInput).
  { unfold initializeApiConfig, loadUserApiConfig, saveUserApiConfig,
      withItems, enteredConfig. cbv zeta. simpl.
    rewrite lookup_insert_eq.
    rewrite (lookup_insert_ne _ USER_AUX_BOT_TOKEN_KEY USER_AUX_CHAT_ID_KEY)
      by discriminate.
    rewrite lookup_insert_eq.
    rewrite (lookup_insert_ne _ USER_AUX_BOT_TOKEN_KEY USER_CHAT_ID_KEY)
      by discriminate.
    rewrite (lookup_insert_ne _ USER_AUX_CHAT_ID_KEY USER_CHAT_ID_KEY)
      by discriminate.
    rewrite lookup_insert_eq.
    rewrite (lookup_insert_ne _ USER_AUX_BOT_TOKEN_KEY USER_BOT_TOKEN_KEY)
      by discriminate.
    rewrite (lookup_insert_ne _ USER_AUX_CHAT_ID_KEY USER_BOT_TOKEN_KEY)
      by discriminate.
    rewrite (lookup_insert_ne _ USER_CHAT_ID_KEY USER_BOT_TOKEN_KEY)
      by discriminate.
    rewrite lookup_insert_eq.
    now rewrite !orNull_nonEmpty, !orDefault_nonEmpty by assumption. }
  assert (Haux : EFFECTIVE_AUX_BOT_TOKEN
                   (enteredConfig botTokenInput chatIdInput
                      settingsAuxChatIdInput settingsAuxBotTokenInput)
                 <> None ->
                 AUX_CHAT_ID
                   (enteredConfig botTokenInput chatIdInput
                      settingsAuxChatIdInput settingsAuxBotTokenInput)
                 <> None).
  { unfold enteredConfig, nonEmpty. simpl.
    destruct (Js.isEmpty (Js.trim settingsAuxBotTokenInput));
      [congruence|].
    simpl in Ea. now rewrite Ea. }
  rewrite <- Hcfg in Haux.
  split; [intros _; split; [exact Hcfg|exact Haux]|].
  split; [discriminate|exact Hreset].
Qed.

End Settings.

Lemma settings_round_trip_witness :
  initializeApiConfig "7:MAIN"
    (snd (handleSave " 42:NEW " "12345" "" "" emptyStorage))
  = {| MAIN_CHAT_ID := "12345"; AUX_CHAT_ID := None;
       EFFECTIVE_AUX_BOT_TOKEN := None;
       PRIMARY_FILE_BASE_URL := "https://api.telegram.org/file/bot42:NEW" |}
  /\ snd (handleSave "42:NEW" "12345" " " "9:AUX" emptyStorage) = emptyStorage.
Proof.
  destruct (settings_round_trip "7:MAIN" " 42:NEW " "12345" "" "" emptyStorage)
    as (H1 & _ & _).
  destruct (settings_round_trip "7:MAIN" "42:NEW" "12345" " " "9:AUX"
              emptyStorage) as (_ & H2 & _).
  split; [exact (proj1 (H1 eq_refl))|exact (H2 eq_refl)].
Defined.

(** ** The roulette button *)





(** ** The pull-to-refresh gesture *)

Lemma handleTouches_app es1 es2 g :
  handleTouches (es1 ++ es2) g
  = (fst (handleTouches es2 (fst (handleTouches es1 g))),
     (snd (handleTouches es1 g)
      + snd (handleTouches es2 (fst (handleTouches es1 g))))%nat).
Proof.
  revert g. induction es1 as [|e es1 IH]; intros g; simpl.
  - now destruct (handleTouches es2 g).
  - destruct (handleTouch g e) as [g1 r]. rewrite IH.
    destruct (handleTouches es1 g1) as [g2 n]. simpl.
    f_equal. lia.
Qed.

Lemma movesThrough_pulling ys : forall g,
  isPulling g = true ->
  handleTouches (movesThrough ys) g
  = ({| touchStartY := touchStartY g;
        currentPullDistance :=
          match last ys with
          | Some y => y - touchStartY g
          | None => currentPullDistance g
          end;
        isPulling := true |}, O).
Proof.
  induction ys as [|y ys IH]; intros g Hg.
  - simpl. destruct g; simpl in *. now subst.
  - cbn [movesThrough fmap list_fmap handleTouches handleTouch].
    unfold handleTouchMove. rewrite Hg. simpl negb. simpl orb. cbv iota.
    fold (movesThrough ys). rewrite IH by reflexivity. simpl.
    destruct ys as [|y' ys]; [reflexivity|].
    change (last (y :: y' :: ys)) with (last (y' :: ys)).
    destruct (last (y' :: ys)) eqn:El; [reflexivity|].
    now apply last_None in El.
Qed.

(** X16.  The refresh action is never called unless some touch starts
    with one finger while the page is at the top; and a plain pull from an
    idle state (such a start at [y0], one-finger moves, release) calls it
    exactly when the last move ended more than 80 pixels below [y0]. *)
Theorem pull_to_refresh_trigger :
  (forall es g,
     isPulling g = false ->
     forallb (fun e => negb (beginsPull e)) es = true ->
     snd (handleTouches es g) = O)
  /\ (forall y0 ys g,
        isPulling g = false ->
        snd (handleTouches
               (TouchStart 0 [y0] :: movesThrough ys ++ [TouchEnd]) g)
        = match last ys with
          | Some y => if 80 <? y - y0 then 1%nat else O
          | None => O
          end).
Proof.
  split.
  - induction es as [|e es IH]; intros g Hg Hes; [reflexivity|].
    simpl in Hes. apply andb_true_iff in Hes as [He Hes].
    cbn [handleTouches].
    assert (H1 : isPulling (fst (handleTouch g e)) = false
                 /\ snd (handleTouch g e) = false).
    { destruct e as [scrollY touches|touches| |]; simpl.
      - unfold handleTouchStart. simpl in He.
        apply negb_true_iff in He. rewrite He. simpl.
        destruct (1 <? length touches)%nat; [|now split].
        rewrite Hg. now split.
      - unfold handleTouchMove. rewrite Hg. now split.
      - unfold handleTouchEnd. rewrite Hg. now split.
      - now split. }
    destruct (handleTouch g e) as [g1 r]. simpl in H1. destruct H1 as [H1 ->].
    specialize (IH g1 H1 Hes). destruct (handleTouches es g1). simpl in *.
    exact IH.
  - intros y0 ys g Hg. cbn [handleTouches handleTouch].
    unfold handleTouchStart. rewrite Hg. simpl.
    rewrite handleTouches_app, movesThrough_pulling by reflexivity.
    simpl. unfold handleTouchEnd, PULL_THRESHOLD. simpl.
    destruct (last ys) as [y|] eqn:El; [|reflexivity].
    now destruct (80 <? y - y0).
Qed.

Lemma pull_to_refresh_trigger_witness :
  snd (handleTouches
         [TouchStart 120 [30]; TouchMove [200]; TouchEnd; TouchMove [10]]
         idleGesture) = O
  /\ snd (handleTouches
            (TouchStart 0 [30] :: movesThrough [60; 111] ++ [TouchEnd])
            idleGesture) = 1%nat.
Proof.
  destruct pull_to_refresh_trigger as [H1 H2]. split.
  - apply H1; reflexivity.
  - exact (H2 30 [60; 111] idleGesture eq_refl).
Defined.

(** ** Renumbering, once more *)

Lemma renumberCards_in_sequence ls cards : forall index,
  cardIds cards = (fun i => pretty (i + 1)%nat) <$> seq index (length cards) ->
  renumberCards ls index cards = ([], cards).
Proof.
  induction cards as [|c cards IH]; intros index H; [reflexivity|].
  csimpl in H. injection H as Hc Hrest. simpl.
  rewrite (IH (S index) Hrest).
  now rewrite bool_decide_eq_true_2 by exact Hc.
Qed.

Lemma renumberProducts_in_sequence ls grid :
  cardIds grid = denseIds (length grid) -> renumberProducts ls grid = (ls, grid).
Proof.
  intros H. unfold renumberProducts. destruct grid as [|c grid]; [reflexivity|].
  now rewrite (renumberCards_in_sequence ls (c :: grid) 0 H).
Qed.

(** X17.  Renumbering is idempotent: a second [renumberProducts] right
    after the first changes neither the grid nor the store; and on a grid
    whose cards already carry the ids 1..N it changes nothing at all. *)
Theorem renumberProducts_idempotent ls grid :
  renumberProducts (fst (renumberProducts ls grid))
    (snd (renumberProducts ls grid))
  = renumberProducts ls grid
  /\ (cardIds grid = denseIds (length grid) ->
      renumberProducts ls grid = (ls, grid)).
Proof.
  split; [|apply renumberProducts_in_sequence].
  destruct (renumberProducts_dense ls grid) as [Hids Hlen].
  rewrite renumberProducts_in_sequence by now rewrite Hlen.
  now destruct (renumberProducts ls grid).
Qed.

Lemma renumberProducts_idempotent_witness :
  renumberProducts twoRecords
    [createProductCardElement "1" (sampleData "Mani");
     createProductCardElement "2" (sampleData "Coco")]
  = (twoRecords,
     [createProductCardElement "1" (sampleData "Mani");
      createProductCardElement "2" (sampleData "Coco")]).
Proof.
  exact (proj2 (renumberProducts_idempotent twoRecords
                  [createProductCardElement "1" (sampleData "Mani");
                   createProductCardElement "2" (sampleData "Coco")])
           eq_refl).
Defined.

Lemma insertCard_last newId card grid :
  Forall (fun c => ltNumber newId (parseIntOpt (cardId c)) = false) grid ->
  insertCard newId card grid = grid ++ [card].
Proof.
  induction 1 as [|c grid Hc _ IH]; simpl; [reflexivity|].
  now rewrite Hc, IH.
Qed.

Lemma removeCard_last productId card grid :
  productId ∉ cardIds grid -> cardId card = productId ->
  removeCard productId (grid ++ [card]) = grid.
Proof.
  intros Hnot Hc. induction grid as [|c grid IH]; simpl.
  - now rewrite bool_decide_eq_true_2.
  - csimpl in Hnot. apply not_elem_of_cons in Hnot as [Hne Hnot].
    rewrite bool_decide_eq_false_2 by congruence. now rewrite IH.
Qed.

(** X18.  On a catalog whose cards carry the ids 1..N, adding product N+1
    and deleting it again leaves grid and store exactly as they were. *)
Theorem add_last_then_delete_restores d ls grid :
  cardIds grid = denseIds (length grid) ->
  productData ls !! pretty (length grid + 1)%nat = None ->
  deleteProduct (pretty (length grid + 1)%nat)
    (saveProductData (pretty (length grid + 1)%nat) d ls)
    (updateProductCard (pretty (length grid + 1)%nat) d grid)
  = (ls, grid).
Proof.
  intros Hdense Hnone. set (p := pretty (length grid + 1)%nat) in *.
  assert (Hdig : Js.allDigits p = true) by apply allDigits_pretty_nat.
  assert (Hnot : p ∉ cardIds grid).
  { rewrite Hdense. unfold denseIds.
    intros (i & Hp & Hi)%list_elem_of_fmap. apply (inj pretty) in Hp.
    apply elem_of_seq in Hi. lia. }
  assert (Hlast : updateProductCard p d grid
                  = grid ++ [createProductCardElement p d]).
  { unfold updateProductCard.
    rewrite (proj2 (hasCard_not_elem p grid) Hnot).
    apply insertCard_last. apply Forall_forall. intros c Hc.
    assert (Hid : cardId c ∈ cardIds grid)
      by (apply list_elem_of_fmap; now exists c).
    rewrite Hdense in Hid. unfold denseIds in Hid.
    apply list_elem_of_fmap in Hid as (i & -> & Hi).
    apply elem_of_seq in Hi.
    rewrite (parseIntOpt_digits p Hdig),
      (parseIntOpt_digits _ (allDigits_pretty_nat (i + 1))).
    unfold p. rewrite !parseInt_pretty_nat. simpl. apply N.ltb_ge. lia. }
  rewrite Hlast. unfold deleteProduct.
  assert (Hhas : hasCard p (grid ++ [createProductCardElement p d]) = true).
  { apply hasCard_elem. unfold cardIds. rewrite fmap_app.
    apply elem_of_app. right. apply list_elem_of_here. }
  rewrite Hhas, (removeCard_last p (createProductCardElement p d) grid Hnot eq_refl).
  rewrite renumberProducts_in_sequence by exact Hdense.
  f_equal. unfold saveProductData.
  replace (Js.isEmpty p) with false
    by (unfold Js.allDigits in Hdig; now destruct p).
  unfold withProductData. simpl. rewrite delete_insert_id by exact Hnone.
  now destruct ls.
Qed.

Lemma add_last_then_delete_restores_witness :
  deleteProduct "2" (saveProductData "2" (sampleData "Coco") emptyStorage)
    (updateProductCard "2" (sampleData "Coco")
       [createProductCardElement "1" (sampleData "Mani")])
  = (emptyStorage, [createProductCardElement "1" (sampleData "Mani")]).
Proof.
  exact (add_last_then_delete_restores (sampleData "Coco") emptyStorage
           [createProductCardElement "1" (sampleData "Mani")]
           eq_refl eq_refl).
Defined.

(** ** The entries of the chat history *)

Lemma historyOk_nil : historyOk [].
Proof. split; [constructor|]. intros i a b H. destruct i; discriminate. Qed.

Lemma historyOk_snoc h e :
  historyOk h -> entryOk e -> last h <> Some e -> historyOk (h ++ [e]).
Proof.
  intros [Hall Hrep] He Hlast. split.
  - apply Forall_app. split; [exact Hall|constructor; [exact He|constructor]].
  - intros i a b Ha Hb.
    destruct (decide (S i < length h)%nat) as [Hlt|Hge].
    + rewrite lookup_app_l in Ha by lia. rewrite lookup_app_l in Hb by lia.
      now apply (Hrep i).
    + assert (S i = length h) as Hi.
      { apply lookup_lt_Some in Hb. rewrite length_app in Hb. simpl in Hb.
        lia. }
      rewrite lookup_app_l in Ha by lia.
      rewrite lookup_app_r, Hi, Nat.sub_diag in Hb by lia.
      injection Hb as <-. intros ->. apply Hlast.
      rewrite last_lookup. now replace (pred (length h)) with i by lia.
Qed.

Lemma addMessageToChat_history text type sender ts img save h key ls :
  fst (addMessageToChat text type sender ts img save h key ls) = h
  \/ (fst (addMessageToChat text type sender ts img save h key ls)
      = h ++ [mkEntry text type sender ts img]
      /\ last h <> Some (mkEntry text type sender ts img)).
Proof.
  destruct (stores type save key) eqn:Hs;
    [|left; now rewrite addMessageToChat_skip].
  destruct (decide (last h = Some (mkEntry text type sender ts img)))
    as [Hl|Hl]; [left; now rewrite addMessageToChat_duplicate|].
  right. now rewrite addMessageToChat_fresh.
Qed.

Lemma truthy_orNull o : Js.truthy o = true -> Js.orNull o <> None.
Proof.
  unfold Js.orNull, Js.orElse. intros H. rewrite H.
  destruct o; [discriminate|discriminate H].
Qed.

Lemma received_history (text : option string) sender ts img h key ls :
  (Js.orNull text <> None \/ Js.orNull img <> None) ->
  historyOk h ->
  historyOk (fst (addMessageToChat text Received sender ts img true h key ls)).
Proof.
  intros Hsome Hok.
  destruct (addMessageToChat_history text Received sender ts img true h key ls)
    as [->|[-> Hl]]; [exact Hok|].
  apply historyOk_snoc; [exact Hok| |exact Hl].
  repeat split; simpl; try apply orNull_shown. exact Hsome.
Qed.

Section ChatEntries.

Variable cfg : Config.
Variable getFile : string -> bool -> option string.

Lemma handleChatMessage_history botType lc senderName m st :
  (forall msg type o s, chatHistory (lc msg type o s) = chatHistory s) ->
  historyOk (chatHistory st) ->
  historyOk (chatHistory
               (handleChatMessage cfg getFile botType lc senderName m st)).
Proof.
  intros Hlc Hok. unfold handleChatMessage.
  destruct (_ && _); [|exact Hok].
  destruct (nonEmptyPhotos (photo m)) as [bestPhoto|].
  - destruct (filePathOf _ _ _) as [path|].
    + cbn [setChat chatHistory]. apply received_history; [|exact Hok].
      right. unfold Js.orNull, Js.orElse, Js.truthy.
      rewrite bool_decide_eq_false_2 by apply append_slash_nonempty.
      discriminate.
    + cbv zeta. destruct (Js.truthy (caption m)) eqn:Ec.
      * cbn [setChat chatHistory]. apply received_history.
        -- left. now apply truthy_orNull.
        -- now rewrite Hlc.
      * now rewrite Hlc.
  - destruct (Js.truthy (messageText m)) eqn:Et; [|exact Hok].
    cbn [setChat chatHistory]. apply received_history; [|exact Hok].
    left. now apply truthy_orNull.
Qed.

Lemma dispatchMessage_history botType m st :
  historyOk (chatHistory st) ->
  historyOk (chatHistory (dispatchMessage cfg getFile botType m st)).
Proof.
  intros Hok.
  unfold dispatchMessage. cbv zeta.
  repeat match goal with
         | |- context [if ?b then _ else _] => destruct b
         end;
    try exact Hok.
  - apply historyOk_nil.
  - unfold productOrChat. cbv zeta.
    destruct (if Js.truthy _ then _ else _) as [d|].
    + unfold applyProductUpdate;
        destruct (nonEmptyPhotos (photo m)) as [best|];
        try destruct (filePathOf _ _ _); exact Hok.
    + apply handleChatMessage_history; [|exact Hok].
      intros. apply logCallbackOf_frame.
Qed.

(** X19.  Every entry the dispatcher appends to the chat history is a
    received message that carries a text or an image, never an empty
    string for either, and it never appends an entry equal to the one
    before it: a history that is so formed stays so formed through any
    batch of updates, on either channel. *)
Theorem processUpdates_keeps_history_well_formed botType us : forall st,
  historyOk (chatHistory st) ->
  historyOk (chatHistory (processUpdates cfg getFile us botType st)).
Proof.
  induction us as [|u us IH]; intros st Hok; [exact Hok|].
  rewrite processUpdates_cons. apply IH. unfold processUpdate.
  assert (H0 : historyOk
                 (chatHistory (setLastUpdateId botType (update_id u) st)))
    by now destruct botType.
  destruct (message u) as [m|]; [|exact H0].
  repeat match goal with
         | |- context [if ?b then _ else _] => destruct b
         end; try exact H0.
  now apply dispatchMessage_history.
Qed.

(** X20.  A batch moves the cursor of its own channel to the id of its
    last update, whatever the updates hold and whichever chat they come
    from, and never touches the cursor of the other channel. *)
Theorem processUpdates_moves_own_cursor_only botType us st :
  lastUpdateId botType (processUpdates cfg getFile us botType st)
  = default (lastUpdateId botType st) (last (update_id <$> us))
  /\ lastUpdateId (otherChannel botType)
       (processUpdates cfg getFile us botType st)
     = lastUpdateId (otherChannel botType) st.
Proof.
  split; [apply processUpdates_cursor|].
  revert st. induction us as [|u us IH]; intros st; [reflexivity|].
  rewrite processUpdates_cons, IH. unfold processUpdate.
  assert (H0 : lastUpdateId (otherChannel botType)
                 (setLastUpdateId botType (update_id u) st)
               = lastUpdateId (otherChannel botType) st)
    by now destruct botType.
  destruct (message u) as [m|]; [|exact H0].
  repeat match goal with
         | |- context [if ?b then _ else _] => destruct b
         end; try exact H0.
  rewrite <- H0.
  destruct (dispatchMessage_cursors cfg getFile botType m
              (setLastUpdateId botType (update_id u) st)) as [H1 H2].
  destruct botType; simpl; assumption.
Qed.

End ChatEntries.

Lemma processUpdates_keeps_history_well_formed_witness :
  historyOk (chatHistory initialState)
  /\ historyOk (chatHistory
       (processUpdates shopConfig noFile (concat sampleBatches) Primary
          initialState)).
Proof.
  assert (H : historyOk (chatHistory initialState)) by apply historyOk_nil.
  split; [exact H|].
  exact (processUpdates_keeps_history_well_formed shopConfig noFile Primary
           (concat sampleBatches) initialState H).
Defined.

Lemma processUpdates_images_witness :
  imagesShown stateWithCaramelo
  /\ imagesShown
       (processUpdates shopConfig noFile gapBatch Primary stateWithCaramelo).
Proof.
  assert (H : imagesShown stateWithCaramelo).
  { split.
    - apply map_Forall_insert_2; [discriminate|apply map_Forall_empty].
    - repeat constructor. discriminate. }
  split; [exact H|].
  exact (processUpdates_images shopConfig noFile Primary gapBatch
           stateWithCaramelo H).
Defined.

(** ** The selected currency *)

Lemma initializeCurrencySwitch_kept sw :
  currencyKept (initializeCurrencySwitch sw).
Proof.
  unfold initializeCurrencySwitch, currencyKept. cbv zeta.
  destruct (bool_decide _) eqn:E; simpl.
  - left. now apply bool_decide_eq_true_1 in E.
  - right. now apply bool_decide_eq_false_1 in E.
Qed.

Lemma setSelectedCurrency_kept currency sw :
  currencyKept sw -> currencyKept (setSelectedCurrency currency sw).
Proof.
  intros Hk. unfold setSelectedCurrency. cbv zeta.
  destruct (negb (bool_decide (_ = currentCurrency sw))) eqn:E; [|exact Hk].
  unfold currencyKept. simpl. rewrite lookup_insert_eq.
  destruct (bool_decide (currency = "CUP")) eqn:Ec; simpl.
  - apply bool_decide_eq_true_1 in Ec as ->. right. split; [reflexivity|].
    discriminate.
  - destruct (bool_decide (currency = "MLC")) eqn:Em; simpl.
    + apply bool_decide_eq_true_1 in Em as ->. now left.
    + right. split; [reflexivity|discriminate].
Qed.

Lemma currencyStep_kept sw e : currencyKept sw -> currencyKept (currencyStep sw e).
Proof.
  intros Hk. destruct e as [checked|newCurrency]; simpl.
  - now apply setSelectedCurrency_kept.
  - unfold handleCurrencyChange. destruct (_ || _); [|exact Hk].
    destruct newCurrency; [now apply setSelectedCurrency_kept|exact Hk].
Qed.

(** X22.  The selected currency survives a reload: after any sequence of
    flips of the switch and change reports, the currency in use is CUP or
    MLC, and [initializeCurrencySwitch] on the store as it stands selects
    that same currency again. *)
Theorem selected_currency_survives_reload es sw :
  let sw' := currencySession es sw in
  (getSelectedCurrency sw' = "CUP" \/ getSelectedCurrency sw' = "MLC")
  /\ getSelectedCurrency (initializeCurrencySwitch sw')
     = getSelectedCurrency sw'.
Proof.
  cbv zeta. unfold currencySession.
  assert (Hk : currencyKept
                 (fold_left currencyStep es (initializeCurrencySwitch sw))).
  { generalize (initializeCurrencySwitch_kept sw).
    generalize (initializeCurrencySwitch sw). clear sw.
    induction es as [|e es IH]; intros sw Hk; [exact Hk|].
    simpl. apply IH. now apply currencyStep_kept. }
  set (sw' := fold_left _ _ _) in *. unfold getSelectedCurrency.
  unfold initializeCurrencySwitch. cbv zeta.
  destruct Hk as [[Hc Hs]|[Hc Hs]]; rewrite Hc.
  - split; [now right|]. now rewrite bool_decide_eq_true_2.
  - split; [now left|]. now rewrite bool_decide_eq_false_2.
Qed.

(** ** The shape of a parsed command *)

Lemma split_noStar s :
  Forall noStar (Js.split "*" s).
Proof.
  induction s as [|c s IH]; simpl; [now repeat constructor|].
  destruct (bool_decide (c = "*"%char)) eqn:E.
  - constructor; [reflexivity|exact IH].
  - destruct (Js.split "*" s) as [|p ps]; [repeat constructor|].
    + unfold noStar. simpl. now rewrite E.
    + apply Forall_cons in IH as [Hp Hps]. constructor; [|exact Hps].
      unfold noStar in *. simpl. now rewrite E, Hp.
Qed.

Lemma trimStart_allChars p s :
  Js.allChars p s = true -> Js.allChars p (Js.trimStart s) = true.
Proof.
  induction s as [|c s IH]; simpl; [trivial|].
  intros [Hc Hs]%andb_true_iff.
  destruct (Js.isWhiteSpace c); [now apply IH|]. simpl. now rewrite Hc, Hs.
Qed.

Lemma trimEnd_allChars p s :
  Js.allChars p s = true -> Js.allChars p (Js.trimEnd s) = true.
Proof.
  induction s as [|c s IH]; simpl; [trivial|].
  intros [Hc Hs]%andb_true_iff.
  destruct (Js.isWhiteSpace c && Js.isEmpty (Js.trimEnd s)); [reflexivity|].
  simpl. now rewrite Hc, IH.
Qed.

Lemma trimmedParts_parts text :
  Forall (fun part => part <> "" /\ noStar part) (trimmedParts text).
Proof.
  unfold trimmedParts. apply Forall_forall. intros part Hin.
  apply list_elem_of_In, List.filter_In in Hin as [Hin Hne]. split.
  - intros ->. discriminate.
  - apply List.in_map_iff in Hin as (raw & <- & Hraw).
    unfold noStar, Js.trim. apply trimEnd_allChars, trimStart_allChars.
    pose proof (split_noStar text) as Hall. rewrite Forall_forall in Hall.
    apply Hall, list_elem_of_In. unfold Js.slice1m1 in Hraw.
    assert (Htail : List.In raw (tail (Js.split "*" text))).
    { revert Hraw. generalize (tail (Js.split "*" text)).
      induction l as [|x l IHl]; simpl; [trivial|].
      destruct l as [|y l]; [intros []|].
      intros [->|H]; [now left|right; now apply IHl]. }
    destruct (Js.split "*" text); [destruct Htail|now right].
Qed.

Lemma parseFloat_nonneg s q : parseFloat s = Some q -> (0 <= q)%Q.
Proof.
  unfold parseFloat. destruct (Js.span Js.isDigit s) as [d1 r1].
  destruct (_ && _); [discriminate|]. intros [= <-].
  rewrite Qred_correct. unfold Qle. simpl. lia.
Qed.

Lemma recordPrice_ok acc m :
  priceOk (fst acc) -> priceOk (snd acc) ->
  priceOk (fst (recordPrice acc m)) /\ priceOk (snd (recordPrice acc m)).
Proof.
  intros H1 H2. unfold recordPrice.
  destruct (parseFloat _) as [q|] eqn:E; [|now split].
  apply parseFloat_nonneg in E. now destruct (currency m).
Qed.

Lemma recordPrices_ok ms : forall acc,
  priceOk (fst acc) -> priceOk (snd acc) ->
  priceOk (fst (fold_left recordPrice ms acc))
  /\ priceOk (snd (fold_left recordPrice ms acc)).
Proof.
  induction ms as [|m ms IH]; intros acc H1 H2; [now split|].
  simpl. destruct (recordPrice_ok acc m H1 H2) as [H3 H4]. now apply IH.
Qed.

Lemma nth_Forall {A} (P : A -> Prop) (l : list A) i d :
  Forall P l -> (i < length l)%nat -> P (nth i l d).
Proof.
  intros Hall. revert i. induction Hall as [|x l Hx _ IH]; intros i Hi.
  - simpl in Hi. lia.
  - destruct i as [|i]; [exact Hx|]. simpl in *. apply IH. lia.
Qed.

(** X23.  Whatever text it is given, a command that [parseProductCommand]
    accepts has an id made of digits, a name and a description that are
    not empty and hold no asterisk, at least one price, and no negative
    price. *)
Theorem parseProductCommand_well_formed text cmd :
  parseProductCommand text = Some cmd ->
  Js.allDigits (cmdId cmd) = true
  /\ (cmdName cmd <> "" /\ noStar (cmdName cmd))
  /\ (cmdDescription cmd <> "" /\ noStar (cmdDescription cmd))
  /\ (cmdPriceCUP cmd <> None \/ cmdPriceMLC cmd <> None)
  /\ priceOk (cmdPriceCUP cmd) /\ priceOk (cmdPriceMLC cmd).
Proof.
  intros H. split; [exact (parseProductCommand_id text cmd H)|].
  unfold parseProductCommand in H.
  destruct (negb (Js.startsWith text "*DULCES*")); [discriminate|].
  cbv zeta in H.
  destruct ((length (trimmedParts text) <? 5)%nat || _) eqn:Hlen;
    [discriminate|].
  apply orb_false_iff in Hlen as [Hlen _]. apply Nat.ltb_ge in Hlen.
  destruct (negb (Js.allDigits _)); [discriminate|].
  pose proof (recordPrices_ok (execAll (nth 4 (trimmedParts text) ""))
                (None, None) I I) as [Hcup Hmlc].
  destruct (fold_left recordPrice _ _) as [priceCUP priceMLC].
  simpl in Hcup, Hmlc.
  pose proof (trimmedParts_parts text) as Hparts.
  assert (Hcmd : cmd = {| cmdId := nth 1 (trimmedParts text) "";
                          cmdName := nth 2 (trimmedParts text) "";
                          cmdDescription := nth 3 (trimmedParts text) "";
                          cmdPriceCUP := priceCUP; cmdPriceMLC := priceMLC |}
                 /\ (priceCUP <> None \/ priceMLC <> None)).
  { destruct priceCUP, priceMLC; try discriminate; injection H as <-;
      (split; [reflexivity|]); [left|left|right]; discriminate. }
  destruct Hcmd as [-> Hsome]. simpl.
  split; [apply (nth_Forall _ _ 2 "" Hparts); lia|].
  split; [apply (nth_Forall _ _ 3 "" Hparts); lia|].
  split; [exact Hsome|]. split; assumption.
Qed.

Lemma parseProductCommand_well_formed_witness :
  Js.allDigits (cmdId carameloCommand) = true
  /\ priceOk (cmdPriceCUP carameloCommand).
Proof.
  assert (H : parseProductCommand carameloText = Some carameloCommand)
    by (vm_compute; reflexivity).
  destruct (parseProductCommand_well_formed carameloText carameloCommand H)
    as (H1 & _ & _ & _ & H2 & _).
  split; [exact H1|exact H2].
Defined.

(** ** Repeating an upsert *)

Lemma refreshCard_twice productId d grid :
  refreshCard productId d (refreshCard productId d grid)
  = refreshCard productId d grid.
Proof.
  induction grid as [|c grid IH]; [reflexivity|]. simpl.
  destruct (bool_decide (cardId c = productId)) eqn:E; simpl.
  - now rewrite E.
  - now rewrite E, IH.
Qed.

Lemma refreshCard_inserted productId d n grid :
  hasCard productId grid = false ->
  refreshCard productId d
    (insertCard n (createProductCardElement productId d) grid)
  = insertCard n (createProductCardElement productId d) grid.
Proof.
  unfold hasCard. induction grid as [|c grid IH]; simpl.
  - intros _. now rewrite bool_decide_eq_true_2.
  - intros [Hc Hrest]%orb_false_iff.
    destruct (ltNumber n (parseIntOpt (cardId c))); simpl.
    + now rewrite bool_decide_eq_true_2.
    + now rewrite Hc, IH.
Qed.

(** X24.  An upsert repeated changes nothing more: updating the card of a
    product twice with the same record gives the grid one update gives,
    new card or not, and saving the record twice gives the store one save
    gives. *)
Theorem upsert_idempotent productId d ls grid :
  updateProductCard productId d (updateProductCard productId d grid)
  = updateProductCard productId d grid
  /\ saveProductData productId d (saveProductData productId d ls)
     = saveProductData productId d ls.
Proof.
  split.
  - unfold updateProductCard at 2 3.
    destruct (hasCard productId grid) eqn:Hhas.
    + unfold updateProductCard.
      assert (hasCard productId (refreshCard productId d grid) = true) as ->.
      { apply hasCard_elem. rewrite refreshCard_ids. now apply hasCard_elem. }
      apply refreshCard_twice.
    + unfold updateProductCard.
      assert (hasCard productId
                (insertCard (parseIntOpt productId)
                   (createProductCardElement productId d) grid) = true) as ->.
      { apply hasCard_elem. unfold cardIds. apply list_elem_of_fmap.
        exists (createProductCardElement productId d).
        split; [reflexivity|]. apply insertCard_elem. now left. }
      now apply refreshCard_inserted.
  - unfold saveProductData. destruct (Js.isEmpty productId) eqn:E;
      rewrite ?E; [reflexivity|].
    unfold withProductData. simpl. now rewrite insert_insert_eq.
Qed.
